(** * A shallow embedding of the JSX visual editor

    The development follows the TypeScript sources of the editor:
    - [lib/parser.ts]: [parseJSX], the Babel-AST conversion functions and the
      id-addressed tree updates;
    - [lib/serializer.ts]: [serializeToJSX], [serializeProps],
      [serializeStyle], [escapeString];
    - [lib/renderer.ts]: [renderNode] (its event handlers),
      [extractStyleFromNode], [getComputedStylesFromClassName];
    - [components/PropertyPanel.tsx]: the style merge and gradient detection of
      the selection effect;
    - [components/WebsiteEditor.tsx]: the parse effect.

    JavaScript strings are modelled as [string]: every [ascii] stands for one
    UTF-16 code unit below 256.  JavaScript numbers are binary64 floats. *)

From Stdlib Require Import String Ascii List Bool Arith NArith ZArith Lia.
From Stdlib Require Import PrimFloat Permutation.
Import ListNotations.

Local Open Scope list_scope.
Local Open Scope string_scope.

Set Warnings "-register-all".

(** ** JavaScript strings *)

Module JsString.

Definition chars (s : string) : list ascii := list_ascii_of_string s.
Definition of_chars (l : list ascii) : string := string_of_list_ascii l.

Definition code (c : ascii) : nat := nat_of_ascii c.

(** WhiteSpace and LineTerminator code units below 256: TAB, LF, VT, FF, CR,
    SP and NBSP.  They are what [\s] matches and what [trim] removes. *)
Definition is_space (c : ascii) : bool :=
  let n := code c in
  (Nat.leb 9 n && Nat.leb n 13) || Nat.eqb n 32 || Nat.eqb n 160.

Definition is_digit (c : ascii) : bool :=
  let n := code c in Nat.leb 48 n && Nat.leb n 57.

(** [\w] is [A-Za-z0-9_]. *)
Definition is_word (c : ascii) : bool :=
  let n := code c in
  (Nat.leb 65 n && Nat.leb n 90) || (Nat.leb 97 n && Nat.leb n 122)
  || is_digit c || Nat.eqb n 95.

Fixpoint drop_spaces (l : list ascii) : list ascii :=
  match l with
  | c :: l' => if is_space c then drop_spaces l' else l
  | [] => []
  end.

(** [String.prototype.trim] *)
Definition trim (s : string) : string :=
  of_chars (rev (drop_spaces (rev (drop_spaces (chars s))))).

(** [String.prototype.startsWith] *)
Definition startsWith (s p : string) : bool := String.prefix p s.

Fixpoint includes_chars (n : nat) (s p : list ascii) : bool :=
  match n with
  | O => false
  | S n' =>
      String.prefix (of_chars p) (of_chars s)
      || match s with
         | [] => false
         | _ :: s' => includes_chars n' s' p
         end
  end.

(** [String.prototype.includes] *)
Definition includes (s p : string) : bool :=
  includes_chars (S (String.length s)) (chars s) (chars p).

(** [String.prototype.repeat] *)
Fixpoint repeat (s : string) (n : nat) : string :=
  match n with
  | O => ""
  | S n' => s ++ repeat s n'
  end.

(** [Array.prototype.join] *)
Fixpoint join (sep : string) (parts : list string) : string :=
  match parts with
  | [] => ""
  | [p] => p
  | p :: rest => p ++ sep ++ join sep rest
  end.

(** [String.prototype.toLowerCase] on code units below 256 (ASCII letters and
    the Latin-1 capitals). *)
Definition lower_char (c : ascii) : ascii :=
  let n := code c in
  if (Nat.leb 65 n && Nat.leb n 90)
     || (Nat.leb 192 n && Nat.leb n 222 && negb (Nat.eqb n 215))
  then ascii_of_nat (n + 32) else c.

Definition toLowerCase (s : string) : string :=
  of_chars (map lower_char (chars s)).

Definition digit_char (d : N) : ascii := ascii_of_N (48 + d).

Fixpoint dec_digits (fuel : nat) (n : N) (acc : list ascii) : list ascii :=
  match fuel with
  | O => acc
  | S fuel' =>
      let acc' := digit_char (N.modulo n 10) :: acc in
      if N.ltb n 10 then acc' else dec_digits fuel' (N.div n 10) acc'
  end.

(** The decimal numeral of a natural number, as [Number::toString] prints an
    integer below 10^21. *)
Definition of_N (n : N) : string :=
  of_chars (dec_digits (S (N.to_nat (N.log2 n))) n []).

Definition of_nat (n : nat) : string := of_N (N.of_nat n).

Fixpoint digits_value (l : list ascii) (acc : N) : N :=
  match l with
  | [] => acc
  | c :: l' => digits_value l' (acc * 10 + (N_of_ascii c - 48))
  end.

(** The integer a string of decimal digits denotes. *)
Definition to_N (s : string) : N := digits_value (chars s) 0.

End JsString.

(** ** JavaScript values and objects *)

(** The values a [Record<string, unknown>] of the editor holds.  [VFunction]
    stands for a built-in function reached through [Object.prototype]. *)
Inductive JsVal : Type :=
| VUndefined
| VNull
| VBool (b : bool)
| VNum (n : float)
| VStr (s : string)
| VObj (entries : list (string * JsVal))
| VFunction (name : string).

(** An object is the list of its own enumerable string-keyed properties, in
    [OrdinaryOwnPropertyKeys] order: array-index keys in ascending numeric
    order, then the other keys in order of creation. *)
Definition Obj : Type := list (string * JsVal).

Module JsObject.

Definition max_array_index : N := 4294967294.

(** [Some i] when the key is the canonical numeral of an array index. *)
Definition array_index (k : string) : option N :=
  let i := JsString.to_N k in
  if String.eqb (JsString.of_N i) k && N.leb i max_array_index
  then Some i else None.

Fixpoint get (o : Obj) (k : string) : option JsVal :=
  match o with
  | [] => None
  | (k', v) :: o' => if String.eqb k' k then Some v else get o' k
  end.

Definition has (o : Obj) (k : string) : bool :=
  match get o k with Some _ => true | None => false end.

Fixpoint replace (o : Obj) (k : string) (v : JsVal) : Obj :=
  match o with
  | [] => []
  | (k', v') :: o' =>
      if String.eqb k' k then (k', v) :: o' else (k', v') :: replace o' k v
  end.

(** A new array-index key goes before the first key that is not a smaller
    array index. *)
Fixpoint insert_index (i : N) (k : string) (v : JsVal) (o : Obj) : Obj :=
  match o with
  | [] => [(k, v)]
  | (k', v') :: o' =>
      match array_index k' with
      | Some j =>
          if N.ltb j i then (k', v') :: insert_index i k v o'
          else (k, v) :: o
      | None => (k, v) :: o
      end
  end.

(** [o[k] = v] on an ordinary object. *)
Definition set (o : Obj) (k : string) (v : JsVal) : Obj :=
  if has o k then replace o k v
  else match array_index k with
       | Some i => insert_index i k v o
       | None => (o ++ [(k, v)])%list
       end.

(** The assignment [o[k] = v] of a primitive [v], as [extractObjectExpression]
    performs it.  Assigning to ["__proto__"] runs the setter inherited from
    [Object.prototype], which ignores a value that is not an object, and
    creates no own property. *)
Definition assign_member (o : Obj) (k : string) (v : JsVal) : Obj :=
  if String.eqb k "__proto__" then o else set o k v.

(** The assignment [props[k] = v] as [extractProps] performs it, on the
    object given by its own properties and its prototype, [None] standing
    for [Object.prototype].  Assigning an object to ["__proto__"] makes it
    the prototype; a primitive is ignored.  ([extractProps] assigns neither
    [null] nor [undefined].) *)
Definition assign_through (o : Obj * option Obj) (k : string) (v : JsVal)
  : Obj * option Obj :=
  if String.eqb k "__proto__" then
    match v with
    | VObj prototype => (fst o, Some prototype)
    | _ => o
    end
  else (set (fst o) k v, snd o).

(** Copying the properties of [src] onto [target], as a spread element in an
    object literal does. *)
Definition assign (target src : Obj) : Obj :=
  fold_left (fun acc kv => set acc (fst kv) (snd kv)) src target.

Fixpoint string_entries (i : nat) (l : list ascii) : Obj :=
  match l with
  | [] => []
  | c :: l' =>
      (JsString.of_nat i, VStr (String c EmptyString)) :: string_entries (S i) l'
  end.

(** The own enumerable properties of a value: those of an object, the
    indexed code units of a string, none for the other values. *)
Definition own_entries (v : JsVal) : Obj :=
  match v with
  | VObj o => o
  | VStr s => string_entries 0 (JsString.chars s)
  | _ => []
  end.

(** The object literal [{ ...v }]. *)
Definition spread (v : JsVal) : Obj := assign [] (own_entries v).

Definition keys (o : Obj) : list string := map fst o.

(** The properties of [o] but the one named [k]. *)
Definition without (o : Obj) (k : string) : Obj :=
  filter (fun kv => negb (String.eqb (fst kv) k)) o.

End JsObject.

(** [ToBoolean] *)
Definition truthy (v : JsVal) : bool :=
  match v with
  | VUndefined | VNull => false
  | VBool b => b
  | VNum n => negb (PrimFloat.is_zero n || PrimFloat.is_nan n)
  | VStr s => negb (String.eqb s "")
  | VObj _ | VFunction _ => true
  end.

(** A property read [o.k] on an object whose prototype is
    [Object.prototype], for a key [Object.prototype] does not define: a
    missing property reads as [undefined]. *)
Definition prop (o : Obj) (k : string) : JsVal :=
  match JsObject.get o k with
  | Some v => v
  | None => VUndefined
  end.

(** The same read on an object with the own properties [o] and the
    prototype [prototype]: a property the object does not own is read from
    the prototype. *)
Definition prop_through (o : Obj) (prototype : option Obj) (k : string)
  : JsVal :=
  match JsObject.get o k with
  | Some v => v
  | None =>
      match prototype with
      | Some inherited => prop inherited k
      | None => VUndefined
      end
  end.

(** [a || b] *)
Definition js_or (a b : JsVal) : JsVal := if truthy a then a else b.

(** ** The host: built-ins and external libraries

    What the sources call without defining it.  [uuidv4 k] is the identifier
    the [k]-th call of [uuidv4()] returns.  The Babel front end is split as in
    the source: [parser_parse] builds the AST of a text or throws, and
    [traverse] walks it, which the embedding sees as the trace of visits to
    JSX elements and fragments, in traversal order. *)

Inductive Result (A : Type) : Type :=
| Ok (a : A)
| Throw (message : string).
Arguments Ok {A} a.
Arguments Throw {A} message.

(** *** The Babel AST of JSX *)

Inductive JSXName : Type :=
| JSXIdentifier (name : string)
| JSXMemberExpression (object : JSXName) (property : string)
| JSXNamespacedName (namespace name : string).

Inductive PropertyKey : Type :=
| KeyIdentifier (name : string)
| KeyStringLiteral (value : string)
| KeyOther.

Inductive Expression : Type :=
| StringLiteral (value : string)
| NumericLiteral (value : float)
| BooleanLiteral (value : bool)
| ObjectExpression (properties : list ObjectMember)
| TemplateLiteral (quasis : list string)
| OtherExpression
with ObjectMember : Type :=
| ObjectProperty (key : PropertyKey) (value : Expression)
| OtherMember.

Inductive AttributeName : Type :=
| AttrIdentifier (name : string)
| AttrNamespacedName (namespace name : string).

Inductive AttributeValue : Type :=
| AttrNoValue
| AttrStringLiteral (value : string)
| AttrExpressionContainer (expression : Expression)
| AttrOtherValue.

Inductive JSXAttr : Type :=
| JSXAttribute (name : AttributeName) (value : AttributeValue)
| JSXSpreadAttribute.

Inductive JSXNode : Type :=
| JSXElement (name : JSXName) (attributes : list JSXAttr) (children : list JSXNode)
| JSXFragment (children : list JSXNode)
| JSXText (value : string)
| JSXExpressionContainer (expression : Expression)
| JSXSpreadChild.

Inductive ParentKind : Type :=
| ParentProgram
| ParentExpressionStatement
| ParentOther.

(** What [traverse] does with the visitors of [parseJSX]: it ends, throws, or
    enters a JSX element or fragment below a parent of some kind and goes
    on. *)
Inductive Trace : Type :=
| TraceEnd
| TraceThrow (message : string)
| TraceEnter (node : JSXNode) (parent : ParentKind) (rest : Trace).

Class Host : Type := {
  (** [String(n)] for a number *)
  Number_toString : float -> string;
  (** [String(f)] for the built-in function of that name *)
  Function_toString : string -> string;
  JSON_stringify : JsVal -> string;
  (** [String(parseInt(digits) * factor)] beyond the safe integers *)
  parseInt_times (digits : string) (factor : N) : string;
  uuidv4 : nat -> string;
  (** the AST [parser.parse] returns *)
  File : Type;
  parser_parse : string -> Result File;
  traverse : File -> Trace
}.

(** ** The tree model ([types/editor.ts]) *)

Inductive NodeType : Type := element | text.

(** [props] lists the own properties of the object [node.props], and
    [props_prototype] is the prototype of that object when it is not
    [Object.prototype]: the object that an attribute named [__proto__] made
    the parser install. *)
Inductive EditorNode : Type := mkEditorNode {
  id : string;
  type : NodeType;
  tagName : option string;
  props : Obj;
  props_prototype : option Obj;
  children : list EditorNode;
  textContent : option string;
  originalSource : option string
}.

(** [node.props[k]] *)
Definition node_prop (node : EditorNode) (k : string) : JsVal :=
  prop_through (props node) (props_prototype node) k.

Definition NodeType_eqb (a b : NodeType) : bool :=
  match a, b with
  | element, element | text, text => true
  | _, _ => false
  end.

(** [s || d] for an optional string field. *)
Definition or_default (s : option string) (d : string) : string :=
  match s with
  | Some v => if String.eqb v "" then d else v
  | None => d
  end.

(** The ids of a tree, root first. *)
Fixpoint node_ids (n : EditorNode) : list string :=
  id n :: flat_map node_ids (children n).

(** ** The parser ([lib/parser.ts]) *)

Section Parser.

Context {host : Host}.

Fixpoint getTagName (name : JSXName) : string :=
  match name with
  | JSXIdentifier n => n
  | JSXMemberExpression object property => getTagName object ++ "." ++ property
  | JSXNamespacedName namespace n => namespace ++ ":" ++ n
  end.

Definition extractObjectExpression (properties : list ObjectMember) : Obj :=
  fold_left
    (fun obj member =>
       match member with
       | ObjectProperty (KeyIdentifier key) value
       | ObjectProperty (KeyStringLiteral key) value =>
           match value with
           | StringLiteral v => JsObject.assign_member obj key (VStr v)
           | NumericLiteral v => JsObject.assign_member obj key (VNum v)
           | BooleanLiteral v => JsObject.assign_member obj key (VBool v)
           | _ => obj
           end
       | _ => obj
       end)
    properties [].

Definition attribute_name (name : AttributeName) : string :=
  match name with
  | AttrIdentifier n => n
  | AttrNamespacedName _ _ => "[object Object]"
  end.

(** The object [props] is returned as its own properties and its
    prototype. *)
Definition extractProps (attributes : list JSXAttr) : Obj * option Obj :=
  fold_left
    (fun props attr =>
       match attr with
       | JSXAttribute attr_name value =>
           let name := attribute_name attr_name in
           match value with
           | AttrNoValue => JsObject.assign_through props name (VBool true)
           | AttrStringLiteral v => JsObject.assign_through props name (VStr v)
           | AttrExpressionContainer expr =>
               match expr with
               | StringLiteral v => JsObject.assign_through props name (VStr v)
               | NumericLiteral v => JsObject.assign_through props name (VNum v)
               | BooleanLiteral v => JsObject.assign_through props name (VBool v)
               | ObjectExpression members =>
                   JsObject.assign_through props name
                     (VObj (extractObjectExpression members))
               | TemplateLiteral quasis =>
                   JsObject.assign_through props name
                     (VStr (JsString.join "" quasis))
               | OtherExpression => props
               end
           | AttrOtherValue => props
           end
       | JSXSpreadAttribute => props
       end)
    attributes ([], None).

Definition text_node (ident content : string) : EditorNode :=
  {| id := ident; type := text; tagName := None; props := [];
     props_prototype := None;
     children := []; textContent := Some content; originalSource := None |}.

Definition element_node (ident tag : string) (p : Obj * option Obj)
    (cs : list EditorNode) : EditorNode :=
  {| id := ident; type := element; tagName := Some tag; props := fst p;
     props_prototype := snd p;
     children := cs; textContent := None; originalSource := None |}.

(** The loop of [convertChildren], over the conversion [push] of one child.
    [k] counts the calls of [uuidv4] made so far. *)
Definition convertChildrenWith
    (push : JSXNode -> nat -> list EditorNode * nat)
  : list JSXNode -> nat -> list EditorNode * nat :=
  fix loop (children : list JSXNode) (k : nat) :=
    match children with
    | [] => ([], k)
    | child :: rest =>
        let (pushed, k1) := push child k in
        let (result, k2) := loop rest k1 in
        ((pushed ++ result)%list, k2)
    end.

(** What one iteration of the loop of [convertChildren] pushes.  An object
    literal evaluates its fields in order, so an element draws its id after
    its children have drawn theirs. *)
Fixpoint convertChild (child : JSXNode) (k : nat) : list EditorNode * nat :=
  match child with
  | JSXElement name attributes cs =>
      let tag := getTagName name in
      let p := extractProps attributes in
      let (converted, k1) := convertChildrenWith convertChild cs k in
      ([element_node (uuidv4 k1) tag p converted], S k1)
  | JSXFragment cs =>
      let (converted, k1) := convertChildrenWith convertChild cs k in
      ([element_node (uuidv4 k1) "Fragment" ([], None) converted], S k1)
  | JSXText value =>
      let t := JsString.trim value in
      if String.eqb t "" then ([], k) else ([text_node (uuidv4 k) t], S k)
  | JSXExpressionContainer expr =>
      match expr with
      | StringLiteral v => ([text_node (uuidv4 k) v], S k)
      | TemplateLiteral quasis =>
          let t := JsString.join "" quasis in
          if String.eqb (JsString.trim t) "" then ([], k)
          else ([text_node (uuidv4 k) t], S k)
      | _ => ([], k)
      end
  | JSXSpreadChild => ([], k)
  end.

Definition convertChildren : list JSXNode -> nat -> list EditorNode * nat :=
  convertChildrenWith convertChild.

Definition convertJSXElement (name : JSXName) (attributes : list JSXAttr)
    (cs : list JSXNode) (k : nat) : EditorNode * nat :=
  let tag := getTagName name in
  let p := extractProps attributes in
  let (converted, k1) := convertChildren cs k in
  (element_node (uuidv4 k1) tag p converted, S k1).

Definition convertJSXFragment (cs : list JSXNode) (k : nat)
  : EditorNode * nat :=
  let (converted, k1) := convertChildren cs k in
  (element_node (uuidv4 k1) "Fragment" ([], None) converted, S k1).

Definition is_root_parent (parent : ParentKind) : bool :=
  match parent with
  | ParentProgram | ParentExpressionStatement => true
  | ParentOther => false
  end.

(** The visitors of [parseJSX] run over the traversal: the first element or
    fragment below the program or an expression statement becomes
    [rootNode] and stops the traversal. *)
Fixpoint run_visitors (events : Trace) (k : nat)
  : Result (option EditorNode) * nat :=
  match events with
  | TraceEnd => (Ok None, k)
  | TraceThrow message => (Throw message, k)
  | TraceEnter node parent rest =>
      if is_root_parent parent then
        match node with
        | JSXElement name attributes cs =>
            let (root, k1) := convertJSXElement name attributes cs k in
            (Ok (Some root), k1)
        | JSXFragment cs =>
            let (root, k1) := convertJSXFragment cs k in
            (Ok (Some root), k1)
        | _ => run_visitors rest k
        end
      else run_visitors rest k
  end.

(** The body of the [try] block of [parseJSX]. *)
Definition parseJSX_try (code : string) (k : nat)
  : Result (option EditorNode) * nat :=
  let wrappedCode := JsString.trim code in
  if negb (JsString.startsWith wrappedCode "<") then (Ok None, k)
  else match parser_parse wrappedCode with
       | Throw message => (Throw message, k)
       | Ok ast => run_visitors (traverse ast) k
       end.

(** [parseJSX]: the [catch] clause logs the error and returns [null]. *)
Definition parseJSX (code : string) (k : nat)
  : Result (option EditorNode) * nat :=
  match parseJSX_try code k with
  | (Ok root, k1) => (Ok root, k1)
  | (Throw _, k1) => (Ok None, k1)
  end.

End Parser.

(** ** Id-addressed updates ([lib/parser.ts]) *)

Fixpoint findNodeById (root : EditorNode) (ident : string) : option EditorNode :=
  if String.eqb (id root) ident then Some root
  else
    (fix search (l : list EditorNode) : option EditorNode :=
       match l with
       | [] => None
       | child :: rest =>
           match findNodeById child ident with
           | Some found => Some found
           | None => search rest
           end
       end) (children root).

Definition with_children (root : EditorNode) (cs : list EditorNode) : EditorNode :=
  {| id := id root; type := type root; tagName := tagName root;
     props := props root; props_prototype := props_prototype root;
     children := cs; textContent := textContent root;
     originalSource := originalSource root |}.

(** [{ ...root, props: { ... } }] for an object literal with the properties
    [p]: its prototype is [Object.prototype]. *)
Definition with_props (root : EditorNode) (p : Obj) : EditorNode :=
  {| id := id root; type := type root; tagName := tagName root;
     props := p; props_prototype := None;
     children := children root; textContent := textContent root;
     originalSource := originalSource root |}.

Definition with_textContent (root : EditorNode) (t : string) : EditorNode :=
  {| id := id root; type := type root; tagName := tagName root;
     props := props root; props_prototype := props_prototype root;
     children := children root; textContent := Some t;
     originalSource := originalSource root |}.

Fixpoint updateNodeStyle (root : EditorNode) (ident : string) (styleUpdates : Obj)
  : EditorNode :=
  if String.eqb (id root) ident then
    let currentStyle := js_or (node_prop root "style") (VObj []) in
    with_props root
      (JsObject.set (JsObject.spread (VObj (props root))) "style"
         (VObj (JsObject.assign (JsObject.spread currentStyle) styleUpdates)))
  else
    with_children root
      (map (fun child => updateNodeStyle child ident styleUpdates) (children root)).

Fixpoint updateNodeText (root : EditorNode) (ident : string) (content : string)
  : EditorNode :=
  if String.eqb (id root) ident then with_textContent root content
  else
    with_children root
      (map (fun child => updateNodeText child ident content) (children root)).

(** ** The serializer ([lib/serializer.ts]) *)

Definition LF : string := String (ascii_of_nat 10) EmptyString.

Definition DQ : string := String (ascii_of_nat 34) EmptyString.

(** [parts.push(s)] *)
Definition push (parts : list string) (s : string) : list string :=
  List.app parts [s].

Section Serializer.

Context {host : Host}.

(** [String(v)], the conversion a template literal applies. *)
Definition toString (v : JsVal) : string :=
  match v with
  | VUndefined => "undefined"
  | VNull => "null"
  | VBool true => "true"
  | VBool false => "false"
  | VNum n => Number_toString n
  | VStr s => s
  | VObj _ => "[object Object]"
  | VFunction name => Function_toString name
  end.

(** [str.replace(/c/g, by)] for a pattern of one code unit. *)
Fixpoint replace_all (c : ascii) (by_ : string) (str : string) : string :=
  match str with
  | EmptyString => EmptyString
  | String d rest =>
      if Ascii.eqb d c then by_ ++ replace_all c by_ rest
      else String d (replace_all c by_ rest)
  end.

Definition escapeString (str : string) : string :=
  replace_all (ascii_of_nat 10) "\n"
    (replace_all (ascii_of_nat 34) ("\" ++ DQ) (replace_all "\"%char "\\" str)).

Definition serializeStyle (style : Obj) : string :=
  if Nat.eqb (List.length (JsObject.keys style)) 0 then ""
  else
    let parts :=
      fold_left
        (fun parts kv =>
           let (key, value) := (kv : string * JsVal) in
           match value with
           | VUndefined | VNull => parts
           | VStr "" => parts
           | _ => push parts (key ++ ": " ++ DQ ++ toString value ++ DQ)
           end)
        style [] in
    "{ " ++ JsString.join ", " parts ++ " }".

Definition serializeProps (p : Obj) : string :=
  let parts :=
    fold_left
      (fun parts kv =>
         let (key, value) := (kv : string * JsVal) in
         match value with
         | VUndefined | VNull => parts
         | _ =>
             match String.eqb key "style", value with
             | true, VObj style =>
                 let styleStr := serializeStyle style in
                 if String.eqb styleStr "" then parts
                 else push parts ("style={" ++ styleStr ++ "}")
             | _, VStr s => push parts (key ++ "=" ++ DQ ++ escapeString s ++ DQ)
             | _, VBool b => if b then push parts key else parts
             | _, VNum n => push parts (key ++ "={" ++ Number_toString n ++ "}")
             | _, VObj _ => push parts (key ++ "={" ++ JSON_stringify value ++ "}")
             | _, _ => parts
             end
         end)
      p [] in
  match parts with
  | [] => ""
  | _ => " " ++ JsString.join " " parts
  end.

Definition is_text (n : EditorNode) : bool := NodeType_eqb (type n) text.

Definition is_fragment (n : EditorNode) : bool :=
  match tagName n with
  | Some tag => String.eqb tag "Fragment"
  | None => false
  end.

Fixpoint serializeToJSX (node : EditorNode) (indent : nat) : string :=
  let indentStr := JsString.repeat "  " indent in
  if is_text node then or_default (textContent node) ""
  else if is_fragment node then
    let cs :=
      JsString.join LF
        (map (fun child => serializeToJSX child indent) (children node)) in
    "<>" ++ LF ++ cs ++ LF ++ indentStr ++ "</>"
  else
    let tag := or_default (tagName node) "div" in
    let propsStr := serializeProps (props node) in
    match children node with
    | [] => indentStr ++ "<" ++ tag ++ propsStr ++ " />"
    | first :: others =>
        let allTextChildren := forallb is_text (children node) in
        if allTextChildren && Nat.eqb (List.length (children node)) 1 then
          let content := or_default (textContent first) "" in
          indentStr ++ "<" ++ tag ++ propsStr ++ ">" ++ content
            ++ "</" ++ tag ++ ">"
        else
          let cs :=
            JsString.join LF
              (map (fun child =>
                      if is_text child then
                        indentStr ++ "  " ++ or_default (textContent child) ""
                      else serializeToJSX child (indent + 1))
                   (children node)) in
          indentStr ++ "<" ++ tag ++ propsStr ++ ">" ++ LF ++ cs ++ LF
            ++ indentStr ++ "</" ++ tag ++ ">"
    end.

End Serializer.

(** ** Regular expressions

    A backtracking matcher for the fragment of ECMAScript patterns the sources
    use: greedy repetition, ordered alternation, capture groups and the [^]
    and [$] assertions (without the [m] flag). *)

Module Regex.

Inductive regex : Type :=
| Empty
| Char (c : ascii)
| Class (member : ascii -> bool)
| Seq (r1 r2 : regex)
| Alt (r1 r2 : regex)
| Star (r : regex)
| Group (index : nat) (r : regex)
| Begin
| End_.

Definition Plus (r : regex) : regex := Seq r (Star r).
Definition Opt (r : regex) : regex := Alt r Empty.

Fixpoint Lit (s : string) : regex :=
  match s with
  | EmptyString => Empty
  | String c rest => Seq (Char c) (Lit rest)
  end.

Definition Captures : Type := list (nat * string).

Fixpoint capture (caps : Captures) (i : nat) : option string :=
  match caps with
  | [] => None
  | (j, s) :: rest => if Nat.eqb j i then Some s else capture rest i
  end.

(** [run r s pos caps k]: match [r] against the input [s] that starts at
    offset [pos], then continue with [k]; on failure of [k] the matcher
    backtracks into [r]. *)
Fixpoint run {A : Type} (r : regex) (s : list ascii) (pos : nat)
    (caps : Captures) (k : list ascii -> nat -> Captures -> option A)
  : option A :=
  match r with
  | Empty => k s pos caps
  | Char c =>
      match s with
      | d :: s' => if Ascii.eqb d c then k s' (S pos) caps else None
      | [] => None
      end
  | Class member =>
      match s with
      | d :: s' => if member d then k s' (S pos) caps else None
      | [] => None
      end
  | Seq r1 r2 =>
      run r1 s pos caps (fun s1 pos1 caps1 => run r2 s1 pos1 caps1 k)
  | Alt r1 r2 =>
      match run r1 s pos caps k with
      | Some a => Some a
      | None => run r2 s pos caps k
      end
  | Star r' =>
      (fix iterate (n : nat) (s : list ascii) (pos : nat) (caps : Captures)
         : option A :=
         match n with
         | O => k s pos caps
         | S n' =>
             match
               run r' s pos caps
                 (fun s1 pos1 caps1 =>
                    if Nat.ltb (List.length s1) (List.length s)
                    then iterate n' s1 pos1 caps1 else None)
             with
             | Some a => Some a
             | None => k s pos caps
             end
         end) (List.length s + 1) s pos caps
  | Group i r' =>
      run r' s pos caps
        (fun s1 pos1 caps1 =>
           k s1 pos1
             ((i, JsString.of_chars (firstn (pos1 - pos) s)) :: caps1))
  | Begin => if Nat.eqb pos 0 then k s pos caps else None
  | End_ => match s with [] => k s pos caps | _ => None end
  end.

Definition match_at (r : regex) (s : list ascii) (pos : nat)
  : option Captures :=
  run r s pos []
    (fun s1 pos1 caps1 =>
       Some ((0, JsString.of_chars (firstn (pos1 - pos) s)) :: caps1)).

Fixpoint search (r : regex) (n : nat) (s : list ascii) (pos : nat)
  : option Captures :=
  match match_at r s pos with
  | Some caps => Some caps
  | None =>
      match n, s with
      | S n', _ :: s' => search r n' s' (S pos)
      | _, _ => None
      end
  end.

(** [str.match(r)] for a pattern without the [g] flag: the captures of the
    leftmost match, group 0 being the whole match. *)
Definition exec (r : regex) (str : string) : option Captures :=
  search r (String.length str) (JsString.chars str) 0.

Definition test (r : regex) (str : string) : bool :=
  match exec r str with Some _ => true | None => false end.

(** The groups every match of a pattern sets. *)
Fixpoint mandatory (r : regex) : list nat :=
  match r with
  | Seq r1 r2 => (mandatory r1 ++ mandatory r2)%list
  | Group i r' => i :: mandatory r'
  | _ => []
  end.

Definition defines (caps : Captures) (i : nat) : Prop := capture caps i <> None.

Definition digit : regex := Class JsString.is_digit.
Definition word : regex := Class JsString.is_word.
Definition space : regex := Class JsString.is_space.
Definition not_char (c : ascii) : regex := Class (fun d => negb (Ascii.eqb d c)).

End Regex.

(** ** The renderer ([lib/renderer.ts]) *)

(** The callbacks of [RenderOptions]; the optional ones may be absent. *)
Record RenderOptions : Type := {
  selectedId : option string;
  editingId : option string;
  has_onTextEdit : bool;
  has_onStartEditing : bool;
  has_onStopEditing : bool
}.

(** What an event handler does: calls on the event and on the callbacks. *)
Inductive Call : Type :=
| StopPropagation
| PreventDefault
| OnSelect (ident : string)
| OnTextEdit (ident newText : string)
| OnStartEditing (ident : string)
| OnStopEditing.

(** The React elements [renderNode] creates.  Of the properties of an
    element, [onClick] and [onDoubleClick] are the two handler fields, and
    [attributes] holds the others. *)
Inductive View : Type :=
| ViewString (content : string)
| ViewEditableText (key initialText : string)
    (onSave : string -> list Call) (onCancel : list Call)
| ViewFragment (key : string) (content : list View)
| ViewElement (tag : string) (attributes : Obj)
    (onClick : list Call) (onDoubleClick : option (list Call))
    (content : option (list View)).

Definition validTags : list string :=
  [ "div"; "span"; "p"; "h1"; "h2"; "h3"; "h4"; "h5"; "h6";
    "a"; "button"; "input"; "textarea"; "select"; "option";
    "ul"; "ol"; "li"; "table"; "tr"; "td"; "th"; "thead"; "tbody";
    "form"; "label"; "img"; "video"; "audio"; "canvas";
    "header"; "footer"; "nav"; "main"; "section"; "article"; "aside";
    "strong"; "em"; "b"; "i"; "u"; "code"; "pre"; "blockquote";
    "br"; "hr"; "svg"; "path"; "circle"; "rect"; "line"; "polygon" ].

Definition getValidTagName (tag : string) : string :=
  let lowerTag := JsString.toLowerCase tag in
  if existsb (String.eqb lowerTag) validTags then lowerTag else "div".

Definition option_string_is (o : option string) (s : string) : bool :=
  match o with
  | Some v => String.eqb v s
  | None => false
  end.

(** The [onDoubleClick] handler [renderNode] gives an element: [None] when the
    property is [undefined]. *)
Definition onDoubleClick_of (node : EditorNode) (options : RenderOptions)
  : option (list Call) :=
  let textChild := find (fun c => NodeType_eqb (type c) text) (children node) in
  match textChild with
  | Some child =>
      Some (StopPropagation ::
            if has_onStartEditing options then [OnStartEditing (id child)] else [])
  | None => None
  end.

Fixpoint renderNode (node : EditorNode) (options : RenderOptions) : View :=
  match type node with
  | text =>
      if option_string_is (editingId options) (id node) && has_onTextEdit options
      then
        ViewEditableText (id node) (or_default (textContent node) "")
          (fun newText =>
             OnTextEdit (id node) newText ::
             if has_onStopEditing options then [OnStopEditing] else [])
          (if has_onStopEditing options then [OnStopEditing] else [])
      else ViewString (or_default (textContent node) "")
  | element =>
      if option_string_is (tagName node) "Fragment" then
        ViewFragment (id node)
          (map (fun child => renderNode child options) (children node))
      else
        let tag := getValidTagName (or_default (tagName node) "div") in
        let selected := option_string_is (selectedId options) (id node) in
        let style :=
          JsObject.set
            (JsObject.set
               (JsObject.set
                  (JsObject.spread (js_or (node_prop node "style") (VObj [])))
                  "cursor" (VStr "pointer"))
               "outline"
               (if selected then VStr "2px solid #3b82f6" else VUndefined))
            "outlineOffset" (if selected then VStr "2px" else VUndefined) in
        let attributes :=
          JsObject.set
            (JsObject.set
               (JsObject.set
                  (JsObject.without
                     (JsObject.without (JsObject.spread (VObj (props node)))
                        "onClick")
                     "onDoubleClick")
                  "key" (VStr (id node)))
               "data-editor-id" (VStr (id node)))
            "style" (VObj style) in
        let attributes :=
          match node_prop node "className" with
          | VStr className => JsObject.set attributes "className" (VStr className)
          | _ => attributes
          end in
        ViewElement tag attributes
          [StopPropagation; OnSelect (id node)]
          (onDoubleClick_of node options)
          (match children node with
           | [] => None
           | _ => Some (map (fun child => renderNode child options) (children node))
           end)
  end.

Definition extractStyleFromNode (node : EditorNode) : Obj :=
  JsObject.spread (js_or (node_prop node "style") (VObj [])).

(** *** Utility classes *)

(** The names every object literal inherits from [Object.prototype]. *)
Definition prototype_functions : list string :=
  [ "constructor"; "hasOwnProperty"; "isPrototypeOf"; "propertyIsEnumerable";
    "toLocaleString"; "toString"; "valueOf"; "__defineGetter__";
    "__defineSetter__"; "__lookupGetter__"; "__lookupSetter__" ].

(** A property read [table[k]] on an object literal of strings: an own entry,
    an inherited built-in, or [undefined]. *)
Definition literal_get (table : list (string * string)) (k : string) : JsVal :=
  match find (fun kv => String.eqb (fst kv) k) table with
  | Some kv => VStr (snd kv)
  | None =>
      if existsb (String.eqb k) prototype_functions then VFunction k
      else if String.eqb k "__proto__" then VObj []
      else VUndefined
  end.

Definition sizes : list (string * string) :=
  [ ("xs", "12px"); ("sm", "14px"); ("base", "16px"); ("lg", "18px");
    ("xl", "20px"); ("2xl", "24px"); ("3xl", "30px"); ("4xl", "36px");
    ("5xl", "48px"); ("6xl", "60px") ].

Definition size_keywords : list string :=
  [ "xs"; "sm"; "base"; "lg"; "xl"; "2xl"; "3xl"; "4xl"; "5xl"; "6xl" ].

Definition colorMap : list (string * string) :=
  [ ("white", "#ffffff"); ("black", "#000000");
    ("gray-100", "#f3f4f6"); ("gray-200", "#e5e7eb"); ("gray-300", "#d1d5db");
    ("gray-400", "#9ca3af"); ("gray-500", "#6b7280"); ("gray-600", "#4b5563");
    ("gray-700", "#374151"); ("gray-800", "#1f2937"); ("gray-900", "#111827");
    ("red-500", "#ef4444"); ("blue-500", "#3b82f6"); ("green-500", "#22c55e");
    ("yellow-500", "#eab308"); ("purple-500", "#a855f7"); ("pink-500", "#ec4899") ].

Module Patterns.
Import Regex.

Fixpoint alternatives (l : list string) : regex :=
  match l with
  | [] => Class (fun _ => false)
  | [s] => Lit s
  | s :: rest => Alt (Lit s) (alternatives rest)
  end.

(** [/^text-(xs|sm|base|lg|xl|2xl|3xl|4xl|5xl|6xl)$/] *)
Definition font_size : regex :=
  Seq Begin (Seq (Lit "text-") (Seq (Group 1 (alternatives size_keywords)) End_)).

(** [/^prefix-(\w+)(-\d+)?$/] *)
Definition color (prefix : string) : regex :=
  Seq Begin
    (Seq (Lit prefix)
       (Seq (Char "-")
          (Seq (Group 1 (Plus word))
             (Seq (Opt (Group 2 (Seq (Char "-") (Plus digit)))) End_)))).

(** [/^prefix-(\d+)$/] *)
Definition spacing (prefix : string) : regex :=
  Seq Begin (Seq (Lit prefix) (Seq (Char "-") (Seq (Group 1 (Plus digit)) End_))).

(** [/linear-gradient\(([^,]+),\s*([^,]+),\s*([^)]+)\)/] *)
Definition gradient : regex :=
  Seq (Lit "linear-gradient(")
    (Seq (Group 1 (Plus (not_char ",")))
       (Seq (Char ",")
          (Seq (Star space)
             (Seq (Group 2 (Plus (not_char ",")))
                (Seq (Char ",")
                   (Seq (Star space)
                      (Seq (Group 3 (Plus (not_char ")"))) (Char ")")))))))).

End Patterns.

(** [className.split(/\s+/)]: the pieces between the maximal runs of white
    space; a run at either end leaves an empty piece there. *)
Fixpoint split_spaces (l : list ascii) (piece : list ascii) (in_run : bool)
  : list string :=
  match l with
  | [] => [JsString.of_chars (rev piece)]
  | c :: l' =>
      if JsString.is_space c then
        if in_run then split_spaces l' [] true
        else JsString.of_chars (rev piece) :: split_spaces l' [] true
      else split_spaces l' (c :: piece) false
  end.

(** [str.replace(pattern, by)] for a string pattern: the first occurrence. *)
Fixpoint replace_first (pattern by_ str : string) : string :=
  if String.prefix pattern str then
    by_ ++ String.substring (String.length pattern) (String.length str) str
  else
    match str with
    | EmptyString => EmptyString
    | String c rest => String c (replace_first pattern by_ rest)
    end.

Definition split_whitespace (s : string) : list string :=
  split_spaces (JsString.chars s) [] false.

Section Renderer.

Context {host : Host}.

(** The text of [parseInt(digits) * factor]: the decimal numeral while the
    product stays below 2^53, where binary64 arithmetic on integers is exact
    and the number prints with all its digits; beyond, the rounding and the
    formatting of the host. *)
Definition times (digits : string) (factor : N) : string :=
  let product := (JsString.to_N digits * factor)%N in
  if N.ltb product 9007199254740992 then JsString.of_N product
  else parseInt_times digits factor.

Definition set_when (cond : bool) (k : string) (v : string) (styles : Obj) : Obj :=
  if cond then JsObject.set styles k (VStr v) else styles.

Definition color_rule (prefix target : string) (excluded : list string)
    (cls : string) (styles : Obj) : Obj :=
  match Regex.exec (Patterns.color prefix) cls with
  | Some m =>
      match Regex.capture m 1 with
      | Some name =>
          if existsb (String.eqb name) excluded then styles
          else
            let colorKey :=
              match Regex.capture m 2 with
              | Some shade => if String.eqb shade "" then name else name ++ shade
              | None => name
              end in
            let found := literal_get colorMap colorKey in
            if truthy found then JsObject.set styles target found else styles
      | None => styles
      end
  | None => styles
  end.

Definition spacing_rule (prefix : string) (targets : list string)
    (cls : string) (styles : Obj) : Obj :=
  match Regex.exec (Patterns.spacing prefix) cls with
  | Some m =>
      match Regex.capture m 1 with
      | Some digits =>
          fold_left
            (fun acc target =>
               JsObject.set acc target (VStr (times digits 4 ++ "px")))
            targets styles
      | None => styles
      end
  | None => styles
  end.

Definition font_size_rule (cls : string) (styles : Obj) : Obj :=
  if Regex.test Patterns.font_size cls then
    let size := replace_first "text-" "" cls in
    JsObject.set styles "fontSize" (js_or (literal_get sizes size) (VStr "16px"))
  else styles.

(** The body of the loop of [getComputedStylesFromClassName], statement by
    statement. *)
Definition class_step (styles : Obj) (cls : string) : Obj :=
  let cls_is := String.eqb cls in
  let styles := font_size_rule cls styles in
  let styles := set_when (cls_is "font-bold") "fontWeight" "bold" styles in
  let styles := set_when (cls_is "font-semibold") "fontWeight" "600" styles in
  let styles := set_when (cls_is "font-medium") "fontWeight" "500" styles in
  let styles := set_when (cls_is "font-normal") "fontWeight" "normal" styles in
  let styles := set_when (cls_is "font-light") "fontWeight" "300" styles in
  let styles := color_rule "text" "color" size_keywords cls styles in
  let styles := color_rule "bg" "backgroundColor" [] cls styles in
  let styles := spacing_rule "p" ["padding"] cls styles in
  let styles := spacing_rule "px" ["paddingLeft"; "paddingRight"] cls styles in
  let styles := spacing_rule "py" ["paddingTop"; "paddingBottom"] cls styles in
  let styles := spacing_rule "m" ["margin"] cls styles in
  let styles := spacing_rule "mx" ["marginLeft"; "marginRight"] cls styles in
  let styles := spacing_rule "my" ["marginTop"; "marginBottom"] cls styles in
  let styles := set_when (cls_is "rounded") "borderRadius" "4px" styles in
  let styles := set_when (cls_is "rounded-lg") "borderRadius" "8px" styles in
  let styles := set_when (cls_is "rounded-full") "borderRadius" "9999px" styles in
  let styles := set_when (cls_is "flex") "display" "flex" styles in
  let styles := set_when (cls_is "flex-col") "flexDirection" "column" styles in
  let styles := set_when (cls_is "items-center") "alignItems" "center" styles in
  let styles := set_when (cls_is "justify-center") "justifyContent" "center" styles in
  let styles := set_when (cls_is "gap-2") "gap" "8px" styles in
  let styles := set_when (cls_is "gap-4") "gap" "16px" styles in
  styles.

Definition getComputedStylesFromClassName (className : string) : Obj :=
  fold_left class_step (split_whitespace className) [].

End Renderer.

(** ** The property panel ([components/PropertyPanel.tsx]) *)

Inductive BackgroundType : Type := solid | gradient.

Record PanelState : Type := {
  localStyle : Obj;
  localText : string;
  backgroundType : BackgroundType;
  gradientFrom : string;
  gradientTo : string;
  gradientDirection : string
}.

Section PropertyPanel.

Context {host : Host}.

Definition classStyles (node : EditorNode) : Obj :=
  match node_prop node "className" with
  | VStr className => getComputedStylesFromClassName className
  | _ => []
  end.

(** [{ ...classStyles, ...inlineStyles }] *)
Definition mergedStyles (node : EditorNode) : Obj :=
  JsObject.assign (JsObject.spread (VObj (classStyles node)))
    (extractStyleFromNode node).

Definition capture_or_empty (m : Regex.Captures) (i : nat) : string :=
  match Regex.capture m i with
  | Some s => s
  | None => ""
  end.

(** The background detection of the selection effect.  A truthy
    [backgroundImage] that is not a string has no [includes] method, and the
    call throws (an object that carries a member of that name of its own is
    not modelled; neither the parser nor the panel builds one). *)
Definition detect_background (inlineStyles merged : Obj) (st : PanelState)
  : Result PanelState :=
  match js_or (prop inlineStyles "backgroundImage") (VStr "") with
  | VStr bgImage =>
      if JsString.includes bgImage "linear-gradient" then
        match Regex.exec Patterns.gradient bgImage with
        | Some m =>
            Ok {| localStyle := localStyle st; localText := localText st;
                  backgroundType := gradient;
                  gradientFrom := JsString.trim (capture_or_empty m 2);
                  gradientTo := JsString.trim (capture_or_empty m 3);
                  gradientDirection := capture_or_empty m 1 |}
        | None =>
            Ok {| localStyle := localStyle st; localText := localText st;
                  backgroundType := gradient;
                  gradientFrom := gradientFrom st;
                  gradientTo := gradientTo st;
                  gradientDirection := gradientDirection st |}
        end
      else if truthy (prop merged "backgroundColor") then
        Ok {| localStyle := localStyle st; localText := localText st;
              backgroundType := solid;
              gradientFrom := gradientFrom st;
              gradientTo := gradientTo st;
              gradientDirection := gradientDirection st |}
      else Ok st
  | _ => Throw "bgImage.includes is not a function"
  end.

Definition selected_text (node : EditorNode) : string :=
  match type node with
  | text => or_default (textContent node) ""
  | element =>
      match find (fun c => NodeType_eqb (type c) text) (children node) with
      | Some textChild => or_default (textContent textChild) ""
      | None => ""
      end
  end.

(** The effect of [PropertyPanel] that runs when [selectedNode] changes. *)
Definition selection_effect (selectedNode : option EditorNode) (st : PanelState)
  : Result PanelState :=
  match selectedNode with
  | Some node =>
      let inlineStyles := extractStyleFromNode node in
      let merged := mergedStyles node in
      let st1 :=
        {| localStyle := merged; localText := localText st;
           backgroundType := backgroundType st;
           gradientFrom := gradientFrom st; gradientTo := gradientTo st;
           gradientDirection := gradientDirection st |} in
      match detect_background inlineStyles merged st1 with
      | Ok st2 =>
          Ok {| localStyle := localStyle st2;
                localText := selected_text node;
                backgroundType := backgroundType st2;
                gradientFrom := gradientFrom st2;
                gradientTo := gradientTo st2;
                gradientDirection := gradientDirection st2 |}
      | Throw message => Throw message
      end
  | None =>
      Ok {| localStyle := []; localText := "";
            backgroundType := backgroundType st;
            gradientFrom := gradientFrom st; gradientTo := gradientTo st;
            gradientDirection := gradientDirection st |}
  end.

End PropertyPanel.

(** ** The editor ([components/WebsiteEditor.tsx]) *)

Module Editor.

Record State : Type := {
  ast : option EditorNode;
  parseError : option string;
  selected : option string;
  isVisualEdit : bool;
  ids_drawn : nat
}.

(** The branch of the parse effect that ran. *)
Inductive Branch : Type :=
| SkippedVisualEdit
| InstalledTree
| ReportedInvalid
| ClearedTree
| CaughtException.

Definition invalid_message : string :=
  "Invalid JSX. Paste static JSX only (no functions, hooks, or imports).".

Section Effect.

Context {host : Host}.

(** The effect that parses [code] into the tree. *)
Definition parse_effect (code : string) (st : State) : State * Branch :=
  if isVisualEdit st then
    ({| ast := ast st; parseError := parseError st; selected := selected st;
        isVisualEdit := false; ids_drawn := ids_drawn st |},
     SkippedVisualEdit)
  else
    match parseJSX code (ids_drawn st) with
    | (Ok (Some parsed), k) =>
        ({| ast := Some parsed; parseError := None; selected := None;
            isVisualEdit := false; ids_drawn := k |}, InstalledTree)
    | (Ok None, k) =>
        if negb (String.eqb (JsString.trim code) "") then
          ({| ast := ast st; parseError := Some invalid_message;
              selected := selected st; isVisualEdit := false;
              ids_drawn := k |}, ReportedInvalid)
        else
          ({| ast := None; parseError := None; selected := selected st;
              isVisualEdit := false; ids_drawn := k |}, ClearedTree)
    | (Throw message, k) =>
        ({| ast := ast st; parseError := Some ("Parse error: " ++ message);
            selected := selected st; isVisualEdit := false;
            ids_drawn := k |}, CaughtException)
    end.

End Effect.

End Editor.

(** ** Notions the properties are stated with *)

(** The tree with every id blanked: what two trees share when they are equal
    up to ids. *)
Fixpoint erase_ids (n : EditorNode) : EditorNode :=
  {| id := ""; type := type n; tagName := tagName n; props := props n;
     props_prototype := props_prototype n;
     children := map erase_ids (children n); textContent := textContent n;
     originalSource := originalSource n |}.

Definition struct_eq (a b : EditorNode) : Prop := erase_ids a = erase_ids b.

Definition is_element_or_fragment (n : JSXNode) : bool :=
  match n with
  | JSXElement _ _ _ | JSXFragment _ => true
  | _ => false
  end.

(** The front end reads [code] as a program whose first statement is the JSX
    element or fragment [root]. *)
Definition reads_as {host : Host} (code : string) (root : JSXNode) : Prop :=
  is_element_or_fragment root = true
  /\ exists file rest,
       parser_parse (JsString.trim code) = Ok file
       /\ traverse file = TraceEnter root ParentExpressionStatement rest.

Definition key_before (k1 k2 : string) : bool :=
  match JsObject.array_index k1, JsObject.array_index k2 with
  | Some i, Some j => N.ltb i j
  | Some _, None => true
  | None, Some _ => false
  | None, None => true
  end.

(** The lists that are objects: no key twice, keys in property order. *)
Fixpoint canonical (o : Obj) : bool :=
  match o with
  | [] => true
  | (k, _) :: o' =>
      forallb (fun kv => negb (String.eqb k (fst kv)) && key_before k (fst kv)) o'
      && canonical o'
  end.

(** A [style] the empty update leaves as the serializer sees it.  An own
    [style] property is a mapping, or a value the serializer omits
    ([undefined], [null], [false], a function); not a string, a number or
    [true].  Where the node has no own [style] property and reads one from
    the prototype of its properties, that one is neither a string with
    characters nor an object with properties, which the update would copy
    into an own [style]. *)
Definition style_is_mapping_or_omitted (n : EditorNode) : bool :=
  match JsObject.get (props n) "style" with
  | Some (VObj style) => canonical style
  | Some (VStr _) | Some (VNum _) | Some (VBool true) => false
  | Some _ => true
  | None =>
      match props_prototype n with
      | Some inherited =>
          match JsObject.get inherited "style" with
          | Some (VStr s) => String.eqb s ""
          | Some (VObj []) => true
          | Some (VObj _) => false
          | _ => true
          end
      | None => true
      end
  end.

Fixpoint styles_are_mappings (n : EditorNode) : bool :=
  canonical (props n) && style_is_mapping_or_omitted n
  && forallb styles_are_mappings (children n).

Definition text_children (n : EditorNode) : list EditorNode :=
  filter (fun c => NodeType_eqb (type c) text) (children n).

Definition view_onDoubleClick (v : View) : option (list Call) :=
  match v with
  | ViewElement _ _ _ handler _ => handler
  | _ => None
  end.


(** [trim] on the list of code units. *)
Definition trim_chars (l : list ascii) : list ascii :=
  rev (JsString.drop_spaces (rev (JsString.drop_spaces l))).

(** The children [convertChildren] does not skip for being blank text. *)
Definition is_kept (child : JSXNode) : bool :=
  match child with
  | JSXText value => negb (String.eqb (JsString.trim value) "")
  | _ => true
  end.

(** A JSX expression without the white space the conversion ignores: text
    children are trimmed, and the blank ones are left out. *)
Fixpoint normalize (n : JSXNode) : JSXNode :=
  match n with
  | JSXElement name attributes cs =>
      JSXElement name attributes (filter is_kept (map normalize cs))
  | JSXFragment cs => JSXFragment (filter is_kept (map normalize cs))
  | JSXText value => JSXText (JsString.trim value)
  | _ => n
  end.

Section Notions.

Context {host : Host}.

(** The ids the calls number [k] to [k' - 1] of [uuidv4] return. *)
Definition drawn (k k' : nat) : list string := map uuidv4 (seq k (k' - k)).

Definition draws_its_ids (child : JSXNode) : Prop :=
  forall k,
    k <= snd (convertChild child k)
    /\ Permutation (flat_map node_ids (fst (convertChild child k)))
         (drawn k (snd (convertChild child k))).

Definition same_up_to_ids (child : JSXNode) : Prop :=
  forall k k',
    map erase_ids (fst (convertChild child k))
    = map erase_ids (fst (convertChild child k')).

(** The tree [parseJSX] builds from the first JSX expression. *)
Definition root_tree (root : JSXNode) (k : nat) : option EditorNode * nat :=
  match root with
  | JSXElement name attributes cs =>
      (Some (fst (convertJSXElement name attributes cs k)),
       snd (convertJSXElement name attributes cs k))
  | JSXFragment cs =>
      (Some (fst (convertJSXFragment cs k)), snd (convertJSXFragment cs k))
  | _ => (None, k)
  end.

(** Two nodes the serializer cannot tell apart, alone or as children. *)
Definition same_markup (a b : EditorNode) : Prop :=
  type a = type b
  /\ textContent a = textContent b
  /\ forall indent, serializeToJSX a indent = serializeToJSX b indent.

(** What one property adds to the parts of [serializeProps]. *)
Definition prop_part (kv : string * JsVal) : list string :=
  let (key, value) := kv in
  match value with
  | VUndefined | VNull => []
  | _ =>
      match String.eqb key "style", value with
      | true, VObj style =>
          let styleStr := serializeStyle style in
          if String.eqb styleStr "" then []
          else ["style={" ++ styleStr ++ "}"]
      | _, VStr s => [key ++ "=" ++ DQ ++ escapeString s ++ DQ]
      | _, VBool b => if b then [key] else []
      | _, VNum n => [key ++ "={" ++ Number_toString n ++ "}"]
      | _, VObj _ => [key ++ "={" ++ JSON_stringify value ++ "}"]
      | _, _ => []
      end
  end.

Definition wrap_parts (parts : list string) : string :=
  match parts with
  | [] => ""
  | _ => " " ++ JsString.join " " parts
  end.

End Notions.

(** ** The claims that fail, as the specification words them *)




(** C9: a background image that contains a gradient the pattern does not
    match leaves the panel treating the background as solid. *)
Definition malformed_gradient_claim : Prop :=
  forall (host : Host) (node : EditorNode) (st : PanelState) (bg : string),
    prop (extractStyleFromNode node) "backgroundImage" = VStr bg ->
    JsString.includes bg "linear-gradient" = true ->
    Regex.exec Patterns.gradient bg = None ->
    exists st',
      selection_effect (Some node) st = Ok st' /\ backgroundType st' = solid.

(** C8: the empty style update never changes the markup. *)
Definition empty_update_claim : Prop :=
  forall (host : Host) (tree : EditorNode) (ident : string),
    serializeToJSX (updateNodeStyle tree ident []) 0 = serializeToJSX tree 0.

(** ** Sample data *)

Module Sample.

Definition quasi_markup : string := "<div>Hi</div>".

Definition quasi_ast : JSXNode :=
  JSXElement (JSXIdentifier "div") [] [JSXText "Hi"].

Definition nested_markup : string := "<div><p>Hi</p></div>".

Definition nested_ast : JSXNode :=
  JSXElement (JSXIdentifier "div") []
    [JSXElement (JSXIdentifier "p") [] [JSXText "Hi"]].

(** The markup the serializer prints for [nested_markup], one child per line,
    and the expression Babel reads in it. *)
Definition nested_pretty : string :=
  "<div>" ++ LF ++ "  <p>Hi</p>" ++ LF ++ "</div>".

Definition nested_pretty_ast : JSXNode :=
  JSXElement (JSXIdentifier "div") []
    [JSXText (LF ++ "  ");
     JSXElement (JSXIdentifier "p") [] [JSXText "Hi"];
     JSXText LF].

(** A host with the simplest built-ins; its front end knows three texts and
    rejects every other. *)
#[local] Instance host : Host := {|
  Number_toString := fun _ => "0";
  Function_toString := fun name => "function " ++ name ++ "() { [native code] }";
  JSON_stringify := fun _ => "{}";
  parseInt_times := fun _ _ => "Infinity";
  uuidv4 := fun k => "node-" ++ JsString.of_nat k;
  File := JSXNode;
  parser_parse := fun code =>
    if String.eqb code quasi_markup then Ok quasi_ast
    else if String.eqb code nested_markup then Ok nested_ast
    else if String.eqb code nested_pretty then Ok nested_pretty_ast
    else Throw "Unexpected token";
  traverse := fun file => TraceEnter file ParentExpressionStatement TraceEnd
|}.

Definition options : RenderOptions :=
  {| selectedId := None; editingId := None; has_onTextEdit := true;
     has_onStartEditing := true; has_onStopEditing := true |}.

Definition plain (ident content : string) : EditorNode :=
  {| id := ident; type := text; tagName := None; props := [];
     props_prototype := None;
     children := []; textContent := Some content; originalSource := None |}.

Definition elem (ident tag : string) (p : Obj) (cs : list EditorNode)
  : EditorNode :=
  {| id := ident; type := element; tagName := Some tag; props := p;
     props_prototype := None;
     children := cs; textContent := None; originalSource := None |}.


(** [<div className="bg-blue-500" style={{ backgroundColor: "#fff" }} />] *)
Definition styled_div : EditorNode :=
  elem "n1" "div"
    [("className", VStr "bg-blue-500");
     ("style", VObj [("backgroundColor", VStr "#fff")])] [].

(** [<p>Hello <b>big</b> world</p>] *)
Definition two_texts : EditorNode :=
  elem "p1" "p" []
    [plain "t1" "Hello"; elem "b1" "b" [] [plain "t2" "big"]; plain "t3" "world"].

(** [<div style="color: red" />] *)
Definition string_style : EditorNode :=
  elem "n1" "div" [("style", VStr "color: red")] [].

(** [<div style={{ backgroundImage: "linear-gradient(red)" }} />] *)
Definition malformed_gradient : EditorNode :=
  elem "n1" "div"
    [("style", VObj [("backgroundImage", VStr "linear-gradient(red)")])] [].

(** [<div style={{ backgroundImage: "linear-gradient(to right, #8b5cf6, #3b82f6)" }} />] *)
Definition two_stop_gradient : EditorNode :=
  elem "n1" "div"
    [("style",
      VObj [("backgroundImage",
             VStr "linear-gradient(to right, #8b5cf6, #3b82f6)")])] [].

Definition panel : PanelState :=
  {| localStyle := []; localText := ""; backgroundType := solid;
     gradientFrom := "#8b5cf6"; gradientTo := "#3b82f6";
     gradientDirection := "to right" |}.

Definition editor : Editor.State :=
  {| Editor.ast := None; Editor.parseError := None; Editor.selected := None;
     Editor.isVisualEdit := false; Editor.ids_drawn := 0 |}.

(** [<div disabled={false} />] and [<div />] as Babel reads them. *)
Definition disabled_false_ast : JSXNode :=
  JSXElement (JSXIdentifier "div")
    [JSXAttribute (AttrIdentifier "disabled")
       (AttrExpressionContainer (BooleanLiteral false))] [].

Definition bare_div_ast : JSXNode := JSXElement (JSXIdentifier "div") [] [].

(** [<div __proto__={{ style: "ab" }} />] as Babel reads it, and the tree the
    parser builds from it: no own property, and the object as prototype. *)
Definition proto_style_ast : JSXNode :=
  JSXElement (JSXIdentifier "div")
    [JSXAttribute (AttrIdentifier "__proto__")
       (AttrExpressionContainer
          (ObjectExpression
             [ObjectProperty (KeyIdentifier "style") (StringLiteral "ab")]))] [].

Definition inherited_style : EditorNode :=
  {| id := "node-0"; type := element; tagName := Some "div"; props := [];
     props_prototype := Some [("style", VStr "ab")];
     children := []; textContent := None; originalSource := None |}.

(** Two text children side by side. *)
Definition adjacent_texts : EditorNode :=
  elem "d" "div" [] [plain "a" "a"; plain "b" "b"].

End Sample.

(** ** More of the sources *)

(** *** [lib/parser.ts]: [updateNodeById] *)

(** [Partial<EditorNode>]: each field is [None] when the update does not name
    it.  An optional field may be named with the value [undefined] (the inner
    [None]); an update that names a required field with [undefined] would
    leave the type [EditorNode] and has no counterpart here. *)
Record PartialNode : Type := {
  set_id : option string;
  set_type : option NodeType;
  set_tagName : option (option string);
  set_props : option (Obj * option Obj);
  set_children : option (list EditorNode);
  set_textContent : option (option string);
  set_originalSource : option (option string)
}.

Definition or_kept {A : Type} (update : option A) (current : A) : A :=
  match update with
  | Some v => v
  | None => current
  end.

(** [{ ...root, ...updates }] *)
Definition merge_node (root : EditorNode) (updates : PartialNode) : EditorNode :=
  {| id := or_kept (set_id updates) (id root);
     type := or_kept (set_type updates) (type root);
     tagName := or_kept (set_tagName updates) (tagName root);
     props := fst (or_kept (set_props updates) (props root, props_prototype root));
     props_prototype :=
       snd (or_kept (set_props updates) (props root, props_prototype root));
     children := or_kept (set_children updates) (children root);
     textContent := or_kept (set_textContent updates) (textContent root);
     originalSource := or_kept (set_originalSource updates) (originalSource root) |}.

Fixpoint updateNodeById (root : EditorNode) (ident : string)
    (updates : PartialNode) : EditorNode :=
  if String.eqb (id root) ident then merge_node root updates
  else
    with_children root
      (map (fun child => updateNodeById child ident updates) (children root)).

(** The update [{ textContent }]. *)
Definition only_textContent (content : string) : PartialNode :=
  {| set_id := None; set_type := None; set_tagName := None; set_props := None;
     set_children := None; set_textContent := Some (Some content);
     set_originalSource := None |}.

(** The nodes of a tree in document order, root first. *)
Fixpoint nodes (n : EditorNode) : list EditorNode :=
  n :: flat_map nodes (children n).

(** The tree without its properties, and without its texts. *)
Fixpoint without_props (n : EditorNode) : EditorNode :=
  {| id := id n; type := type n; tagName := tagName n; props := [];
     props_prototype := None;
     children := map without_props (children n);
     textContent := textContent n; originalSource := originalSource n |}.

Fixpoint without_text (n : EditorNode) : EditorNode :=
  {| id := id n; type := type n; tagName := tagName n; props := props n;
     props_prototype := props_prototype n;
     children := map without_text (children n);
     textContent := None; originalSource := originalSource n |}.

(** *** [db/database.ts] *)

Module Database.

Record ComponentRow : Type := {
  id : string;
  name : string;
  code : string;
  created_at : string;
  updated_at : string
}.

(** The file [components.json]: [None] while it is missing or does not
    parse. *)
Definition Store : Type := option (list ComponentRow).

Definition loadDb (store : Store) : list ComponentRow :=
  match store with
  | Some components => components
  | None => []
  end.

Definition saveDb (components : list ComponentRow) : Store := Some components.

(** [now] is the text of [new Date().toISOString()] at the call; an omitted
    [name] takes the default. *)
Definition createComponent (ident code_ : string) (name_ : option string)
    (now : string) (store : Store) : ComponentRow * Store :=
  let db := loadDb store in
  let component :=
    {| id := ident;
       name := match name_ with Some n => n | None => "Untitled Component" end;
       code := code_; created_at := now; updated_at := now |} in
  (component, saveDb (List.app db [component])).

Definition getComponent (ident : string) (store : Store) : option ComponentRow :=
  find (fun c => String.eqb (id c) ident) (loadDb store).

(** The row with the fields [updateComponent] assigns. *)
Definition updated_row (component : ComponentRow) (code_ : string)
    (name_ : option string) (now : string) : ComponentRow :=
  {| id := id component;
     name := match name_ with Some n => n | None => name component end;
     code := code_; created_at := created_at component; updated_at := now |}.

(** The rows after the assignment to the first row carrying the id; [None]
    when [findIndex] returns [-1]. *)
Fixpoint update_first (ident code_ : string) (name_ : option string)
    (now : string) (components : list ComponentRow)
  : option (ComponentRow * list ComponentRow) :=
  match components with
  | [] => None
  | c :: rest =>
      if String.eqb (id c) ident then
        Some (updated_row c code_ name_ now, updated_row c code_ name_ now :: rest)
      else
        match update_first ident code_ name_ now rest with
        | Some (row, rest') => Some (row, c :: rest')
        | None => None
        end
  end.

Definition updateComponent (ident code_ : string) (name_ : option string)
    (now : string) (store : Store) : option ComponentRow * Store :=
  match update_first ident code_ name_ now (loadDb store) with
  | Some (component, components) => (Some component, saveDb components)
  | None => (None, store)
  end.

(** [components.splice(index, 1)] at the first row carrying the id. *)
Fixpoint remove_first (ident : string) (components : list ComponentRow)
  : option (list ComponentRow) :=
  match components with
  | [] => None
  | c :: rest =>
      if String.eqb (id c) ident then Some rest
      else
        match remove_first ident rest with
        | Some rest' => Some (c :: rest')
        | None => None
        end
  end.

Definition deleteComponent (ident : string) (store : Store) : bool * Store :=
  match remove_first ident (loadDb store) with
  | Some components => (true, saveDb components)
  | None => (false, store)
  end.

End Database.

(** *** The routes of the backend ([routes/components.ts])

    The handlers that create, read, update and delete one component.  A
    handler takes the request and the store and gives the reply and the store
    after it.  Each handler runs in a [try] block whose [catch] answers 500:
    a call into [db/database.ts] returns what the functions of [Database]
    compute, or it throws (the file cannot be written, or holds JSON of
    another shape) and leaves the file as it was. *)

Module Routes.

(** What a handler reads of the JSON body: [code], any JSON value or
    [undefined], and [name], a string or [undefined]. *)
Record Body : Type := {
  body_code : JsVal;
  body_name : option string
}.

(** [res.status(n).json(row)] with the fields of the row, [res.status(n)
    .json({ error })], and [res.status(204).send()]. *)
Inductive Reply : Type :=
| Json (status : nat) (row : Database.ComponentRow)
| Error (status : nat) (message : string)
| NoContent.

Definition code_required : string := "Code is required and must be a string".
Definition not_found : string := "Component not found".
Definition create_failed : string := "Failed to create component".
Definition get_failed : string := "Failed to get component".
Definition update_failed : string := "Failed to update component".
Definition delete_failed : string := "Failed to delete component".

(** The code that passes [!code || typeof code !== 'string']. *)
Definition valid_code (code_ : JsVal) : option string :=
  match code_ with
  | VStr s => if truthy (VStr s) then Some s else None
  | _ => None
  end.

(** The calls of the handlers into [db/database.ts]. *)
Inductive DbCall : Type := CallCreate | CallGet | CallUpdate | CallDelete.

(** A call into the database: [throws] tells the calls that end in an
    exception; the others return [result].  A call that throws is taken to
    have written nothing. *)
Definition attempt {A : Type} (throws : DbCall -> bool) (call : DbCall)
    (result : A) : Result A :=
  if throws call then Throw "database" else Ok result.

(** [POST /component]; [ident] is what [uuidv4()] returns when it is
    called, [now] the time of the call. *)
Definition post (throws : DbCall -> bool) (body : Body) (ident now : string)
    (store : Database.Store) : Reply * Database.Store :=
  match valid_code (body_code body) with
  | None => (Error 400 code_required, store)
  | Some code_ =>
      match
        attempt throws CallCreate
          (Database.createComponent ident code_ (body_name body) now store)
      with
      | Ok (component, store') => (Json 201 component, store')
      | Throw _ => (Error 500 create_failed, store)
      end
  end.

(** [GET /component/:id] *)
Definition get (throws : DbCall -> bool) (ident : string)
    (store : Database.Store) : Reply :=
  match attempt throws CallGet (Database.getComponent ident store) with
  | Ok None => Error 404 not_found
  | Ok (Some component) => Json 200 component
  | Throw _ => Error 500 get_failed
  end.

(** [PUT /component/:id] *)
Definition put (throws : DbCall -> bool) (ident : string) (body : Body)
    (now : string) (store : Database.Store) : Reply * Database.Store :=
  match valid_code (body_code body) with
  | None => (Error 400 code_required, store)
  | Some code_ =>
      match attempt throws CallGet (Database.getComponent ident store) with
      | Ok None => (Error 404 not_found, store)
      | Ok (Some _) =>
          match
            attempt throws CallUpdate
              (Database.updateComponent ident code_ (body_name body) now store)
          with
          | Ok (None, store') => (Error 500 update_failed, store')
          | Ok (Some component, store') => (Json 200 component, store')
          | Throw _ => (Error 500 update_failed, store)
          end
      | Throw _ => (Error 500 update_failed, store)
      end
  end.

(** [DELETE /component/:id] *)
Definition delete (throws : DbCall -> bool) (ident : string)
    (store : Database.Store) : Reply * Database.Store :=
  match attempt throws CallDelete (Database.deleteComponent ident store) with
  | Ok (false, store') => (Error 404 not_found, store')
  | Ok (true, store') => (NoContent, store')
  | Throw _ => (Error 500 delete_failed, store)
  end.

End Routes.

(** *** [lib/api.ts]: [debounce] *)

Module Debounce.

(** What happens to a debounced function: a call with its arguments, or the
    passing of some milliseconds during which it is not called. *)
Inductive Event (A : Type) : Type :=
| Invoke (args : A)
| Elapse (ms : nat).
Arguments Invoke {A} args.
Arguments Elapse {A} ms.

(** The timer [timeoutId] stands for: the arguments of the pending call and
    the milliseconds left before it runs. *)
Definition Timer (A : Type) : Type := option (A * nat).

(** One event: a call clears the timer and sets it anew; time that passes
    runs [fn] once the delay has elapsed.  The calls of [fn] are collected in
    order. *)
Definition step {A : Type} (delay : nat) (state : Timer A * list A)
    (event : Event A) : Timer A * list A :=
  let (timer, calls) := state in
  match event with
  | Invoke args => (Some (args, delay), calls)
  | Elapse ms =>
      match timer with
      | Some (args, remaining) =>
          if Nat.leb remaining ms then (None, List.app calls [args])
          else (Some (args, remaining - ms), calls)
      | None => (None, calls)
      end
  end.

Definition run {A : Type} (delay : nat) (events : list (Event A))
  : Timer A * list A :=
  fold_left (step delay) events (None, []).

(** The calls of [fn] a history of events leads to. *)
Definition emitted {A : Type} (delay : nat) (events : list (Event A)) : list A :=
  snd (run delay events).

Definition invoked {A : Type} (events : list (Event A)) : list A :=
  flat_map (fun e => match e with Invoke args => [args] | Elapse _ => [] end)
    events.

(** Calls that follow one another, each after a pause. *)
Definition burst {A : Type} (calls : list (nat * A)) : list (Event A) :=
  flat_map (fun c => [Elapse (fst c); Invoke (snd c)]) calls.

(** The pending call and the calls made, taken together, count no more than
    the calls received, and each of them was received. *)
Definition accounted {A : Type} (state : Timer A * list A) (seen : list A)
  : Prop :=
  List.length (snd state)
  + match fst state with Some _ => 1 | None => 0 end <= List.length seen
  /\ (forall x, In x (snd state) -> In x seen)
  /\ (forall x remaining, fst state = Some (x, remaining) -> In x seen).

End Debounce.

(** *** [lib/serializer.ts]: [formatJSX], and [escapeString] unit by unit *)

Definition formatJSX (code : string) : string := JsString.trim code.

(** What [escapeString] makes of one code unit. *)
Definition escape_unit (c : ascii) : string :=
  if Ascii.eqb c "\"%char then "\\"
  else if Ascii.eqb c (ascii_of_nat 34) then "\" ++ DQ
  else if Ascii.eqb c (ascii_of_nat 10) then "\n"
  else String c EmptyString.

(** *** [lib/renderer.ts]: the elements of a view, [EditableText] *)

(** The elements of a view, the nested ones included. *)
Fixpoint view_elements (v : View) : list View :=
  match v with
  | ViewElement _ _ _ _ content =>
      v :: match content with
           | Some l => flat_map view_elements l
           | None => []
           end
  | ViewFragment _ l => flat_map view_elements l
  | _ => []
  end.

Definition view_tag (v : View) : string :=
  match v with
  | ViewElement tag _ _ _ _ => tag
  | _ => ""
  end.

Definition view_attributes (v : View) : Obj :=
  match v with
  | ViewElement _ attributes _ _ _ => attributes
  | _ => []
  end.

Definition view_onClick (v : View) : list Call :=
  match v with
  | ViewElement _ _ onClick _ _ => onClick
  | _ => []
  end.

(** The handlers of the input of [EditableText], [text] being the state the
    input holds: [handleKeyDown] for the key [e.key], and [onBlur]. *)
Definition handleKeyDown (onSave : string -> list Call) (onCancel : list Call)
    (text : string) (key : string) : list Call :=
  if String.eqb key "Enter" then PreventDefault :: onSave text
  else if String.eqb key "Escape" then onCancel
  else [].

Definition onBlur (onSave : string -> list Call) (text : string) : list Call :=
  onSave text.

(** The style properties [getComputedStylesFromClassName] assigns. *)
Definition style_properties : list string :=
  [ "fontSize"; "fontWeight"; "color"; "backgroundColor";
    "padding"; "paddingLeft"; "paddingRight"; "paddingTop"; "paddingBottom";
    "margin"; "marginLeft"; "marginRight"; "marginTop"; "marginBottom";
    "borderRadius"; "display"; "flexDirection"; "alignItems";
    "justifyContent"; "gap" ].

(** The tokens the rules of [getComputedStylesFromClassName] can match: a
    token that starts with one of these prefixes, or is one of these
    keyword classes. *)
Definition class_prefixes : list string :=
  [ "text-"; "bg-"; "p-"; "px-"; "py-"; "m-"; "mx-"; "my-" ].

Definition class_keywords : list string :=
  [ "font-bold"; "font-semibold"; "font-medium"; "font-normal"; "font-light";
    "rounded"; "rounded-lg"; "rounded-full";
    "flex"; "flex-col"; "items-center"; "justify-center"; "gap-2"; "gap-4" ].

Definition recognised (cls : string) : bool :=
  existsb (fun p => String.prefix p cls) class_prefixes
  || existsb (String.eqb cls) class_keywords.

(** The keys of [o] are style properties of the table. *)
Definition listed (o : Obj) : Prop :=
  forall x, In x (JsObject.keys o) -> In x style_properties.

(** The spacing classes and the properties each sets. *)
Definition spacing_classes : list (string * list string) :=
  [ ("p", ["padding"]); ("px", ["paddingLeft"; "paddingRight"]);
    ("py", ["paddingTop"; "paddingBottom"]);
    ("m", ["margin"]); ("mx", ["marginLeft"; "marginRight"]);
    ("my", ["marginTop"; "marginBottom"]) ].

(** *** The trees the parser builds *)

Definition is_primitive (v : JsVal) : bool :=
  match v with
  | VStr _ | VNum _ | VBool _ => true
  | _ => false
  end.

(** The attribute values [extractProps] stores: a string, a number, a
    boolean, or an object of such. *)
Definition is_attribute_value (v : JsVal) : bool :=
  match v with
  | VObj o => canonical o && forallb (fun kv => is_primitive (snd kv)) o
  | _ => is_primitive v
  end.

Fixpoint parsed_shape (n : EditorNode) : bool :=
  match type n with
  | text =>
      match children n, props n, props_prototype n, tagName n, textContent n with
      | [], [], None, None, Some _ => true
      | _, _, _, _, _ => false
      end
  | element =>
      match tagName n, textContent n with
      | Some _, None =>
          canonical (props n)
          && forallb (fun kv => is_attribute_value (snd kv)) (props n)
          && match props_prototype n with
             | Some inherited =>
                 canonical inherited
                 && forallb (fun kv => is_primitive (snd kv)) inherited
             | None => true
             end
      | _, _ => false
      end
  end
  && forallb parsed_shape (children n).

(** Whatever the count of ids drawn, the nodes a child is converted to have
    the shape. *)
Definition well_shaped {host : Host} (child : JSXNode) : Prop :=
  forall k, forallb parsed_shape (fst (convertChild child k)) = true.

(** The color classes and the property each sets. *)
Definition color_classes : list (string * string) :=
  [("text", "color"); ("bg", "backgroundColor")].

(** The name of a color in a class: word characters, at least one. *)
Definition is_name (name : string) : bool :=
  negb (String.eqb name "") && forallb JsString.is_word (JsString.chars name).

(** The shade of a color in a class: none, or digits, at least one. *)
Definition is_shade (shade : option string) : bool :=
  match shade with
  | Some digits =>
      negb (String.eqb digits "")
      && forallb JsString.is_digit (JsString.chars digits)
  | None => true
  end.

(** The text after the name of a color: nothing, or a hyphen and the
    shade. *)
Definition shade_text (shade : option string) : string :=
  match shade with
  | Some digits => "-" ++ digits
  | None => ""
  end.

(** The key the color table is read at. *)
Definition color_key (name : string) (shade : option string) : string :=
  match shade with
  | Some digits => name ++ "-" ++ digits
  | None => name
  end.

(** [rest] does not go on with a unit of the class. *)
Definition stops_at (member : ascii -> bool) (rest : list ascii) : bool :=
  match rest with
  | [] => true
  | c :: _ => negb (member c)
  end.

(** *** [components/PropertyPanel.tsx]: the handlers *)

(** [`linear-gradient(${direction}, ${from}, ${to})`] *)
Definition gradient_text (direction from to : string) : string :=
  "linear-gradient(" ++ direction ++ ", " ++ from ++ ", " ++ to ++ ")".

Definition with_localStyle (st : PanelState) (style : Obj) : PanelState :=
  {| localStyle := style; localText := localText st;
     backgroundType := backgroundType st; gradientFrom := gradientFrom st;
     gradientTo := gradientTo st; gradientDirection := gradientDirection st |}.

Definition with_backgroundType (st : PanelState) (kind : BackgroundType)
  : PanelState :=
  {| localStyle := localStyle st; localText := localText st;
     backgroundType := kind; gradientFrom := gradientFrom st;
     gradientTo := gradientTo st; gradientDirection := gradientDirection st |}.

(** Each handler gives the new state of the panel and the object it passes
    to [onUpdateStyle]. *)
Definition handleStyleChange (key value : string) (st : PanelState)
  : PanelState * Obj :=
  (with_localStyle st
     (JsObject.set (JsObject.spread (VObj (localStyle st))) key (VStr value)),
   JsObject.set [] key (VStr value)).

Definition applyGradient (direction from to : string) (st : PanelState)
  : PanelState * Obj :=
  let text := gradient_text direction from to in
  (with_localStyle st
     (JsObject.set (JsObject.spread (VObj (localStyle st)))
        "backgroundImage" (VStr text)),
   [("backgroundImage", VStr text); ("backgroundColor", VStr "transparent")]).

Definition handleBackgroundTypeChange (kind : BackgroundType) (st : PanelState)
  : PanelState * Obj :=
  let st1 := with_backgroundType st kind in
  match kind with
  | solid =>
      (st1,
       [("backgroundImage", VStr "none");
        ("backgroundColor",
         js_or (prop (localStyle st) "backgroundColor") (VStr "#ffffff"))])
  | gradient =>
      applyGradient (gradientDirection st) (gradientFrom st) (gradientTo st) st1
  end.

Inductive GradientField : Type := FieldDirection | FieldFrom | FieldTo.

Definition handleGradientChange (field : GradientField) (value : string)
    (st : PanelState) : PanelState * Obj :=
  let newDirection :=
    match field with FieldDirection => value | _ => gradientDirection st end in
  let newFrom := match field with FieldFrom => value | _ => gradientFrom st end in
  let newTo := match field with FieldTo => value | _ => gradientTo st end in
  applyGradient newDirection newFrom newTo
    {| localStyle := localStyle st; localText := localText st;
       backgroundType := backgroundType st; gradientFrom := newFrom;
       gradientTo := newTo; gradientDirection := newDirection |}.

(** A direction or a color that the gradient text carries as it is: it is
    not empty, starts with no white space and has no [stop] in it. *)
Definition is_plain (stop : ascii) (s : string) : bool :=
  match JsString.chars s with
  | [] => false
  | c :: rest =>
      negb (JsString.is_space c)
      && forallb (fun d => negb (Ascii.eqb d stop)) (c :: rest)
  end.

(** *** [components/WebsiteEditor.tsx]: the handlers *)

Module Handlers.

(** The state of the editor with the text of the code area. *)
Record Session : Type := {
  state : Editor.State;
  code : string
}.

(** A selected id that passes the test [!selectedId]. *)
Definition selected_id (st : Editor.State) : option string :=
  match Editor.selected st with
  | Some ident => if String.eqb ident "" then None else Some ident
  | None => None
  end.

Section Handlers.

Context {host : Host}.

(** What the handlers do with an updated tree: install it, mark the change
    as a visual edit, and regenerate the code. *)
Definition install (updatedAst : EditorNode) (s : Session) : Session :=
  {| state :=
       {| Editor.ast := Some updatedAst;
          Editor.parseError := Editor.parseError (state s);
          Editor.selected := Editor.selected (state s);
          Editor.isVisualEdit := true;
          Editor.ids_drawn := Editor.ids_drawn (state s) |};
     code := serializeToJSX updatedAst 0 |}.

Definition handleInlineTextEdit (ident newText : string) (s : Session)
  : Session :=
  match Editor.ast (state s) with
  | None => s
  | Some tree => install (updateNodeText tree ident newText) s
  end.

Definition handleUpdateStyle (styleUpdates : Obj) (s : Session) : Session :=
  match Editor.ast (state s), selected_id (state s) with
  | Some tree, Some ident => install (updateNodeStyle tree ident styleUpdates) s
  | _, _ => s
  end.

(** [stamp] is the text of [Date.now()] at the call. *)
Definition handleUpdateText (content stamp : string) (s : Session) : Session :=
  match Editor.ast (state s), selected_id (state s) with
  | Some tree, Some ident =>
      match findNodeById tree ident with
      | None => s
      | Some node =>
          match type node with
          | text => install (updateNodeText tree ident content) s
          | element =>
              match find (fun c => NodeType_eqb (type c) text) (children node) with
              | Some textChild =>
                  install (updateNodeText tree (id textChild) content) s
              | None =>
                  install
                    (with_children tree
                       (if String.eqb (id tree) ident
                        then [text_node ("text-" ++ stamp) content]
                        else children tree)) s
              end
          end
      end
  | _, _ => s
  end.

Definition handleCodeChange (newCode : string) (s : Session) : Session :=
  {| state :=
       {| Editor.ast := Editor.ast (state s);
          Editor.parseError := Editor.parseError (state s);
          Editor.selected := Editor.selected (state s);
          Editor.isVisualEdit := false;
          Editor.ids_drawn := Editor.ids_drawn (state s) |};
     code := newCode |}.

(** [loadExample] sets the code and clears the selection. *)
Definition loadExample (example : string) (s : Session) : Session :=
  {| state :=
       {| Editor.ast := Editor.ast (state s);
          Editor.parseError := Editor.parseError (state s);
          Editor.selected := None;
          Editor.isVisualEdit := Editor.isVisualEdit (state s);
          Editor.ids_drawn := Editor.ids_drawn (state s) |};
     code := example |}.

(** The parse effect, which runs after a render in which [code] changed. *)
Definition after_render (before : string) (s : Session) : Session :=
  if String.eqb before (code s) then s
  else {| state := fst (Editor.parse_effect (code s) (state s)); code := code s |}.

(** The edits that reach the editor from the preview and from the panel. *)
Inductive VisualEdit : Type :=
| InlineText (ident newText : string)
| Style (styleUpdates : Obj)
| Text (content stamp : string).

Definition apply (edit : VisualEdit) (s : Session) : Session :=
  match edit with
  | InlineText ident newText => handleInlineTextEdit ident newText s
  | Style styleUpdates => handleUpdateStyle styleUpdates s
  | Text content stamp => handleUpdateText content stamp s
  end.

End Handlers.

End Handlers.

(** The session in which [tree] is shown with its own markup in the code
    area. *)
Definition session_of {host : Host} (tree : EditorNode)
    (selection : option string) : Handlers.Session :=
  {| Handlers.state :=
       {| Editor.ast := Some tree; Editor.parseError := None;
          Editor.selected := selection; Editor.isVisualEdit := false;
          Editor.ids_drawn := 0 |};
     Handlers.code := serializeToJSX tree 0 |}.

(** ** The source text of JSX expressions

    What the front end reads is given by the grammar of JSX.  [Jsx.source]
    prints a JSX expression as the text of which it is the reading, with one
    space before each attribute and none elsewhere inside a tag, and
    [Jsx.sourced] tells the expressions that are the reading of that text:
    names are identifiers, strings hold no character a literal cannot hold
    as it is, text is not empty and holds no markup character, and no two
    texts are adjacent.  Numbers are written as [String] prints them. *)

Module Jsx.

Definition CR : ascii := ascii_of_nat 13.
Definition NL : ascii := ascii_of_nat 10.
Definition QUOTE : ascii := ascii_of_nat 34.

Definition is_letter (c : ascii) : bool :=
  let n := JsString.code c in
  (Nat.leb 65 n && Nat.leb n 90) || (Nat.leb 97 n && Nat.leb n 122).

Definition is_name_start (c : ascii) : bool :=
  is_letter c || Ascii.eqb c "_" || Ascii.eqb c "$".

Definition is_name_part (c : ascii) : bool :=
  is_name_start c || JsString.is_digit c.

(** An identifier of JavaScript. *)
Definition is_identifier (s : string) : bool :=
  match JsString.chars s with
  | [] => false
  | c :: rest => is_name_start c && forallb is_name_part rest
  end.

(** An identifier of JSX, which may hold hyphens. *)
Definition is_jsx_identifier (s : string) : bool :=
  match JsString.chars s with
  | [] => false
  | c :: rest =>
      is_name_start c
      && forallb (fun d => is_name_part d || Ascii.eqb d "-") rest
  end.

Definition free_of (banned : list ascii) (s : string) : bool :=
  forallb (fun c => negb (existsb (Ascii.eqb c) banned)) (JsString.chars s).

(** What stands for itself between the double quotes of a string literal of
    JavaScript: no quote, backslash or line break. *)
Definition is_string_body (s : string) : bool :=
  free_of [QUOTE; "\"%char; NL; CR] s.

(** What stands for itself between the double quotes of an attribute of
    JSX: no quote, no character reference, no carriage return. *)
Definition is_attribute_body (s : string) : bool :=
  free_of [QUOTE; "&"%char; CR] s.

(** What stands for itself as the text of a JSX child: at least one
    character, no brace, angle bracket, character reference or carriage
    return. *)
Definition is_text_body (s : string) : bool :=
  negb (String.eqb s "")
  && free_of ["{"%char; "}"%char; "<"%char; ">"%char; "&"%char; CR] s.

(** A number a numeric literal denotes: finite and not negative. *)
Definition is_numeral (x : float) : bool :=
  PrimFloat.is_finite x && negb (PrimFloat.get_sign x).

Fixpoint glue (parts : list string) : string :=
  match parts with
  | [] => ""
  | part :: rest => part ++ glue rest
  end.

Fixpoint name_source (name : JSXName) : string :=
  match name with
  | JSXIdentifier n => n
  | JSXMemberExpression object property => name_source object ++ "." ++ property
  | JSXNamespacedName namespace n => namespace ++ ":" ++ n
  end.



Definition key_source (key : PropertyKey) : string :=
  match key with
  | KeyIdentifier name => name
  | KeyStringLiteral value => DQ ++ value ++ DQ
  | KeyOther => ""
  end.


Section Source.

Context {host : Host}.

Fixpoint expression_source (e : Expression) : string :=
  match e with
  | StringLiteral v => DQ ++ v ++ DQ
  | NumericLiteral x => Number_toString x
  | BooleanLiteral b => if b then "true" else "false"
  | ObjectExpression members =>
      match members with
      | [] => "{}"
      | _ =>
          "{ "
          ++ JsString.join ", "
               (map (fun member =>
                       match member with
                       | ObjectProperty key value =>
                           key_source key ++ ": " ++ expression_source value
                       | OtherMember => ""
                       end) members)
          ++ " }"
      end
  | TemplateLiteral _ | OtherExpression => ""
  end.


Definition attribute_source (attribute : JSXAttr) : string :=
  match attribute with
  | JSXAttribute (AttrIdentifier name) AttrNoValue => name
  | JSXAttribute (AttrIdentifier name) (AttrStringLiteral v) =>
      name ++ "=" ++ DQ ++ v ++ DQ
  | JSXAttribute (AttrIdentifier name) (AttrExpressionContainer e) =>
      name ++ "={" ++ expression_source e ++ "}"
  | _ => ""
  end.


Definition attributes_source (attributes : list JSXAttr) : string :=
  glue (map (fun attribute => " " ++ attribute_source attribute) attributes).

Fixpoint source (n : JSXNode) : string :=
  match n with
  | JSXElement name attributes cs =>
      match cs with
      | [] => "<" ++ name_source name ++ attributes_source attributes ++ " />"
      | _ =>
          "<" ++ name_source name ++ attributes_source attributes ++ ">"
          ++ glue (map source cs)
          ++ "</" ++ name_source name ++ ">"
      end
  | JSXFragment cs => "<>" ++ glue (map source cs) ++ "</>"
  | JSXText value => value
  | JSXExpressionContainer e => "{" ++ expression_source e ++ "}"
  | JSXSpreadChild => ""
  end.

Definition is_jsx_text (n : JSXNode) : bool :=
  match n with
  | JSXText _ => true
  | _ => false
  end.

(** No two texts stand side by side: the text of a child runs up to the
    next brace or angle bracket. *)
Fixpoint texts_apart (cs : list JSXNode) : bool :=
  match cs with
  | first :: (second :: _) as rest =>
      negb (is_jsx_text first && is_jsx_text second) && texts_apart rest
  | _ => true
  end.


End Source.

End Jsx.


(** ** The JSX expression of a serialized tree

    [markup_ast node indent] is the JSX expression whose source text the
    serializer prints for an element [node] at the depth [indent], after the
    indentation of its first line.  The line breaks and the indentation the
    serializer puts between children, and the text children themselves, are
    the texts of the expression: the text of a child runs from the end of a
    tag to the start of the next. *)

Inductive Piece : Type :=
| PieceText (line : string)
| PieceNode (lead : string) (n : JSXNode).

(** The children of an expression printed one per line: [pending] is the
    text since the last tag, [tail] the text before the closing tag. *)
Fixpoint flow (pieces : list Piece) (pending tail : string) : list JSXNode :=
  match pieces with
  | [] => [JSXText (pending ++ tail)]
  | PieceText line :: rest => flow rest (pending ++ LF ++ line) tail
  | PieceNode lead n :: rest =>
      JSXText (pending ++ LF ++ lead) :: n :: flow rest "" tail
  end.

(** The properties of a style object as the members of an object
    expression. *)
Definition style_members {host : Host} (style : Obj) : list ObjectMember :=
  map (fun kv : string * JsVal =>
         ObjectProperty (KeyIdentifier (fst kv)) (StringLiteral (toString (snd kv))))
    style.

(** The attribute [serializeProps] prints for a property. *)
Definition attribute_of {host : Host} (kv : string * JsVal) : list JSXAttr :=
  let (key, value) := kv in
  match value with
  | VBool true => [JSXAttribute (AttrIdentifier key) AttrNoValue]
  | VStr s => [JSXAttribute (AttrIdentifier key) (AttrStringLiteral (escapeString s))]
  | VNum x =>
      [JSXAttribute (AttrIdentifier key) (AttrExpressionContainer (NumericLiteral x))]
  | VObj style =>
      if String.eqb key "style" then
        [JSXAttribute (AttrIdentifier key)
           (AttrExpressionContainer (ObjectExpression (style_members style)))]
      else []
  | _ => []
  end.

Section Markup.

Context {host : Host}.

(** What the serializer prints before the opening tag of a child. *)
Definition lead (node : EditorNode) (indent : nat) : string :=
  if is_fragment node then "" else JsString.repeat "  " indent.

Fixpoint markup_ast (node : EditorNode) (indent : nat) : JSXNode :=
  let indentStr := JsString.repeat "  " indent in
  if is_text node then JSXText (or_default (textContent node) "")
  else if is_fragment node then
    JSXFragment
      match children node with
      | [] => [JSXText (LF ++ LF ++ indentStr)]
      | _ =>
          flow
            (map (fun child =>
                    if is_text child then
                      PieceText (or_default (textContent child) "")
                    else PieceNode (lead child indent) (markup_ast child indent))
               (children node))
            "" (LF ++ indentStr)
      end
  else
    JSXElement (JSXIdentifier (or_default (tagName node) "div"))
      (flat_map attribute_of (props node))
      match children node with
      | [] => []
      | first :: others =>
          if forallb is_text (children node)
             && Nat.eqb (List.length (children node)) 1
          then [JSXText (or_default (textContent first) "")]
          else
            flow
              (map (fun child =>
                      if is_text child then
                        PieceText
                          (indentStr ++ "  " ++ or_default (textContent child) "")
                      else
                        PieceNode (lead child (indent + 1))
                          (markup_ast child (indent + 1)))
                 (children node))
              "" (LF ++ indentStr)
      end.

End Markup.

(** ** The trees the serializer prints faithfully

    [printable] holds of the trees whose markup, read by the grammar of JSX,
    converts to the same tree: what the serializer omits, rewrites or leaves
    to [JSON.stringify] is not in them. *)

(** The text neither starts nor ends with white space: [trim] keeps it. *)
Definition is_trimmed (s : string) : bool :=
  match JsString.chars s with
  | [] => true
  | first :: rest =>
      negb (JsString.is_space first)
      && negb (JsString.is_space (last rest first))
  end.

(** A style entry the serializer prints and the parser reads back: the key is
    an identifier, the value a string with characters that a string literal
    holds as they are. *)
Definition printable_style_entry (kv : string * JsVal) : bool :=
  Jsx.is_identifier (fst kv)
  && negb (String.eqb (fst kv) "__proto__")
  && match snd kv with
     | VStr s => negb (String.eqb s "") && Jsx.is_string_body s
     | _ => false
     end.

(** A property the serializer prints and the parser reads back: [true], a
    string [escapeString] leaves as it is, a number a numeric literal
    denotes, or, under [style], a mapping with properties. *)
Definition printable_prop (kv : string * JsVal) : bool :=
  Jsx.is_jsx_identifier (fst kv)
  && negb (String.eqb (fst kv) "__proto__")
  && match snd kv with
     | VBool b => b
     | VStr s =>
         Jsx.is_attribute_body s && Jsx.free_of ["\"%char; Jsx.NL] s
     | VNum x => Jsx.is_numeral x
     | VObj style =>
         String.eqb (fst kv) "style"
         && negb (Nat.eqb (List.length style) 0)
         && canonical style
         && forallb printable_style_entry style
     | _ => false
     end.

Definition printable_text (n : EditorNode) : bool :=
  match textContent n, tagName n, originalSource n, props_prototype n,
        props n, children n with
  | Some content, None, None, None, [], [] =>
      Jsx.is_text_body content && is_trimmed content
  | _, _, _, _, _, _ => false
  end.

(** No two text children are neighbours: their lines would be read as one
    text. *)
Fixpoint texts_apart (cs : list EditorNode) : bool :=
  match cs with
  | first :: (second :: _) as rest =>
      negb (is_text first && is_text second) && texts_apart rest
  | _ => true
  end.

Definition printable_element (n : EditorNode) : bool :=
  match tagName n, textContent n, originalSource n, props_prototype n with
  | Some tag, None, None, None =>
      Jsx.is_jsx_identifier tag
      && (if String.eqb tag "Fragment" then
            match props n with [] => true | _ => false end
          else canonical (props n) && forallb printable_prop (props n))
  | _, _, _, _ => false
  end.

Fixpoint printable (n : EditorNode) : bool :=
  if is_text n then printable_text n
  else
    printable_element n
    && forallb printable (children n)
    && texts_apart (children n).

(** *** Notions of the proofs about printed markup *)







(** * Properties *)

(** ** The model at work *)

Example trim_example : JsString.trim "  <div />  " = "<div />".
Proof. reflexivity. Qed.

Example split_whitespace_example :
  split_whitespace "  p-6  bg-blue-500 " = [""; "p-6"; "bg-blue-500"; ""]
  /\ split_whitespace "" = [""].
Proof. split; reflexivity. Qed.

Example property_order_example :
  JsObject.keys
    (JsObject.set (JsObject.set (JsObject.set (JsObject.set [] "b" VNull)
                                   "2" VNull) "a" VNull) "1" VNull)
  = ["1"; "2"; "b"; "a"].
Proof. reflexivity. Qed.

Example color_pattern_example :
  Regex.exec (Patterns.color "text") "text-gray-500"
  = Some [(0, "text-gray-500"); (2, "-500"); (1, "gray")]
  /\ Regex.exec (Patterns.color "text") "text-gray-500-5" = None.
Proof. split; vm_compute; reflexivity. Qed.

Example gradient_pattern_example :
  Regex.exec Patterns.gradient "linear-gradient(to right, #8b5cf6, #3b82f6)"
  = Some [(0, "linear-gradient(to right, #8b5cf6, #3b82f6)");
          (3, "#3b82f6"); (2, "#8b5cf6"); (1, "to right")]
  /\ Regex.exec Patterns.gradient "linear-gradient(red)" = None.
Proof. split; vm_compute; reflexivity. Qed.

Example escapeString_example :
  escapeString ("a\b" ++ DQ ++ LF) = "a\\b\" ++ DQ ++ "\n".
Proof. reflexivity. Qed.

(** ** Induction over trees *)

Lemma EditorNode_children_ind (P : EditorNode -> Prop) :
  (forall n, Forall P (children n) -> P n) -> forall n, P n.
Proof.
  intros step.
  fix self 1.
  intros [i ty tag p pp cs tc os].
  apply step. simpl.
  induction cs as [|c cs IH]; constructor.
  - apply self.
  - exact IH.
Qed.

Lemma JSXNode_children_ind (P : JSXNode -> Prop) :
  (forall name attributes cs, Forall P cs -> P (JSXElement name attributes cs)) ->
  (forall cs, Forall P cs -> P (JSXFragment cs)) ->
  (forall value, P (JSXText value)) ->
  (forall expr, P (JSXExpressionContainer expr)) ->
  P JSXSpreadChild ->
  forall n, P n.
Proof.
  intros Helem Hfrag Htext Hexpr Hspread.
  fix self 1.
  intros [name attributes cs|cs|value|expr|].
  - apply Helem. induction cs as [|c cs IH]; constructor; [apply self|exact IH].
  - apply Hfrag. induction cs as [|c cs IH]; constructor; [apply self|exact IH].
  - apply Htext.
  - apply Hexpr.
  - apply Hspread.
Qed.

Lemma with_children_same (n : EditorNode) : with_children n (children n) = n.
Proof. destruct n; reflexivity. Qed.

Lemma map_fixes {A : Type} (f : A -> A) (l : list A) :
  Forall (fun x => f x = x) l -> map f l = l.
Proof.
  induction 1 as [|x l Hx _ IH]; simpl; [reflexivity|].
  now rewrite Hx, IH.
Qed.

Lemma updateNodeStyle_eq (root : EditorNode) (ident : string) (updates : Obj) :
  updateNodeStyle root ident updates =
  if String.eqb (id root) ident then
    with_props root
      (JsObject.set (JsObject.spread (VObj (props root))) "style"
         (VObj (JsObject.assign
                  (JsObject.spread (js_or (node_prop root "style") (VObj [])))
                  updates)))
  else
    with_children root
      (map (fun child => updateNodeStyle child ident updates) (children root)).
Proof. destruct root; reflexivity. Qed.

Lemma updateNodeText_eq (root : EditorNode) (ident content : string) :
  updateNodeText root ident content =
  if String.eqb (id root) ident then with_textContent root content
  else
    with_children root
      (map (fun child => updateNodeText child ident content) (children root)).
Proof. destruct root; reflexivity. Qed.

Lemma node_ids_eq (n : EditorNode) :
  node_ids n = id n :: flat_map node_ids (children n).
Proof. destruct n; reflexivity. Qed.

Lemma absent_in_children (ident : string) (cs : list EditorNode) :
  ~ In ident (flat_map node_ids cs) ->
  Forall (fun c => ~ In ident (node_ids c)) cs.
Proof.
  induction cs as [|c cs IH]; simpl; intros Habs; constructor.
  - intros Hin. apply Habs, in_or_app. now left.
  - apply IH. intros Hin. apply Habs, in_or_app. now right.
Qed.

(** ** Updates that miss *)

(** C3. An update addressed to an id that no node of the tree carries returns
    the tree as it was, for the style update and for the text update alike.
    Both updates are total functions of the tree, the id and the argument:
    no step of either can fail. *)
Theorem update_of_absent_id_is_noop :
  forall (tree : EditorNode) (ident : string) (updates : Obj) (content : string),
    ~ In ident (node_ids tree) ->
    updateNodeStyle tree ident updates = tree
    /\ updateNodeText tree ident content = tree.
Proof.
  intros tree ident updates content.
  induction tree as [n IH] using EditorNode_children_ind.
  rewrite node_ids_eq. intros Habs.
  assert (Hid : String.eqb (id n) ident = false).
  { apply String.eqb_neq. intros Heq. apply Habs. now left. }
  assert (Hcs : Forall (fun c => ~ In ident (node_ids c)) (children n)).
  { apply absent_in_children. intros Hin. apply Habs. now right. }
  rewrite updateNodeStyle_eq, updateNodeText_eq, Hid.
  split.
  - rewrite map_fixes; [apply with_children_same|].
    rewrite Forall_forall in *. intros c Hc. now apply IH; [|apply Hcs].
  - rewrite map_fixes; [apply with_children_same|].
    rewrite Forall_forall in *. intros c Hc. now apply IH; [|apply Hcs].
Qed.

Lemma update_of_absent_id_is_noop_witness :
  ~ In "zz" (node_ids Sample.two_texts)
  /\ updateNodeStyle Sample.two_texts "zz" [("color", VStr "red")] = Sample.two_texts
  /\ updateNodeText Sample.two_texts "zz" "x" = Sample.two_texts.
Proof.
  assert (H : ~ In "zz" (node_ids Sample.two_texts)).
  { simpl. intuition discriminate. }
  split; [exact H|].
  exact (update_of_absent_id_is_noop Sample.two_texts "zz"
           [("color", VStr "red")] "x" H).
Defined.

(** ** Unique ids *)

Section Ids.

Context {host : Host}.

Lemma drawn_nil (k : nat) : drawn k k = [].
Proof. unfold drawn. now rewrite Nat.sub_diag. Qed.

Lemma drawn_app (k k1 k2 : nat) :
  k <= k1 -> k1 <= k2 -> drawn k k2 = (drawn k k1 ++ drawn k1 k2)%list.
Proof.
  intros H1 H2. unfold drawn.
  replace (k2 - k) with ((k1 - k) + (k2 - k1)) by lia.
  rewrite seq_app, map_app.
  now replace (k + (k1 - k)) with k1 by lia.
Qed.

Lemma drawn_one (k : nat) : drawn k (S k) = [uuidv4 k].
Proof. unfold drawn. now replace (S k - k) with 1 by lia. Qed.

Lemma convertChildrenWith_cons (push : JSXNode -> nat -> list EditorNode * nat)
    (child : JSXNode) (rest : list JSXNode) (k : nat) :
  convertChildrenWith push (child :: rest) k =
  ((fst (push child k)
    ++ fst (convertChildrenWith push rest (snd (push child k))))%list,
   snd (convertChildrenWith push rest (snd (push child k)))).
Proof.
  simpl. destruct (push child k) as [pushed k1]. simpl.
  now destruct (convertChildrenWith push rest k1).
Qed.

Lemma convertChildren_draws (cs : list JSXNode) :
  Forall draws_its_ids cs ->
  forall k,
    k <= snd (convertChildren cs k)
    /\ Permutation (flat_map node_ids (fst (convertChildren cs k)))
         (drawn k (snd (convertChildren cs k))).
Proof.
  unfold convertChildren.
  induction 1 as [|child rest Hchild _ IH]; intros k.
  - simpl. rewrite drawn_nil. split; [lia|constructor].
  - rewrite convertChildrenWith_cons. simpl.
    destruct (Hchild k) as [Hle1 Hperm1].
    destruct (IH (snd (convertChild child k))) as [Hle2 Hperm2].
    split; [lia|].
    rewrite flat_map_app.
    rewrite (drawn_app k (snd (convertChild child k))) by lia.
    now apply Permutation_app.
Qed.

Lemma convertChild_element (name : JSXName) (attributes : list JSXAttr)
    (cs : list JSXNode) (k : nat) :
  convertChild (JSXElement name attributes cs) k =
  ([fst (convertJSXElement name attributes cs k)],
   snd (convertJSXElement name attributes cs k)).
Proof.
  unfold convertJSXElement, convertChildren. simpl.
  now destruct (convertChildrenWith convertChild cs k).
Qed.

Lemma convertChild_fragment (cs : list JSXNode) (k : nat) :
  convertChild (JSXFragment cs) k =
  ([fst (convertJSXFragment cs k)], snd (convertJSXFragment cs k)).
Proof.
  unfold convertJSXFragment, convertChildren. simpl.
  now destruct (convertChildrenWith convertChild cs k).
Qed.

Lemma convertJSXElement_eq (name : JSXName) (attributes : list JSXAttr)
    (cs : list JSXNode) (k : nat) :
  convertJSXElement name attributes cs k =
  (element_node (uuidv4 (snd (convertChildren cs k))) (getTagName name)
     (extractProps attributes) (fst (convertChildren cs k)),
   S (snd (convertChildren cs k))).
Proof. unfold convertJSXElement. now destruct (convertChildren cs k). Qed.

Lemma convertJSXFragment_eq (cs : list JSXNode) (k : nat) :
  convertJSXFragment cs k =
  (element_node (uuidv4 (snd (convertChildren cs k))) "Fragment" ([], None)
     (fst (convertChildren cs k)),
   S (snd (convertChildren cs k))).
Proof. unfold convertJSXFragment. now destruct (convertChildren cs k). Qed.

Lemma parent_draws_last (k k1 : nat) (ids : list string) :
  k <= k1 -> Permutation ids (drawn k k1) ->
  Permutation (uuidv4 k1 :: ids) (drawn k (S k1)).
Proof.
  intros Hle Hperm.
  rewrite (drawn_app k k1 (S k1)) by lia. rewrite drawn_one.
  eapply Permutation_trans; [|apply Permutation_cons_append].
  now constructor.
Qed.

Lemma text_node_draws (k : nat) (content : string) :
  k <= S k
  /\ Permutation (flat_map node_ids [text_node (uuidv4 k) content])
       (drawn k (S k)).
Proof. split; [lia|]. rewrite drawn_one. simpl. constructor. constructor. Qed.

Lemma nothing_drawn (k : nat) :
  k <= k /\ Permutation (flat_map node_ids []) (drawn k k).
Proof. split; [lia|]. rewrite drawn_nil. constructor. Qed.

Lemma convertChild_draws (child : JSXNode) : draws_its_ids child.
Proof.
  induction child as [name attributes cs IH|cs IH|value|expr|]
    using JSXNode_children_ind; intros k.
  - rewrite convertChild_element, convertJSXElement_eq. simpl.
    destruct (convertChildren_draws cs IH k) as [Hle Hperm].
    split; [lia|]. rewrite app_nil_r. now apply parent_draws_last.
  - rewrite convertChild_fragment, convertJSXFragment_eq. simpl.
    destruct (convertChildren_draws cs IH k) as [Hle Hperm].
    split; [lia|]. rewrite app_nil_r. now apply parent_draws_last.
  - simpl. destruct (String.eqb (JsString.trim value) "").
    + apply nothing_drawn.
    + apply text_node_draws.
  - destruct expr; try apply nothing_drawn.
    + apply text_node_draws.
    + simpl. destruct (String.eqb (JsString.trim (JsString.join "" quasis)) "").
      * apply nothing_drawn.
      * apply text_node_draws.
  - apply nothing_drawn.
Qed.

Lemma run_visitors_draws (events : Trace) (k k' : nat) (tree : EditorNode) :
  run_visitors events k = (Ok (Some tree), k') ->
  k <= k' /\ Permutation (node_ids tree) (drawn k k').
Proof.
  induction events as [|message|node parent rest IH]; simpl;
    try discriminate.
  destruct (is_root_parent parent); [|exact IH].
  destruct node as [name attributes cs|cs|value|expr|]; try exact IH.
  - pose proof (convertChild_draws (JSXElement name attributes cs) k) as H.
    rewrite convertChild_element in H. simpl in H. rewrite app_nil_r in H.
    destruct (convertJSXElement name attributes cs k) as [root k1].
    intros Heq. now inversion Heq; subst.
  - pose proof (convertChild_draws (JSXFragment cs) k) as H.
    rewrite convertChild_fragment in H. simpl in H. rewrite app_nil_r in H.
    destruct (convertJSXFragment cs k) as [root k1].
    intros Heq. now inversion Heq; subst.
Qed.

Lemma parseJSX_tree (code : string) (k k' : nat) (tree : EditorNode) :
  parseJSX code k = (Ok (Some tree), k') ->
  exists file,
    JsString.startsWith (JsString.trim code) "<" = true
    /\ parser_parse (JsString.trim code) = Ok file
    /\ run_visitors (traverse file) k = (Ok (Some tree), k').
Proof.
  unfold parseJSX, parseJSX_try.
  destruct (JsString.startsWith (JsString.trim code) "<"); simpl;
    [|discriminate].
  destruct (parser_parse (JsString.trim code)) as [file|message];
    [|discriminate].
  intros Heq. exists file. repeat split.
  destruct (run_visitors (traverse file) k) as [[root|message] k1];
    [exact Heq|discriminate].
Qed.

(** C2. The ids of a tree [parseJSX] returns are the ids the parse drew from
    [uuidv4], each carried by exactly one node; so when the ids drawn
    during the parse are pairwise distinct, no id occurs twice in the
    tree. *)
Theorem parsed_tree_has_unique_ids :
  forall (code : string) (k k' : nat) (tree : EditorNode),
    parseJSX code k = (Ok (Some tree), k') ->
    NoDup (drawn k k') ->
    Permutation (node_ids tree) (drawn k k') /\ NoDup (node_ids tree).
Proof.
  intros code k k' tree Hparse Hfresh.
  destruct (parseJSX_tree code k k' tree Hparse) as (file & _ & _ & Hrun).
  destruct (run_visitors_draws _ _ _ _ Hrun) as [_ Hperm].
  split; [exact Hperm|].
  eapply Permutation_NoDup; [apply Permutation_sym; exact Hperm|exact Hfresh].
Qed.

End Ids.

Lemma sample_ids_fresh : NoDup (@drawn Sample.host 0 2).
Proof.
  vm_compute. repeat constructor; simpl; intuition discriminate.
Qed.

Lemma parsed_tree_has_unique_ids_witness :
  @parseJSX Sample.host Sample.quasi_markup 0
  = (Ok (Some (Sample.elem "node-1" "div" [] [Sample.plain "node-0" "Hi"])), 2)
  /\ NoDup (@drawn Sample.host 0 2)
  /\ NoDup (node_ids (Sample.elem "node-1" "div" [] [Sample.plain "node-0" "Hi"])).
Proof.
  assert (H : @parseJSX Sample.host Sample.quasi_markup 0
              = (Ok (Some (Sample.elem "node-1" "div" []
                             [Sample.plain "node-0" "Hi"])), 2)).
  { vm_compute. reflexivity. }
  split; [exact H|]. split; [exact sample_ids_fresh|].
  exact (proj2 (@parsed_tree_has_unique_ids Sample.host _ _ _ _ H sample_ids_fresh)).
Defined.

(** ** Parse failures *)

Section ParseFailures.

Context {host : Host}.

(** C10. [parseJSX] never throws: whatever the text and whatever the front
    end does with it, the call returns a tree or [null]; hence the parse
    effect of the editor never runs its [catch] branch, the one that would
    show a message starting with [Parse error:]. *)
Theorem parseJSX_never_throws :
  forall (code : string) (k : nat),
    (exists root k', parseJSX code k = (Ok root, k'))
    /\ forall st : Editor.State,
         snd (Editor.parse_effect code st) <> Editor.CaughtException.
Proof.
  intros code k.
  assert (Hret : forall j, exists root j', parseJSX code j = (Ok root, j')).
  { intros j. unfold parseJSX.
    destruct (parseJSX_try code j) as [[root|message] j'].
    - now exists root, j'.
    - now exists None, j'. }
  split; [apply Hret|].
  intros st. unfold Editor.parse_effect.
  destruct (Editor.isVisualEdit st); [discriminate|].
  destruct (Hret (Editor.ids_drawn st)) as (root & j' & ->).
  destruct root as [parsed|]; [discriminate|].
  destruct (negb (String.eqb (JsString.trim code) "")); discriminate.
Qed.


End ParseFailures.



(** ** Objects *)

Module ObjectFacts.
Import JsObject.

Lemma get_app (a b : Obj) (k : string) :
  get (a ++ b)%list k =
  match get a k with Some v => Some v | None => get b k end.
Proof.
  induction a as [|[k' v'] a IH]; simpl; [reflexivity|].
  now destruct (String.eqb k' k).
Qed.

Lemma has_false_iff (o : Obj) (k : string) :
  has o k = false <-> ~ In k (keys o).
Proof.
  unfold has. induction o as [|[k' v'] o IH]; simpl.
  - split; [tauto|reflexivity].
  - destruct (String.eqb_spec k' k) as [->|Hne].
    + split; [discriminate|]. intros H. exfalso. apply H. now left.
    + rewrite IH. split; [|tauto]. intros H [Heq|Hin]; [now apply Hne|tauto].
Qed.

Lemma get_none_iff (o : Obj) (k : string) :
  get o k = None <-> ~ In k (keys o).
Proof.
  rewrite <- has_false_iff. unfold has.
  destruct (get o k); split; congruence.
Qed.

Lemma get_replace (o : Obj) (k k' : string) (v : JsVal) :
  has o k = true ->
  get (replace o k v) k' = if String.eqb k k' then Some v else get o k'.
Proof.
  unfold has. induction o as [|[k0 v0] o IH]; simpl; [discriminate|].
  destruct (String.eqb_spec k0 k) as [->|Hne]; simpl.
  - intros _. now destruct (String.eqb k k').
  - intros H. destruct (String.eqb_spec k0 k') as [->|Hne'].
    + destruct (String.eqb_spec k k'); [congruence|reflexivity].
    + now apply IH.
Qed.

Lemma get_insert_index (o : Obj) (i : N) (k k' : string) (v : JsVal) :
  has o k = false ->
  get (insert_index i k v o) k' = if String.eqb k k' then Some v else get o k'.
Proof.
  unfold has. induction o as [|[k0 v0] o IH]; simpl; [reflexivity|].
  destruct (String.eqb_spec k0 k) as [->|Hne]; [discriminate|].
  intros H.
  destruct (array_index k0) as [j|]; [destruct (N.ltb j i)|]; simpl;
    try reflexivity.
  destruct (String.eqb_spec k0 k') as [->|Hne'].
  - destruct (String.eqb_spec k k'); [congruence|reflexivity].
  - now apply IH.
Qed.

Lemma get_set (o : Obj) (k k' : string) (v : JsVal) :
  get (set o k v) k' = if String.eqb k k' then Some v else get o k'.
Proof.
  unfold set. destruct (has o k) eqn:Hhas.
  - now apply get_replace.
  - destruct (array_index k) as [i|].
    + now apply get_insert_index.
    + rewrite get_app. simpl.
      destruct (String.eqb_spec k k') as [<-|Hne].
      * unfold has in Hhas. now destruct (get o k).
      * now destruct (get o k').
Qed.

Lemma keys_replace (o : Obj) (k : string) (v : JsVal) :
  keys (replace o k v) = keys o.
Proof.
  unfold keys. induction o as [|[k0 v0] o IH]; simpl; [reflexivity|].
  destruct (String.eqb k0 k); simpl; [reflexivity|].
  now rewrite IH.
Qed.

Lemma keys_insert_index (o : Obj) (i : N) (k : string) (v : JsVal) :
  Permutation (keys (insert_index i k v o)) (k :: keys o).
Proof.
  unfold keys. induction o as [|[k0 v0] o IH]; simpl; [reflexivity|].
  destruct (array_index k0) as [j|]; [destruct (N.ltb j i)|]; simpl;
    try reflexivity.
  eapply Permutation_trans; [apply perm_skip, IH|apply perm_swap].
Qed.

Lemma keys_set_new (o : Obj) (k : string) (v : JsVal) :
  has o k = false -> Permutation (keys (set o k v)) (k :: keys o).
Proof.
  intros Hhas. unfold set. rewrite Hhas.
  destruct (array_index k) as [i|].
  - apply keys_insert_index.
  - unfold keys. rewrite map_app. simpl.
    apply Permutation_sym, Permutation_cons_append.
Qed.

Lemma set_keeps_keys_distinct (o : Obj) (k : string) (v : JsVal) :
  NoDup (keys o) -> NoDup (keys (set o k v)).
Proof.
  intros Hnd. destruct (has o k) eqn:Hhas.
  - unfold set. rewrite Hhas. now rewrite keys_replace.
  - eapply Permutation_NoDup;
      [apply Permutation_sym, keys_set_new; exact Hhas|].
    constructor; [now apply has_false_iff|exact Hnd].
Qed.

Lemma assign_keeps_keys_distinct (src target : Obj) :
  NoDup (keys target) -> NoDup (keys (assign target src)).
Proof.
  unfold assign. revert target.
  induction src as [|[k v] src IH]; simpl; intros target Hnd; [exact Hnd|].
  apply IH. now apply set_keeps_keys_distinct.
Qed.

Lemma spread_keys_distinct (v : JsVal) : NoDup (keys (spread v)).
Proof. apply assign_keeps_keys_distinct. constructor. Qed.

Lemma get_rev (o : Obj) (k : string) :
  NoDup (keys o) -> get (rev o) k = get o k.
Proof.
  induction o as [|[k0 v0] o IH]; simpl; [reflexivity|].
  intros Hnd. inversion Hnd as [|? ? Hnotin Hnd']; subst.
  rewrite get_app, IH by exact Hnd'. simpl.
  destruct (String.eqb_spec k0 k) as [->|Hne].
  - apply get_none_iff in Hnotin. now rewrite Hnotin.
  - now destruct (get o k).
Qed.

Lemma get_assign_rev (src target : Obj) (k : string) :
  get (assign target src) k =
  match get (rev src) k with Some v => Some v | None => get target k end.
Proof.
  unfold assign. revert target.
  induction src as [|[k0 v0] src IH]; simpl; intros target; [reflexivity|].
  rewrite IH, get_app, get_set. simpl.
  now destruct (get (rev src) k), (String.eqb k0 k).
Qed.

(** Reading a key after [{ ...target, ...src }]: the value of [src] where
    [src] has the key, that of [target] elsewhere. *)
Lemma get_assign (src target : Obj) (k : string) :
  NoDup (keys src) ->
  get (assign target src) k =
  match get src k with Some v => Some v | None => get target k end.
Proof. intros Hnd. now rewrite get_assign_rev, get_rev. Qed.

End ObjectFacts.

(** ** Style resolution *)

Section Styles.

Context {host : Host}.

Lemma set_when_keeps_keys_distinct (c : bool) (k v : string) (o : Obj) :
  NoDup (JsObject.keys o) -> NoDup (JsObject.keys (set_when c k v o)).
Proof.
  unfold set_when. destruct c; [apply ObjectFacts.set_keeps_keys_distinct|auto].
Qed.

Lemma color_rule_keeps_keys_distinct (prefix target : string)
    (excluded : list string) (cls : string) (o : Obj) :
  NoDup (JsObject.keys o) ->
  NoDup (JsObject.keys (color_rule prefix target excluded cls o)).
Proof.
  intros Hnd. unfold color_rule.
  destruct (Regex.exec (Patterns.color prefix) cls) as [m|]; [|exact Hnd].
  destruct (Regex.capture m 1) as [name|]; [|exact Hnd].
  destruct (existsb (String.eqb name) excluded); [exact Hnd|].
  match goal with |- context [truthy ?f] => destruct (truthy f) end;
    [now apply ObjectFacts.set_keeps_keys_distinct|exact Hnd].
Qed.

Lemma spacing_rule_keeps_keys_distinct (prefix : string)
    (targets : list string) (cls : string) (o : Obj) :
  NoDup (JsObject.keys o) ->
  NoDup (JsObject.keys (spacing_rule prefix targets cls o)).
Proof.
  intros Hnd. unfold spacing_rule.
  destruct (Regex.exec (Patterns.spacing prefix) cls) as [m|]; [|exact Hnd].
  destruct (Regex.capture m 1) as [digits|]; [|exact Hnd].
  revert o Hnd. induction targets as [|t targets IH]; simpl; intros o Hnd;
    [exact Hnd|].
  apply IH. now apply ObjectFacts.set_keeps_keys_distinct.
Qed.

Lemma font_size_rule_keeps_keys_distinct (cls : string) (o : Obj) :
  NoDup (JsObject.keys o) -> NoDup (JsObject.keys (font_size_rule cls o)).
Proof.
  intros Hnd. unfold font_size_rule.
  destruct (Regex.test Patterns.font_size cls); [|exact Hnd].
  now apply ObjectFacts.set_keeps_keys_distinct.
Qed.

Lemma class_step_keeps_keys_distinct (o : Obj) (cls : string) :
  NoDup (JsObject.keys o) -> NoDup (JsObject.keys (class_step o cls)).
Proof.
  intros Hnd. unfold class_step.
  repeat first
    [ apply set_when_keeps_keys_distinct
    | apply color_rule_keeps_keys_distinct
    | apply spacing_rule_keeps_keys_distinct
    | apply font_size_rule_keeps_keys_distinct ].
  exact Hnd.
Qed.

Lemma class_styles_keys_distinct (className : string) :
  NoDup (JsObject.keys (getComputedStylesFromClassName className)).
Proof.
  unfold getComputedStylesFromClassName.
  assert (H : forall tokens o, NoDup (JsObject.keys o) ->
              NoDup (JsObject.keys (fold_left class_step tokens o))).
  { induction tokens as [|t tokens IH]; simpl; intros o Hnd; [exact Hnd|].
    apply IH. now apply class_step_keeps_keys_distinct. }
  apply H. constructor.
Qed.

Lemma classStyles_keys_distinct (node : EditorNode) :
  NoDup (JsObject.keys (classStyles node)).
Proof.
  unfold classStyles.
  destruct (node_prop node "className");
    try apply class_styles_keys_distinct; constructor.
Qed.

(** C4. The resolved style of a node reads, at every key, the inline value
    when the inline style has the key and the class-derived value
    otherwise: the inline style is merged last and wins every collision.
    For the class list [bg-blue-500] with the inline style
    [{backgroundColor: "#fff"}] the resolved [backgroundColor] is
    ["#fff"]. *)
Theorem inline_style_wins :
  forall (node : EditorNode) (key : string),
    JsObject.get (mergedStyles node) key =
    match JsObject.get (extractStyleFromNode node) key with
    | Some inline => Some inline
    | None => JsObject.get (classStyles node) key
    end
  /\ JsObject.get (classStyles Sample.styled_div) "backgroundColor"
     = Some (VStr "#3b82f6")
  /\ JsObject.get (mergedStyles Sample.styled_div) "backgroundColor"
     = Some (VStr "#fff").
Proof.
  intros node key. split; [|split; vm_compute; reflexivity].
  unfold mergedStyles.
  rewrite ObjectFacts.get_assign by apply ObjectFacts.spread_keys_distinct.
  destruct (JsObject.get (extractStyleFromNode node) key); [reflexivity|].
  unfold JsObject.spread. simpl JsObject.own_entries.
  rewrite ObjectFacts.get_assign by apply classStyles_keys_distinct.
  now destruct (JsObject.get (classStyles node) key).
Qed.

(** C5. The class list [text-3xl font-bold text-white] resolves to exactly
    [{fontSize: "30px", fontWeight: "bold", color: "#ffffff"}], and
    [p-6 bg-blue-500 rounded-lg] to exactly
    [{padding: "24px", backgroundColor: "#3b82f6", borderRadius: "8px"}]. *)
Theorem class_lists_resolve :
  getComputedStylesFromClassName "text-3xl font-bold text-white"
  = [("fontSize", VStr "30px"); ("fontWeight", VStr "bold");
     ("color", VStr "#ffffff")]
  /\ getComputedStylesFromClassName "p-6 bg-blue-500 rounded-lg"
     = [("padding", VStr "24px"); ("backgroundColor", VStr "#3b82f6");
        ("borderRadius", VStr "8px")].
Proof. split; vm_compute; reflexivity. Qed.

End Styles.

(** ** Double-click editing *)




Example two_texts_double_click :
  view_onDoubleClick (renderNode Sample.two_texts Sample.options)
  = Some [StopPropagation; OnStartEditing "t1"]
  /\ map id (text_children Sample.two_texts) = ["t1"; "t3"].
Proof. split; reflexivity. Qed.



(** ** Gradient detection *)

Module RegexFacts.
Import Regex.

Lemma prefix_app (p q s : string) :
  String.prefix (p ++ q) s = true -> String.prefix p s = true.
Proof.
  revert s. induction p as [|c p IH]; intros s H; [now destruct s|].
  destruct s as [|d s]; [discriminate|]. simpl in H |- *.
  destruct (ascii_dec c d); [now apply IH|discriminate].
Qed.

(** A pattern that starts with a literal matches only where the literal
    stands. *)
Lemma run_literal {A : Type} (p : string) (s : list ascii) (pos : nat)
    (caps : Captures) (k : list ascii -> nat -> Captures -> option A) (a : A) :
  run (Lit p) s pos caps k = Some a ->
  String.prefix p (JsString.of_chars s) = true.
Proof.
  revert s pos. induction p as [|c p IH]; intros s pos; simpl.
  - intros _. now destruct (JsString.of_chars s).
  - destruct s as [|d s]; [discriminate|].
    destruct (Ascii.eqb_spec d c) as [->|Hne]; [|discriminate].
    intros Hrun. simpl. destruct (ascii_dec c c); [|congruence].
    now apply IH in Hrun.
Qed.

Lemma includes_chars_step (n : nat) (s p : list ascii) :
  JsString.includes_chars (S n) s p =
  String.prefix (JsString.of_chars p) (JsString.of_chars s)
  || match s with
     | [] => false
     | _ :: s' => JsString.includes_chars n s' p
     end.
Proof. reflexivity. Qed.

Lemma of_chars_chars (p : string) : JsString.of_chars (JsString.chars p) = p.
Proof. apply string_of_list_ascii_of_string. Qed.

Lemma search_includes (r : regex) (p : string) :
  (forall s pos m, match_at r s pos = Some m ->
                   String.prefix p (JsString.of_chars s) = true) ->
  forall n s pos m,
    search r n s pos = Some m ->
    JsString.includes_chars (S n) s (JsString.chars p) = true.
Proof.
  intros Hlit. induction n as [|n IH]; intros s pos m;
    rewrite includes_chars_step, of_chars_chars; cbn [search];
    destruct (match_at r s pos) as [m'|] eqn:Hm.
  - intros _. apply Hlit in Hm. now rewrite Hm.
  - now destruct s.
  - intros _. apply Hlit in Hm. now rewrite Hm.
  - destruct s as [|c s]; [discriminate|].
    intros Hsearch. apply IH in Hsearch. rewrite Hsearch.
    apply orb_true_r.
Qed.

Lemma gradient_match_includes (bg : string) (m : Captures) :
  exec Patterns.gradient bg = Some m ->
  JsString.includes bg "linear-gradient" = true.
Proof.
  unfold exec, JsString.includes.
  apply search_includes.
  intros s pos m' Hm. unfold match_at, Patterns.gradient in Hm.
  cbn [run] in Hm.
  apply run_literal in Hm.
  now apply (prefix_app "linear-gradient" "(").
Qed.

Lemma defines_cons (caps : Captures) (i j : nat) (v : string) :
  defines caps i -> defines ((j, v) :: caps) i.
Proof. unfold defines. simpl. now destruct (Nat.eqb j i). Qed.

Lemma defines_head (caps : Captures) (i : nat) (v : string) :
  defines ((i, v) :: caps) i.
Proof. unfold defines. simpl. now rewrite Nat.eqb_refl. Qed.

Lemma run_sets_groups {A : Type} (r : regex) :
  forall (s : list ascii) (pos : nat) (caps : Captures)
         (k : list ascii -> nat -> Captures -> option A) (a : A),
    run r s pos caps k = Some a ->
    exists s1 pos1 caps1,
      k s1 pos1 caps1 = Some a
      /\ (forall i, defines caps i -> defines caps1 i)
      /\ (forall i, In i (mandatory r) -> defines caps1 i).
Proof.
  induction r as [|c|member|r1 IH1 r2 IH2|r1 IH1 r2 IH2|r' IH|i r' IH| |];
    intros s pos caps k a Hrun; cbn [run mandatory] in *.
  - exists s, pos, caps. now repeat split.
  - destruct s as [|d s]; [discriminate|].
    destruct (Ascii.eqb d c); [|discriminate].
    exists s, (S pos), caps. now repeat split.
  - destruct s as [|d s]; [discriminate|].
    destruct (member d); [|discriminate].
    exists s, (S pos), caps. now repeat split.
  - apply IH1 in Hrun. destruct Hrun as (s1 & pos1 & caps1 & Hk & Hkeep1 & Hset1).
    apply IH2 in Hk. destruct Hk as (s2 & pos2 & caps2 & Hk & Hkeep2 & Hset2).
    exists s2, pos2, caps2. repeat split; auto.
    intros i Hin. apply in_app_or in Hin. destruct Hin; auto.
  - destruct (run r1 s pos caps k) as [a'|] eqn:Hfirst.
    + inversion Hrun; subst. apply IH1 in Hfirst.
      destruct Hfirst as (s1 & pos1 & caps1 & Hk & Hkeep & _).
      exists s1, pos1, caps1. now repeat split.
    + apply IH2 in Hrun.
      destruct Hrun as (s1 & pos1 & caps1 & Hk & Hkeep & _).
      exists s1, pos1, caps1. now repeat split.
  - revert Hrun. generalize (List.length s + 1). intros n.
    revert s pos caps. induction n as [|n IHn]; intros s pos caps Hrun;
      simpl in Hrun.
    + exists s, pos, caps. now repeat split.
    + match type of Hrun with
      | match ?first with _ => _ end = _ => destruct first as [a'|] eqn:Hfirst
      end.
      * inversion Hrun; subst. apply IH in Hfirst.
        destruct Hfirst as (s1 & pos1 & caps1 & Hk & Hkeep & _).
        destruct (Nat.ltb (List.length s1) (List.length s)); [|discriminate].
        apply IHn in Hk.
        destruct Hk as (s2 & pos2 & caps2 & Hk & Hkeep2 & _).
        exists s2, pos2, caps2. repeat split; auto. intros i [].
      * exists s, pos, caps. now repeat split.
  - apply IH in Hrun. destruct Hrun as (s1 & pos1 & caps1 & Hk & Hkeep & Hset).
    eexists s1, pos1, _. split; [exact Hk|]. split.
    + intros j Hj. now apply defines_cons, Hkeep.
    + intros j [<-|Hin]; [apply defines_head|now apply defines_cons, Hset].
  - destruct (Nat.eqb pos 0); [|discriminate].
    exists s, pos, caps. now repeat split.
  - destruct s; [|discriminate].
    exists [], pos, caps. now repeat split.
Qed.

Lemma search_matches_somewhere (r : regex) (n : nat) :
  forall s pos m,
    search r n s pos = Some m -> exists s' pos', match_at r s' pos' = Some m.
Proof.
  induction n as [|n IH]; intros s pos m; cbn [search];
    destruct (match_at r s pos) as [m'|] eqn:Hm.
  - intros Heq. inversion Heq; subst. now exists s, pos.
  - now destruct s.
  - intros Heq. inversion Heq; subst. now exists s, pos.
  - destruct s as [|c s]; [discriminate|]. apply IH.
Qed.

Lemma exec_sets_groups (r : regex) (str : string) (m : Captures) (i : nat) :
  exec r str = Some m -> In i (mandatory r) -> capture m i <> None.
Proof.
  unfold exec. intros Hexec Hin.
  apply search_matches_somewhere in Hexec.
  destruct Hexec as (s & pos & Hm). unfold match_at in Hm.
  apply run_sets_groups in Hm.
  destruct Hm as (s1 & pos1 & caps1 & Hk & _ & Hset).
  inversion Hk; subst. now apply defines_cons, Hset.
Qed.

End RegexFacts.

(** C9, the claim fails: for [linear-gradient(red)] the panel switches to the
    gradient background type. *)
Lemma malformed_gradient_claim_fails : ~ malformed_gradient_claim.
Proof.
  intros claim.
  destruct (claim Sample.host Sample.malformed_gradient Sample.panel
              "linear-gradient(red)") as (st' & Heffect & Hsolid);
    try reflexivity.
  vm_compute in Heffect. inversion Heffect; subst. discriminate Hsolid.
Qed.

Example malformed_gradient_effect :
  @selection_effect Sample.host (Some Sample.malformed_gradient) Sample.panel
  = Ok {| localStyle := [("backgroundImage", VStr "linear-gradient(red)")];
          localText := "";
          backgroundType := gradient;
          gradientFrom := "#8b5cf6";
          gradientTo := "#3b82f6";
          gradientDirection := "to right" |}.
Proof. vm_compute. reflexivity. Qed.

Section Gradient.

Context {host : Host}.

(** C9, amended.  When the inline background image matches the pattern, the
    panel takes the direction and the two color stops from its three
    groups.  When the image contains [linear-gradient] and the pattern does
    not match, the extraction is skipped without an error: direction and
    color stops stay as they were, and the background type is set to
    gradient all the same. *)
Theorem gradient_detection :
  forall (node : EditorNode) (st : PanelState) (bg : string),
    prop (extractStyleFromNode node) "backgroundImage" = VStr bg ->
    (forall m,
        Regex.exec Patterns.gradient bg = Some m ->
        exists st',
          selection_effect (Some node) st = Ok st'
          /\ backgroundType st' = gradient
          /\ Regex.capture m 1 = Some (gradientDirection st')
          /\ option_map JsString.trim (Regex.capture m 2) = Some (gradientFrom st')
          /\ option_map JsString.trim (Regex.capture m 3) = Some (gradientTo st'))
    /\ (JsString.includes bg "linear-gradient" = true ->
        Regex.exec Patterns.gradient bg = None ->
        exists st',
          selection_effect (Some node) st = Ok st'
          /\ backgroundType st' = gradient
          /\ gradientDirection st' = gradientDirection st
          /\ gradientFrom st' = gradientFrom st
          /\ gradientTo st' = gradientTo st).
Proof.
  intros node st bg Hbg.
  assert (Hnonempty : JsString.includes bg "linear-gradient" = true ->
                      truthy (VStr bg) = true).
  { destruct bg; [discriminate|reflexivity]. }
  split.
  - intros m Hm.
    pose proof (RegexFacts.gradient_match_includes bg m Hm) as Hinc.
    unfold selection_effect, detect_background, js_or.
    rewrite Hbg, (Hnonempty Hinc), Hinc, Hm.
    assert (Hgroup : forall i, In i [1; 2; 3] ->
               Regex.capture m i = Some (capture_or_empty m i)).
    { intros i Hi. unfold capture_or_empty.
      pose proof (RegexFacts.exec_sets_groups _ _ _ i Hm) as Hset.
      destruct (Regex.capture m i); [reflexivity|].
      exfalso. apply Hset; [|reflexivity].
      simpl in Hi |- *. intuition. }
    eexists. split; [reflexivity|]. simpl.
    rewrite !Hgroup by (simpl; auto). simpl. auto.
  - intros Hinc Hnone.
    unfold selection_effect, detect_background, js_or.
    rewrite Hbg, (Hnonempty Hinc), Hinc, Hnone.
    eexists. split; [reflexivity|]. simpl. auto.
Qed.

End Gradient.

Lemma gradient_detection_witness :
  (forall m,
      Regex.exec Patterns.gradient "linear-gradient(to right, #8b5cf6, #3b82f6)"
      = Some m ->
      exists st',
        @selection_effect Sample.host (Some Sample.two_stop_gradient) Sample.panel
        = Ok st'
        /\ backgroundType st' = gradient
        /\ Regex.capture m 1 = Some (gradientDirection st')
        /\ option_map JsString.trim (Regex.capture m 2) = Some (gradientFrom st')
        /\ option_map JsString.trim (Regex.capture m 3) = Some (gradientTo st'))
  /\ (JsString.includes "linear-gradient(to right, #8b5cf6, #3b82f6)"
        "linear-gradient" = true ->
      Regex.exec Patterns.gradient "linear-gradient(to right, #8b5cf6, #3b82f6)"
      = None ->
      exists st',
        @selection_effect Sample.host (Some Sample.two_stop_gradient) Sample.panel
        = Ok st'
        /\ backgroundType st' = gradient
        /\ gradientDirection st' = gradientDirection Sample.panel
        /\ gradientFrom st' = gradientFrom Sample.panel
        /\ gradientTo st' = gradientTo Sample.panel).
Proof.
  apply (@gradient_detection Sample.host Sample.two_stop_gradient Sample.panel
           "linear-gradient(to right, #8b5cf6, #3b82f6)").
  reflexivity.
Defined.

(** ** Serialization *)

Section SerializerFacts.

Context {host : Host}.

Lemma serializeToJSX_eq (node : EditorNode) (indent : nat) :
  serializeToJSX node indent =
  let indentStr := JsString.repeat "  " indent in
  if is_text node then or_default (textContent node) ""
  else if is_fragment node then
    let cs :=
      JsString.join LF
        (map (fun child => serializeToJSX child indent) (children node)) in
    "<>" ++ LF ++ cs ++ LF ++ indentStr ++ "</>"
  else
    let tag := or_default (tagName node) "div" in
    let propsStr := serializeProps (props node) in
    match children node with
    | [] => indentStr ++ "<" ++ tag ++ propsStr ++ " />"
    | first :: others =>
        let allTextChildren := forallb is_text (children node) in
        if allTextChildren && Nat.eqb (List.length (children node)) 1 then
          let content := or_default (textContent first) "" in
          indentStr ++ "<" ++ tag ++ propsStr ++ ">" ++ content
            ++ "</" ++ tag ++ ">"
        else
          let cs :=
            JsString.join LF
              (map (fun child =>
                      if is_text child then
                        indentStr ++ "  " ++ or_default (textContent child) ""
                      else serializeToJSX child (indent + 1))
                   (children node)) in
          indentStr ++ "<" ++ tag ++ propsStr ++ ">" ++ LF ++ cs ++ LF
            ++ indentStr ++ "</" ++ tag ++ ">"
    end.
Proof. destruct node; reflexivity. Qed.

Lemma same_markup_refl (a : EditorNode) : same_markup a a.
Proof. now repeat split. Qed.

Lemma Forall2_same_markup_refl (cs : list EditorNode) :
  Forall2 same_markup cs cs.
Proof. induction cs; constructor; auto using same_markup_refl. Qed.

Lemma Forall2_map_left {A : Type} (R : A -> A -> Prop) (f : A -> A)
    (l : list A) :
  Forall (fun x => R (f x) x) l -> Forall2 R (map f l) l.
Proof. induction 1; simpl; constructor; auto. Qed.

Lemma same_markup_map {B : Type} (f : EditorNode -> B)
    (cs cs' : list EditorNode) :
  (forall a b, same_markup a b -> f a = f b) ->
  Forall2 same_markup cs cs' -> map f cs = map f cs'.
Proof.
  intros Hf. induction 1 as [|a b cs cs' Hab _ IH]; simpl; [reflexivity|].
  now rewrite (Hf a b Hab), IH.
Qed.

Lemma same_markup_is_text (a b : EditorNode) :
  same_markup a b -> is_text a = is_text b.
Proof. intros (Hty & _). unfold is_text. now rewrite Hty. Qed.

(** The serializer reads of a node its type, tag, text and properties (as
    [serializeProps] prints them) and its children. *)
Lemma serializeToJSX_congruence (a b : EditorNode) :
  type a = type b ->
  tagName a = tagName b ->
  textContent a = textContent b ->
  serializeProps (props a) = serializeProps (props b) ->
  Forall2 same_markup (children a) (children b) ->
  same_markup a b.
Proof.
  intros Hty Htag Htext Hprops Hcs.
  split; [exact Hty|]. split; [exact Htext|].
  intros indent. rewrite !serializeToJSX_eq.
  assert (Htxt : is_text a = is_text b) by (unfold is_text; now rewrite Hty).
  assert (Hfrag : is_fragment a = is_fragment b)
    by (unfold is_fragment; now rewrite Htag).
  assert (Hflat :
            map (fun child => serializeToJSX child indent) (children a)
            = map (fun child => serializeToJSX child indent) (children b)).
  { apply same_markup_map; [|exact Hcs]. intros x y (_ & _ & H). apply H. }
  assert (Hnested :
            map (fun child =>
                   if is_text child then
                     JsString.repeat "  " indent ++ "  "
                       ++ or_default (textContent child) ""
                   else serializeToJSX child (indent + 1)) (children a)
            = map (fun child =>
                     if is_text child then
                       JsString.repeat "  " indent ++ "  "
                         ++ or_default (textContent child) ""
                     else serializeToJSX child (indent + 1)) (children b)).
  { apply same_markup_map; [|exact Hcs]. intros x y Hxy.
    rewrite (same_markup_is_text x y Hxy).
    destruct Hxy as (_ & Ht & Hs). now rewrite Ht, Hs. }
  assert (Hall : forallb is_text (children a) = forallb is_text (children b)).
  { clear -Hcs. induction Hcs as [|x y cs cs' Hxy _ IH]; simpl; [reflexivity|].
    now rewrite (same_markup_is_text x y Hxy), IH. }
  assert (Hlen : List.length (children a) = List.length (children b)).
  { clear -Hcs. induction Hcs; simpl; congruence. }
  cbv zeta.
  rewrite Htxt, Hfrag, Htag, Htext, Hprops, Hflat, Hnested, Hall, Hlen.
  inversion Hcs as [Ha Hb|x y cs cs' Hxy Hrest Ha Hb]; [reflexivity|].
  destruct Hxy as (_ & Ht & _). now rewrite Ht.
Qed.




End SerializerFacts.

(** ** Copies of objects *)

Module CanonicalFacts.
Import JsObject.

Lemma canonical_before (acc rest : Obj) (k : string) (v : JsVal) :
  canonical (acc ++ (k, v) :: rest)%list = true ->
  Forall (fun kv => String.eqb (fst kv) k = false
                    /\ key_before (fst kv) k = true) acc.
Proof.
  induction acc as [|[k0 v0] acc IH]; simpl; intros H; constructor.
  - apply andb_prop in H. destruct H as [H _].
    rewrite forallb_app in H. apply andb_prop in H. destruct H as [_ H].
    simpl in H. apply andb_prop in H. destruct H as [H _].
    apply andb_prop in H. destruct H as [Hne Hbefore]. simpl.
    now destruct (String.eqb k0 k).
  - apply IH. apply andb_prop in H. tauto.
Qed.

Lemma has_false_before (acc : Obj) (k : string) :
  Forall (fun kv => String.eqb (fst kv) k = false
                    /\ key_before (fst kv) k = true) acc ->
  has acc k = false.
Proof.
  unfold has. induction 1 as [|[k0 v0] acc [Hne _] _ IH]; simpl; [reflexivity|].
  simpl in Hne. now rewrite Hne.
Qed.

Lemma insert_index_last (acc : Obj) (i : N) (k : string) (v : JsVal) :
  array_index k = Some i ->
  Forall (fun kv => String.eqb (fst kv) k = false
                    /\ key_before (fst kv) k = true) acc ->
  insert_index i k v acc = (acc ++ [(k, v)])%list.
Proof.
  intros Hidx. induction 1 as [|[k0 v0] acc [_ Hbefore] _ IH]; simpl;
    [reflexivity|].
  unfold key_before in Hbefore. simpl in Hbefore. rewrite Hidx in Hbefore.
  destruct (array_index k0) as [j|]; [|discriminate].
  now rewrite Hbefore, IH.
Qed.

Lemma set_last (acc rest : Obj) (k : string) (v : JsVal) :
  canonical (acc ++ (k, v) :: rest)%list = true ->
  set acc k v = (acc ++ [(k, v)])%list.
Proof.
  intros H. apply canonical_before in H.
  unfold set. rewrite (has_false_before acc k H).
  destruct (array_index k) as [i|] eqn:Hidx; [|reflexivity].
  now apply insert_index_last.
Qed.

Lemma assign_onto (src acc : Obj) :
  canonical (acc ++ src)%list = true -> assign acc src = (acc ++ src)%list.
Proof.
  unfold assign. revert acc.
  induction src as [|[k v] src IH]; simpl; intros acc H.
  - now rewrite app_nil_r.
  - rewrite (set_last acc src k v H).
    rewrite IH; rewrite <- app_assoc; [reflexivity|exact H].
Qed.

(** Copying an object gives the object. *)
Lemma spread_object (o : Obj) : canonical o = true -> spread (VObj o) = o.
Proof. intros H. unfold spread. simpl. now apply assign_onto. Qed.

Lemma replace_same (o : Obj) (k : string) (v : JsVal) :
  get o k = Some v -> replace o k v = o.
Proof.
  induction o as [|[k0 v0] o IH]; simpl; [reflexivity|].
  destruct (String.eqb k0 k).
  - intros Heq. now inversion Heq.
  - intros Heq. now rewrite IH.
Qed.

End CanonicalFacts.

(** ** The empty style update *)

Section EmptyUpdate.

Context {host : Host}.

Lemma serializeProps_parts (p : Obj) :
  serializeProps p = wrap_parts (flat_map prop_part p).
Proof.
  unfold serializeProps.
  match goal with
  | |- context [fold_left ?step p []] =>
      assert (H : forall q acc,
                 fold_left step q acc = (acc ++ flat_map prop_part q)%list)
  end.
  { induction q as [|[key value] q IH]; intros acc; simpl.
    - now rewrite app_nil_r.
    - rewrite IH. unfold push.
      destruct value as [| |[|]|n|s|o|f]; simpl;
        try destruct (String.eqb key "style"); simpl;
        try destruct (String.eqb (serializeStyle o) ""); simpl;
        rewrite <- ?app_assoc; reflexivity. }
  now rewrite H.
Qed.

Lemma parts_replace (p : Obj) (k : string) (old new : JsVal) :
  JsObject.get p k = Some old ->
  prop_part (k, new) = prop_part (k, old) ->
  flat_map prop_part (JsObject.replace p k new) = flat_map prop_part p.
Proof.
  intros Hget Hsame. induction p as [|[k0 v0] p IH]; [reflexivity|].
  simpl in Hget |- *.
  destruct (String.eqb_spec k0 k) as [->|Hne].
  - inversion Hget; subst. cbn [flat_map]. now rewrite Hsame.
  - cbn [flat_map]. now rewrite IH.
Qed.

Lemma has_of_get (p : Obj) (k : string) (v : JsVal) :
  JsObject.get p k = Some v -> JsObject.has p k = true.
Proof. unfold JsObject.has. now intros ->. Qed.

(** What the empty update copies into an own [style] when the node has
    none. *)
Lemma nothing_copied (v : JsVal) :
  match v with
  | VStr s => String.eqb s ""
  | VObj [] => true
  | VObj _ => false
  | _ => true
  end = true ->
  JsObject.assign (JsObject.spread (js_or v (VObj []))) [] = [].
Proof.
  destruct v as [| |b|n|s|[|kv o]|f]; try discriminate; try reflexivity.
  - now destruct b.
  - intros _. unfold js_or. now destruct (truthy (VNum n)).
  - intros Hs. apply String.eqb_eq in Hs. now subst s.
Qed.

(** The properties after the empty style update print as before. *)
Lemma empty_update_props (n : EditorNode) :
  canonical (props n) = true ->
  style_is_mapping_or_omitted n = true ->
  serializeProps
    (JsObject.set (JsObject.spread (VObj (props n))) "style"
       (VObj (JsObject.assign
                (JsObject.spread (js_or (node_prop n "style") (VObj []))) [])))
  = serializeProps (props n).
Proof.
  intros Hcan Hstyle.
  rewrite (CanonicalFacts.spread_object (props n) Hcan).
  rewrite !serializeProps_parts. f_equal.
  unfold style_is_mapping_or_omitted in Hstyle.
  unfold node_prop, prop_through, JsObject.set.
  destruct (JsObject.get (props n) "style") as [old|] eqn:Hget.
  - rewrite (has_of_get (props n) "style" old Hget).
    destruct old as [| |[|]|x|s|style|f]; try discriminate;
      try (apply (parts_replace (props n) "style" _ _ Hget); reflexivity).
    unfold js_or. simpl truthy. cbv iota.
    rewrite (CanonicalFacts.spread_object style Hstyle).
    unfold JsObject.assign. simpl fold_left.
    now rewrite (CanonicalFacts.replace_same (props n) "style" _ Hget).
  - unfold JsObject.has. rewrite Hget. cbv iota.
    assert (Hnone : forall v,
               match v with
               | VStr s => String.eqb s ""
               | VObj [] => true
               | VObj _ => false
               | _ => true
               end = true ->
               prop_part
                 ("style",
                  VObj (JsObject.assign (JsObject.spread (js_or v (VObj []))) []))
               = []).
    { intros v Hv. now rewrite (nothing_copied v Hv). }
    assert (Hlast : forall v,
               prop_part
                 ("style",
                  VObj (JsObject.assign (JsObject.spread (js_or v (VObj []))) []))
               = [] ->
               flat_map prop_part
                 (match JsObject.array_index "style" with
                  | Some i =>
                      JsObject.insert_index i "style"
                        (VObj (JsObject.assign
                                 (JsObject.spread (js_or v (VObj []))) []))
                        (props n)
                  | None =>
                      (props n
                       ++ [("style",
                            VObj (JsObject.assign
                                    (JsObject.spread (js_or v (VObj []))) []))])%list
                  end)
               = flat_map prop_part (props n)).
    { intros v Hv. change (JsObject.array_index "style") with (@None N).
      cbv iota. rewrite flat_map_app. cbn [flat_map]. rewrite Hv.
      now rewrite !app_nil_r. }
    destruct (props_prototype n) as [inherited|].
    + unfold prop.
      destruct (JsObject.get inherited "style") as [v|].
      * apply Hlast, Hnone. destruct v as [| | | | |[|]|]; auto.
      * apply Hlast, Hnone. reflexivity.
    + apply Hlast, Hnone. reflexivity.
Qed.

Lemma updateNodeStyle_type (n : EditorNode) (ident : string) (u : Obj) :
  type (updateNodeStyle n ident u) = type n
  /\ tagName (updateNodeStyle n ident u) = tagName n
  /\ textContent (updateNodeStyle n ident u) = textContent n.
Proof.
  rewrite updateNodeStyle_eq. now destruct (String.eqb (id n) ident).
Qed.

Lemma styles_are_mappings_eq (n : EditorNode) :
  styles_are_mappings n =
  canonical (props n) && style_is_mapping_or_omitted n
  && forallb styles_are_mappings (children n).
Proof. destruct n; reflexivity. Qed.

Lemma empty_update_same_markup (ident : string) (n : EditorNode) :
  styles_are_mappings n = true ->
  same_markup (updateNodeStyle n ident []) n.
Proof.
  induction n as [n IH] using EditorNode_children_ind.
  rewrite styles_are_mappings_eq. intros Hok.
  apply andb_prop in Hok. destruct Hok as [Hok Hcs].
  apply andb_prop in Hok. destruct Hok as [Hcan Hstyle].
  destruct (updateNodeStyle_type n ident []) as (Hty & Htag & Htext).
  apply serializeToJSX_congruence; try assumption;
    rewrite updateNodeStyle_eq; destruct (String.eqb (id n) ident); simpl;
    try reflexivity.
  - now apply empty_update_props.
  - apply Forall2_same_markup_refl.
  - apply Forall2_map_left.
    rewrite Forall_forall in *. intros c Hc.
    apply IH; [exact Hc|].
    rewrite forallb_forall in Hcs. now apply Hcs.
Qed.

(** C8, amended.  In a tree where the [style] property of every node is a
    mapping, or absent, or a value the serializer omits, the empty style
    update leaves the serialized markup as it was, for every id. *)
Theorem empty_style_update_keeps_markup :
  forall (tree : EditorNode) (ident : string) (indent : nat),
    styles_are_mappings tree = true ->
    serializeToJSX (updateNodeStyle tree ident []) indent
    = serializeToJSX tree indent.
Proof.
  intros tree ident indent Hok.
  now destruct (empty_update_same_markup ident tree Hok) as (_ & _ & H).
Qed.

End EmptyUpdate.

(** C8, the claim fails: the parser gives [<div style="color: red" />] a
    string for [style]; the empty update spreads the string into an object
    of its characters, and the markup changes. *)
Lemma empty_update_claim_fails : ~ empty_update_claim.
Proof.
  intros claim.
  specialize (claim Sample.host Sample.string_style "n1").
  vm_compute in claim. discriminate claim.
Qed.

Example string_style_update :
  @serializeToJSX Sample.host Sample.string_style 0
  = "<div style=" ++ DQ ++ "color: red" ++ DQ ++ " />"
  /\ props (updateNodeStyle Sample.string_style "n1" [])
     = [("style",
         VObj [("0", VStr "c"); ("1", VStr "o"); ("2", VStr "l"); ("3", VStr "o");
               ("4", VStr "r"); ("5", VStr ":"); ("6", VStr " "); ("7", VStr "r");
               ("8", VStr "e"); ("9", VStr "d")])]
  /\ String.prefix ("<div style={{ 0: " ++ DQ ++ "c" ++ DQ ++ ", 1: ")
       (@serializeToJSX Sample.host
          (updateNodeStyle Sample.string_style "n1" []) 0) = true.
Proof. repeat split; vm_compute; reflexivity. Qed.

(** The parser gives [<div __proto__={{ style: "ab" }} />] no own property
    and the prototype [{ style: "ab" }].  The node reads its [style] from
    the prototype, the empty update copies the characters of that string
    into an own [style], and the markup changes. *)
Example inherited_style_update :
  fst (@root_tree Sample.host Sample.proto_style_ast 0)
  = Some Sample.inherited_style
  /\ node_prop Sample.inherited_style "style" = VStr "ab"
  /\ styles_are_mappings Sample.inherited_style = false
  /\ @serializeToJSX Sample.host Sample.inherited_style 0 = "<div />"
  /\ @serializeToJSX Sample.host
       (updateNodeStyle Sample.inherited_style "node-0" []) 0
     = "<div style={{ 0: " ++ DQ ++ "a" ++ DQ ++ ", 1: " ++ DQ ++ "b" ++ DQ
       ++ " }} />".
Proof. repeat split; vm_compute; reflexivity. Qed.

Lemma empty_style_update_keeps_markup_witness :
  styles_are_mappings Sample.styled_div = true
  /\ @serializeToJSX Sample.host
       (updateNodeStyle Sample.styled_div "n1" []) 0
     = @serializeToJSX Sample.host Sample.styled_div 0.
Proof.
  assert (H : styles_are_mappings Sample.styled_div = true) by reflexivity.
  split; [exact H|].
  exact (@empty_style_update_keeps_markup Sample.host
           Sample.styled_div "n1" 0 H).
Defined.

(** ** The round trip *)

Section RoundTrip.

Context {host : Host}.

Lemma drop_spaces_last (l : list ascii) (c : ascii) :
  JsString.is_space c = false ->
  exists l', JsString.drop_spaces (l ++ [c]) = (l' ++ [c])%list.
Proof.
  intros Hc. induction l as [|d l IH]; simpl.
  - rewrite Hc. now exists [].
  - destruct (JsString.is_space d); [exact IH|].
    now exists (d :: l).
Qed.



Lemma parseJSX_reads (code : string) (root : JSXNode) (k : nat) :
  reads_as code root ->
  JsString.startsWith (JsString.trim code) "<" = true ->
  parseJSX code k = (Ok (fst (root_tree root k)), snd (root_tree root k)).
Proof.
  intros (Hroot & file & rest & Hparse & Htraverse) Hopen.
  unfold parseJSX, parseJSX_try. rewrite Hopen, Hparse, Htraverse. simpl.
  destruct root as [name attributes cs|cs| | |]; try discriminate; simpl.
  - now destruct (convertJSXElement name attributes cs k).
  - now destruct (convertJSXFragment cs k).
Qed.

Lemma root_tree_is_element (root : JSXNode) (k : nat) (tree : EditorNode) :
  fst (root_tree root k) = Some tree -> type tree = element.
Proof.
  destruct root as [name attributes cs|cs| | |]; simpl; try discriminate.
  - rewrite convertJSXElement_eq. intros Heq. now inversion Heq.
  - rewrite convertJSXFragment_eq. intros Heq. now inversion Heq.
Qed.

Lemma convertChildren_up_to_ids (cs : list JSXNode) :
  Forall same_up_to_ids cs ->
  forall k k',
    map erase_ids (fst (convertChildren cs k))
    = map erase_ids (fst (convertChildren cs k')).
Proof.
  unfold convertChildren.
  induction 1 as [|child rest Hchild _ IH]; intros k k'; [reflexivity|].
  rewrite !convertChildrenWith_cons. simpl. rewrite !map_app.
  now rewrite (Hchild k k'), (IH (snd (convertChild child k))
                                (snd (convertChild child k'))).
Qed.

Lemma convertChild_up_to_ids (child : JSXNode) : same_up_to_ids child.
Proof.
  induction child as [name attributes cs IH|cs IH|value|expr|]
    using JSXNode_children_ind; intros k k'.
  - rewrite !convertChild_element, !convertJSXElement_eq. simpl.
    now rewrite (convertChildren_up_to_ids cs IH k k').
  - rewrite !convertChild_fragment, !convertJSXFragment_eq. simpl.
    now rewrite (convertChildren_up_to_ids cs IH k k').
  - simpl. now destruct (String.eqb (JsString.trim value) "").
  - destruct expr; try reflexivity.
    simpl. now destruct (String.eqb (JsString.trim (JsString.join "" quasis)) "").
  - reflexivity.
Qed.

Lemma root_tree_up_to_ids (root : JSXNode) (k k' : nat) (a b : EditorNode) :
  fst (root_tree root k) = Some a ->
  fst (root_tree root k') = Some b ->
  struct_eq a b.
Proof.
  unfold struct_eq.
  destruct root as [name attributes cs|cs| | |]; simpl; try discriminate;
    intros Ha Hb; inversion Ha; inversion Hb; subst.
  - pose proof (convertChild_up_to_ids (JSXElement name attributes cs) k k') as H.
    rewrite !convertChild_element in H. simpl in H. now inversion H.
  - pose proof (convertChild_up_to_ids (JSXFragment cs) k k') as H.
    rewrite !convertChild_fragment in H. simpl in H. now inversion H.
Qed.

Lemma parsed_from_root (code : string) (root : JSXNode) (k k1 : nat)
    (tree : EditorNode) :
  reads_as code root ->
  parseJSX code k = (Ok (Some tree), k1) ->
  fst (root_tree root k) = Some tree.
Proof.
  intros Hreads Hparse.
  destruct (parseJSX_tree code k k1 tree Hparse) as (file & Hopen & _ & _).
  rewrite (parseJSX_reads code root k Hreads Hopen) in Hparse.
  now inversion Hparse.
Qed.

Lemma drop_spaces_head (l : list ascii) :
  match JsString.drop_spaces l with
  | [] => True
  | c :: _ => JsString.is_space c = false
  end.
Proof.
  induction l as [|c l IH]; simpl; [exact I|].
  destruct (JsString.is_space c) eqn:Hc; [exact IH|exact Hc].
Qed.

Lemma drop_spaces_fixed (l : list ascii) :
  match l with [] => True | c :: _ => JsString.is_space c = false end ->
  JsString.drop_spaces l = l.
Proof. destruct l as [|c l]; simpl; [reflexivity|]. now intros ->. Qed.

Lemma trim_chars_head (l : list ascii) :
  match trim_chars l with
  | [] => True
  | c :: _ => JsString.is_space c = false
  end.
Proof.
  unfold trim_chars.
  pose proof (drop_spaces_head l) as Hhead.
  destruct (JsString.drop_spaces l) as [|c m]; [exact I|].
  simpl rev.
  destruct (drop_spaces_last (rev m) c Hhead) as [l' ->].
  rewrite rev_app_distr. exact Hhead.
Qed.

Lemma trim_chars_idempotent (l : list ascii) :
  trim_chars (trim_chars l) = trim_chars l.
Proof.
  unfold trim_chars at 1.
  rewrite (drop_spaces_fixed (trim_chars l) (trim_chars_head l)).
  unfold trim_chars. rewrite rev_involutive.
  rewrite drop_spaces_fixed by apply drop_spaces_head.
  reflexivity.
Qed.

Lemma trim_idempotent (s : string) :
  JsString.trim (JsString.trim s) = JsString.trim s.
Proof.
  unfold JsString.trim, JsString.chars, JsString.of_chars.
  rewrite list_ascii_of_string_of_list_ascii.
  fold (trim_chars (list_ascii_of_string s)).
  fold (trim_chars (trim_chars (list_ascii_of_string s))).
  now rewrite trim_chars_idempotent.
Qed.

Lemma convertChildren_kept (cs : list JSXNode) :
  Forall (fun c => forall k, convertChild (normalize c) k = convertChild c k) cs ->
  forall k,
    convertChildren (filter is_kept (map normalize cs)) k = convertChildren cs k.
Proof.
  unfold convertChildren.
  induction 1 as [|child rest Hchild _ IH]; intros k; [reflexivity|].
  cbn [map filter]. rewrite convertChildrenWith_cons.
  destruct (is_kept (normalize child)) eqn:Hkept.
  - rewrite convertChildrenWith_cons, Hchild. now rewrite IH.
  - rewrite <- Hchild.
    destruct (normalize child) as [| |value| |]; try discriminate.
    simpl in Hkept |- *. apply negb_false_iff in Hkept. rewrite Hkept. simpl.
    rewrite IH. now destruct (convertChildrenWith convertChild rest k).
Qed.

(** The conversion does not see the white space [normalize] removes. *)
Lemma convertChild_normalize (child : JSXNode) (k : nat) :
  convertChild (normalize child) k = convertChild child k.
Proof.
  revert k.
  induction child as [name attributes cs IH|cs IH|value|expr|]
    using JSXNode_children_ind; intros k; try reflexivity.
  - cbn [normalize]. rewrite !convertChild_element, !convertJSXElement_eq.
    now rewrite (convertChildren_kept cs IH k).
  - cbn [normalize]. rewrite !convertChild_fragment, !convertJSXFragment_eq.
    now rewrite (convertChildren_kept cs IH k).
  - cbn [normalize convertChild]. now rewrite trim_idempotent.
Qed.

Lemma root_tree_normalize (root : JSXNode) (k : nat) :
  is_element_or_fragment root = true ->
  root_tree (normalize root) k = root_tree root k.
Proof.
  intros Hroot. pose proof (convertChild_normalize root k) as H.
  destruct root as [name attributes cs|cs| | |]; try discriminate;
    cbn [normalize] in *.
  - rewrite !convertChild_element in H. inversion H as [[Htree Hk]].
    unfold root_tree. now rewrite Htree, Hk.
  - rewrite !convertChild_fragment in H. inversion H as [[Htree Hk]].
    unfold root_tree. now rewrite Htree, Hk.
Qed.

End RoundTrip.


Example disabled_false_is_omitted :
  forall host : Host,
    fst (@root_tree host Sample.disabled_false_ast 0)
    = Some (Sample.elem (uuidv4 0) "div" [("disabled", VBool false)] [])
    /\ fst (@root_tree host Sample.bare_div_ast 0)
       = Some (Sample.elem (uuidv4 0) "div" [] [])
    /\ @serializeToJSX host
         (Sample.elem (uuidv4 0) "div" [("disabled", VBool false)] []) 0
       = "<div />"
    /\ @serializeToJSX host (Sample.elem (uuidv4 0) "div" [] []) 0 = "<div />".
Proof. intros host. repeat split. Qed.

Lemma sample_reads_nested :
  @reads_as Sample.host Sample.nested_markup Sample.nested_ast.
Proof. split; [reflexivity|]. now eexists _, _. Qed.


Example sample_nested_tree :
  @parseJSX Sample.host Sample.nested_markup 0
  = (Ok (Some (Sample.elem "node-2" "div" []
                 [Sample.elem "node-1" "p" [] [Sample.plain "node-0" "Hi"]])), 3)
  /\ @serializeToJSX Sample.host
       (Sample.elem "node-2" "div" []
          [Sample.elem "node-1" "p" [] [Sample.plain "node-0" "Hi"]]) 0
     = Sample.nested_pretty.
Proof. split; vm_compute; reflexivity. Qed.

(** * More properties of the sources *)

(** ** Finding and updating nodes *)

Lemma find_app {A : Type} (p : A -> bool) (a b : list A) :
  find p (a ++ b)%list = match find p a with Some x => Some x | None => find p b end.
Proof.
  induction a as [|x a IH]; simpl; [reflexivity|].
  now destruct (p x).
Qed.

Lemma findNodeById_eq (root : EditorNode) (ident : string) :
  findNodeById root ident =
  if String.eqb (id root) ident then Some root
  else
    (fix search (l : list EditorNode) : option EditorNode :=
       match l with
       | [] => None
       | child :: rest =>
           match findNodeById child ident with
           | Some found => Some found
           | None => search rest
           end
       end) (children root).
Proof. destruct root; reflexivity. Qed.

Lemma nodes_eq (n : EditorNode) : nodes n = n :: flat_map nodes (children n).
Proof. destruct n; reflexivity. Qed.

Lemma node_ids_of_nodes (n : EditorNode) : node_ids n = map id (nodes n).
Proof.
  induction n as [n IH] using EditorNode_children_ind.
  rewrite node_ids_eq, nodes_eq. simpl. f_equal.
  induction IH as [|c cs Hc _ IHcs]; simpl; [reflexivity|].
  now rewrite map_app, Hc, IHcs.
Qed.

Lemma findNodeById_is_find (t : EditorNode) (ident : string) :
  findNodeById t ident = find (fun n => String.eqb (id n) ident) (nodes t).
Proof.
  induction t as [n IH] using EditorNode_children_ind.
  rewrite findNodeById_eq, nodes_eq. simpl.
  destruct (String.eqb (id n) ident); [reflexivity|].
  induction IH as [|c cs Hc _ IHcs]; simpl; [reflexivity|].
  rewrite find_app, <- Hc, IHcs. reflexivity.
Qed.

(** X1. [findNodeById] returns the first node in document order that carries
    the id, and [null] exactly when no node of the tree carries it. *)
Theorem findNodeById_finds_first :
  forall (tree : EditorNode) (ident : string),
    findNodeById tree ident
    = find (fun n => String.eqb (id n) ident) (nodes tree)
    /\ (findNodeById tree ident = None <-> ~ In ident (node_ids tree)).
Proof.
  intros tree ident. split; [apply findNodeById_is_find|].
  rewrite findNodeById_is_find, node_ids_of_nodes. split.
  - intros Hnone Hin. apply in_map_iff in Hin. destruct Hin as (n & Hid & Hn).
    apply (find_none _ _ Hnone) in Hn. simpl in Hn.
    rewrite Hid, String.eqb_refl in Hn. discriminate.
  - intros Habs.
    destruct (find (fun n => String.eqb (id n) ident) (nodes tree)) as [n|] eqn:Hfind;
      [|reflexivity].
    apply find_some in Hfind. destruct Hfind as [Hin Heq].
    apply String.eqb_eq in Heq. exfalso. apply Habs.
    apply in_map_iff. now exists n.
Qed.

Lemma without_props_eq (n : EditorNode) :
  without_props n =
  {| id := id n; type := type n; tagName := tagName n; props := [];
     props_prototype := None;
     children := map without_props (children n);
     textContent := textContent n; originalSource := originalSource n |}.
Proof. destruct n; reflexivity. Qed.

Lemma without_text_eq (n : EditorNode) :
  without_text n =
  {| id := id n; type := type n; tagName := tagName n; props := props n;
     props_prototype := props_prototype n;
     children := map without_text (children n);
     textContent := None; originalSource := originalSource n |}.
Proof. destruct n; reflexivity. Qed.

Lemma map_agree {A B : Type} (f g : A -> B) (l : list A) :
  Forall (fun x => f x = g x) l -> map f l = map g l.
Proof. induction 1 as [|x l Hx _ IH]; simpl; [reflexivity|]. now rewrite Hx, IH. Qed.

Lemma updateNodeStyle_id (n : EditorNode) (ident : string) (u : Obj) :
  id (updateNodeStyle n ident u) = id n.
Proof. rewrite updateNodeStyle_eq. now destruct (String.eqb (id n) ident). Qed.

Lemma updateNodeText_id (n : EditorNode) (ident content : string) :
  id (updateNodeText n ident content) = id n.
Proof. rewrite updateNodeText_eq. now destruct (String.eqb (id n) ident). Qed.

(** X2. A style update changes properties only and a text update changes
    texts only: ids, types, tags and nesting stay, in particular the list of
    the ids of the tree. *)
Theorem updates_keep_the_structure :
  forall (tree : EditorNode) (ident : string) (updates : Obj) (content : string),
    without_props (updateNodeStyle tree ident updates) = without_props tree
    /\ without_text (updateNodeText tree ident content) = without_text tree
    /\ node_ids (updateNodeStyle tree ident updates) = node_ids tree
    /\ node_ids (updateNodeText tree ident content) = node_ids tree.
Proof.
  intros tree ident updates content.
  induction tree as [n IH] using EditorNode_children_ind.
  rewrite !without_props_eq, !without_text_eq.
  rewrite (node_ids_eq (updateNodeStyle _ _ _)),
    (node_ids_eq (updateNodeText _ _ _)), (node_ids_eq n).
  rewrite updateNodeStyle_eq, updateNodeText_eq.
  destruct (String.eqb (id n) ident); simpl; [repeat split; reflexivity|].
  rewrite !map_map.
  repeat split; f_equal.
  - apply map_agree. eapply Forall_impl; [|exact IH]. simpl. tauto.
  - apply map_agree. eapply Forall_impl; [|exact IH]. simpl. tauto.
  - induction IH as [|c cs Hc _ IHcs]; simpl; [reflexivity|].
    destruct Hc as (_ & _ & -> & _). now rewrite IHcs.
  - induction IH as [|c cs Hc _ IHcs]; simpl; [reflexivity|].
    destruct Hc as (_ & _ & _ & ->). now rewrite IHcs.
Qed.

Lemma found_after_text_update (t : EditorNode) (ident content : string) :
  findNodeById (updateNodeText t ident content) ident
  = option_map (fun n => with_textContent n content) (findNodeById t ident).
Proof.
  induction t as [n IH] using EditorNode_children_ind.
  rewrite (findNodeById_eq n), (findNodeById_eq (updateNodeText _ _ _)).
  rewrite updateNodeText_id, updateNodeText_eq.
  destruct (String.eqb (id n) ident); [reflexivity|]. simpl.
  induction IH as [|c cs Hc _ IHcs]; simpl; [reflexivity|].
  rewrite Hc, IHcs. now destruct (findNodeById c ident).
Qed.

Lemma text_elsewhere_after_text_update (t : EditorNode)
    (ident other content : string) :
  other <> ident ->
  option_map textContent (findNodeById (updateNodeText t ident content) other)
  = option_map textContent (findNodeById t other).
Proof.
  intros Hne.
  induction t as [n IH] using EditorNode_children_ind.
  rewrite (findNodeById_eq n), (findNodeById_eq (updateNodeText _ _ _)).
  rewrite updateNodeText_id, updateNodeText_eq.
  destruct (String.eqb_spec (id n) other) as [Hother|Hother].
  - destruct (String.eqb_spec (id n) ident); [congruence|reflexivity].
  - destruct (String.eqb (id n) ident); [reflexivity|]. simpl.
    induction IH as [|c cs Hc _ IHcs]; simpl; [reflexivity|].
    destruct (findNodeById (updateNodeText c ident content) other),
      (findNodeById c other); simpl in *; try discriminate; auto.
Qed.

(** X3. After [updateNodeText(tree, id, text)] the node found under [id] is
    the node found before with the new text, and the node found under any
    other id has the text it had. *)
Theorem text_update_then_find :
  forall (tree : EditorNode) (ident other content : string),
    findNodeById (updateNodeText tree ident content) ident
    = option_map (fun n => with_textContent n content) (findNodeById tree ident)
    /\ option_map textContent
         (findNodeById (updateNodeText tree ident content) other)
       = if String.eqb other ident
         then option_map (fun _ => Some content) (findNodeById tree ident)
         else option_map textContent (findNodeById tree other).
Proof.
  intros tree ident other content.
  split; [apply found_after_text_update|].
  destruct (String.eqb_spec other ident) as [->|Hne].
  - rewrite found_after_text_update. now destruct (findNodeById tree ident).
  - now apply text_elsewhere_after_text_update.
Qed.

(** X5. Of two text updates of the same id the second one counts. *)
Theorem text_update_last_wins :
  forall (tree : EditorNode) (ident first second : string),
    updateNodeText (updateNodeText tree ident first) ident second
    = updateNodeText tree ident second.
Proof.
  intros tree ident first second.
  induction tree as [n IH] using EditorNode_children_ind.
  rewrite (updateNodeText_eq (updateNodeText n ident first)).
  rewrite updateNodeText_id, !(updateNodeText_eq n).
  destruct (String.eqb (id n) ident); [reflexivity|].
  unfold with_children. simpl. rewrite map_map. f_equal.
  now apply map_agree.
Qed.

(** X6. A style update and a text update commute, whatever the two ids
    are. *)
Theorem style_and_text_updates_commute :
  forall (tree : EditorNode) (ident other : string) (updates : Obj)
         (content : string),
    updateNodeStyle (updateNodeText tree other content) ident updates
    = updateNodeText (updateNodeStyle tree ident updates) other content.
Proof.
  intros tree ident other updates content.
  induction tree as [n IH] using EditorNode_children_ind.
  rewrite (updateNodeStyle_eq (updateNodeText n other content)),
    (updateNodeText_eq (updateNodeStyle n ident updates)).
  rewrite updateNodeText_id, updateNodeStyle_id.
  rewrite (updateNodeText_eq n), (updateNodeStyle_eq n).
  destruct (String.eqb (id n) ident), (String.eqb (id n) other);
    try reflexivity.
  unfold with_children. simpl. rewrite !map_map. f_equal.
  now apply map_agree.
Qed.

(** X7. [updateNodeText] is [updateNodeById] with the update
    [{ textContent }]. *)
Theorem updateNodeText_is_updateNodeById :
  forall (tree : EditorNode) (ident content : string),
    updateNodeText tree ident content
    = updateNodeById tree ident (only_textContent content).
Proof.
  intros tree ident content.
  induction tree as [n IH] using EditorNode_children_ind.
  rewrite updateNodeText_eq.
  destruct n as [i ty tag p pp cs tc os]. simpl in *.
  destruct (String.eqb i ident); [reflexivity|].
  unfold with_children. simpl. f_equal. now apply map_agree.
Qed.

Lemma found_after_style_update (t : EditorNode) (ident : string) (u : Obj) :
  findNodeById (updateNodeStyle t ident u) ident
  = option_map
      (fun n =>
         with_props n
           (JsObject.set (JsObject.spread (VObj (props n))) "style"
              (VObj (JsObject.assign
                       (JsObject.spread (js_or (node_prop n "style") (VObj [])))
                       u))))
      (findNodeById t ident).
Proof.
  induction t as [n IH] using EditorNode_children_ind.
  rewrite (findNodeById_eq n), (findNodeById_eq (updateNodeStyle _ _ _)).
  rewrite updateNodeStyle_id, updateNodeStyle_eq.
  destruct (String.eqb (id n) ident); [reflexivity|]. simpl.
  induction IH as [|c cs Hc _ IHcs]; simpl; [reflexivity|].
  rewrite Hc, IHcs. now destruct (findNodeById c ident).
Qed.

(** X4. After [updateNodeStyle(tree, id, updates)] the node found under [id]
    has a [style] mapping that reads, at every key, the value of [updates]
    where [updates] has the key and the former inline style elsewhere; the
    other properties, the text and the children of the node are as
    before. *)
Theorem style_update_then_find :
  forall (tree node : EditorNode) (ident : string) (updates : Obj),
    NoDup (JsObject.keys updates) ->
    NoDup (JsObject.keys (props node)) ->
    findNodeById tree ident = Some node ->
    exists node' style,
      findNodeById (updateNodeStyle tree ident updates) ident = Some node'
      /\ JsObject.get (props node') "style" = Some (VObj style)
      /\ (forall key,
             JsObject.get style key =
             match JsObject.get updates key with
             | Some v => Some v
             | None => JsObject.get (extractStyleFromNode node) key
             end)
      /\ (forall key, key <> "style" ->
             JsObject.get (props node') key = JsObject.get (props node) key)
      /\ textContent node' = textContent node
      /\ children node' = children node.
Proof.
  intros tree node ident updates Hupdates Hprops Hfound.
  rewrite found_after_style_update, Hfound. simpl.
  eexists _, _. split; [reflexivity|]. simpl.
  split; [now rewrite ObjectFacts.get_set|]. split; [|split].
  - intros key. now rewrite ObjectFacts.get_assign.
  - intros key Hkey. rewrite ObjectFacts.get_set.
    destruct (String.eqb_spec "style" key); [congruence|].
    unfold JsObject.spread. simpl JsObject.own_entries.
    rewrite ObjectFacts.get_assign by exact Hprops.
    now destruct (JsObject.get (props node) key).
  - split; reflexivity.
Qed.

Lemma style_update_then_find_witness :
  exists node' style,
    findNodeById
      (updateNodeStyle Sample.styled_div "n1" [("color", VStr "red")]) "n1"
    = Some node'
    /\ JsObject.get (props node') "style" = Some (VObj style)
    /\ (forall key,
           JsObject.get style key =
           match JsObject.get [("color", VStr "red")] key with
           | Some v => Some v
           | None => JsObject.get (extractStyleFromNode Sample.styled_div) key
           end)
    /\ (forall key, key <> "style" ->
           JsObject.get (props node') key
           = JsObject.get (props Sample.styled_div) key)
    /\ textContent node' = textContent Sample.styled_div
    /\ children node' = children Sample.styled_div.
Proof.
  apply (style_update_then_find Sample.styled_div Sample.styled_div "n1"
           [("color", VStr "red")]).
  - repeat constructor; simpl; intuition discriminate.
  - repeat constructor; simpl; intuition discriminate.
  - reflexivity.
Defined.

(** ** The component store *)

Module DatabaseFacts.
Import Database.

Lemma find_app_row (p : ComponentRow -> bool) (a b : list ComponentRow) :
  find p (a ++ b)%list = match find p a with Some x => Some x | None => find p b end.
Proof. apply find_app. Qed.

Lemma update_first_none (ident code_ : string) (name_ : option string)
    (now : string) (rows : list ComponentRow) :
  find (fun c => String.eqb (id c) ident) rows = None ->
  update_first ident code_ name_ now rows = None.
Proof.
  induction rows as [|c rows IH]; simpl; [reflexivity|].
  destruct (String.eqb (id c) ident); [discriminate|].
  intros H. now rewrite IH.
Qed.

Lemma remove_first_none (ident : string) (rows : list ComponentRow) :
  find (fun c => String.eqb (id c) ident) rows = None ->
  remove_first ident rows = None.
Proof.
  induction rows as [|c rows IH]; simpl; [reflexivity|].
  destruct (String.eqb (id c) ident); [discriminate|].
  intros H. now rewrite IH.
Qed.

Lemma update_first_some (ident code_ : string) (name_ : option string)
    (now : string) (rows : list ComponentRow) (row : ComponentRow) :
  find (fun c => String.eqb (id c) ident) rows = Some row ->
  exists rows',
    update_first ident code_ name_ now rows
    = Some (updated_row row code_ name_ now, rows')
    /\ List.length rows' = List.length rows
    /\ forall other,
         find (fun c => String.eqb (id c) other) rows'
         = if String.eqb other ident
           then Some (updated_row row code_ name_ now)
           else find (fun c => String.eqb (id c) other) rows.
Proof.
  induction rows as [|c rows IH]; simpl; [discriminate|].
  destruct (String.eqb_spec (id c) ident) as [Hc|Hc].
  - intros Heq. inversion Heq; subst c; subst ident.
    eexists. split; [reflexivity|].
    split; [reflexivity|]. intros other. simpl.
    destruct (String.eqb_spec (id row) other) as [Ho|Ho].
    + subst other. now rewrite String.eqb_refl.
    + destruct (String.eqb_spec other (id row)); [congruence|reflexivity].
  - intros Hfind. destruct (IH Hfind) as (rows' & -> & Hlen & Hother).
    eexists. split; [reflexivity|]. split; [simpl; congruence|].
    intros other. simpl.
    destruct (String.eqb_spec (id c) other) as [Ho|Ho].
    + destruct (String.eqb_spec other ident); [congruence|reflexivity].
    + apply Hother.
Qed.

Lemma remove_first_some (ident : string) (rows : list ComponentRow)
    (row : ComponentRow) :
  find (fun c => String.eqb (id c) ident) rows = Some row ->
  exists rows',
    remove_first ident rows = Some rows'
    /\ S (List.length rows') = List.length rows
    /\ (forall other, other <> ident ->
          find (fun c => String.eqb (id c) other) rows'
          = find (fun c => String.eqb (id c) other) rows)
    /\ (NoDup (map id rows) ->
        find (fun c => String.eqb (id c) ident) rows' = None).
Proof.
  induction rows as [|c rows IH]; simpl; [discriminate|].
  destruct (String.eqb_spec (id c) ident) as [Hc|Hc].
  - intros _. exists rows. split; [reflexivity|]. split; [reflexivity|]. split.
    + intros other Hne.
      destruct (String.eqb_spec (id c) other); [congruence|reflexivity].
    + intros Hnd. inversion Hnd as [|? ? Hnotin _]; subst.
      destruct (find (fun c0 => String.eqb (id c0) (id c)) rows) as [r|] eqn:Hr;
        [|reflexivity].
      apply find_some in Hr. destruct Hr as [Hin Heq].
      apply String.eqb_eq in Heq. exfalso. apply Hnotin.
      rewrite <- Heq. now apply in_map.
  - intros Hfind. destruct (IH Hfind) as (rows' & -> & Hlen & Hother & Hgone).
    eexists. split; [reflexivity|]. split; [simpl; congruence|]. split.
    + intros other Hne. simpl.
      destruct (String.eqb (id c) other); [reflexivity|now apply Hother].
    + intros Hnd. inversion Hnd; subst. simpl.
      destruct (String.eqb_spec (id c) ident); [congruence|]. now apply Hgone.
Qed.

End DatabaseFacts.

(** X8. A component created under an id no stored row carries is the row
    [getComponent] returns for that id afterwards, with both time stamps set
    to the time of the call; the rows under the other ids are found as
    before.  A store that is missing or unreadable counts as empty. *)
Theorem created_component_is_found :
  forall (ident code_ now other : string) (name_ : option string)
         (store : Database.Store),
    Database.getComponent ident store = None ->
    let created := Database.createComponent ident code_ name_ now store in
    Database.getComponent ident (snd created) = Some (fst created)
    /\ Database.id (fst created) = ident
    /\ Database.code (fst created) = code_
    /\ Database.created_at (fst created) = now
    /\ Database.updated_at (fst created) = now
    /\ (other <> ident ->
        Database.getComponent other (snd created)
        = Database.getComponent other store).
Proof.
  intros ident code_ now other name_ store Hfresh. simpl.
  unfold Database.getComponent in *. simpl.
  rewrite !DatabaseFacts.find_app_row, Hfresh. simpl.
  rewrite String.eqb_refl. repeat split.
  intros Hne.
  destruct (find (fun c => String.eqb (Database.id c) other)
              (Database.loadDb store)); [reflexivity|].
  destruct (String.eqb_spec ident other); [congruence|reflexivity].
Qed.

Lemma created_component_is_found_witness :
  let created :=
    Database.createComponent "a1" "<div />" None "2024-01-01T00:00:00.000Z" None in
  Database.getComponent "a1" (snd created) = Some (fst created)
  /\ Database.id (fst created) = "a1"
  /\ Database.code (fst created) = "<div />"
  /\ Database.created_at (fst created) = "2024-01-01T00:00:00.000Z"
  /\ Database.updated_at (fst created) = "2024-01-01T00:00:00.000Z"
  /\ ("b2" <> "a1" ->
      Database.getComponent "b2" (snd created) = Database.getComponent "b2" None).
Proof.
  apply (created_component_is_found "a1" "<div />" "2024-01-01T00:00:00.000Z"
           "b2" None None).
  reflexivity.
Defined.

(** X9. For an id no stored row carries, [updateComponent] returns
    [undefined] and [deleteComponent] returns [false], and neither writes the
    store. *)
Theorem store_misses_change_nothing :
  forall (ident code_ now : string) (name_ : option string)
         (store : Database.Store),
    Database.getComponent ident store = None ->
    Database.updateComponent ident code_ name_ now store = (None, store)
    /\ Database.deleteComponent ident store = (false, store).
Proof.
  intros ident code_ now name_ store Hmiss.
  unfold Database.updateComponent, Database.deleteComponent,
    Database.getComponent in *.
  now rewrite DatabaseFacts.update_first_none, DatabaseFacts.remove_first_none.
Qed.

Lemma store_misses_change_nothing_witness :
  Database.updateComponent "a1" "<p />" None "t" None = (None, None)
  /\ Database.deleteComponent "a1" None = (false, None).
Proof.
  apply (store_misses_change_nothing "a1" "<p />" "t" None None). reflexivity.
Defined.

(** X10. Updating a stored component returns the row [getComponent] finds
    afterwards: it has the new code and the time of the call as its update
    stamp, keeps its id and its creation stamp, and keeps its name unless a
    name is given; no row is added or removed, and the rows under the other
    ids are found as before. *)
Theorem updated_component_is_found :
  forall (ident code_ now other : string) (name_ : option string)
         (store : Database.Store) (row : Database.ComponentRow),
    Database.getComponent ident store = Some row ->
    exists row' rows',
      Database.updateComponent ident code_ name_ now store
      = (Some row', Some rows')
      /\ Database.getComponent ident (Some rows') = Some row'
      /\ Database.id row' = Database.id row
      /\ Database.code row' = code_
      /\ Database.created_at row' = Database.created_at row
      /\ Database.updated_at row' = now
      /\ Database.name row'
         = match name_ with Some n => n | None => Database.name row end
      /\ List.length rows' = List.length (Database.loadDb store)
      /\ (other <> ident ->
          Database.getComponent other (Some rows')
          = Database.getComponent other store).
Proof.
  intros ident code_ now other name_ store row Hfound.
  unfold Database.getComponent, Database.updateComponent in *.
  destruct (DatabaseFacts.update_first_some ident code_ name_ now _ row Hfound)
    as (rows' & -> & Hlen & Hother).
  exists (Database.updated_row row code_ name_ now), rows'.
  split; [reflexivity|]. simpl.
  split; [now rewrite Hother, String.eqb_refl|].
  repeat split; try assumption.
  intros Hne. rewrite Hother.
  destruct (String.eqb_spec other ident); [congruence|reflexivity].
Qed.

Lemma updated_component_is_found_witness :
  exists row' rows',
    Database.updateComponent "a1" "<p />" None "t2"
      (snd (Database.createComponent "a1" "<div />" (Some "Card") "t1" None))
    = (Some row', Some rows')
    /\ Database.getComponent "a1" (Some rows') = Some row'
    /\ Database.id row' = "a1"
    /\ Database.code row' = "<p />"
    /\ Database.created_at row' = "t1"
    /\ Database.updated_at row' = "t2"
    /\ Database.name row' = "Card"
    /\ List.length rows' = 1
    /\ ("b2" <> "a1" ->
        Database.getComponent "b2" (Some rows')
        = Database.getComponent "b2"
            (snd (Database.createComponent "a1" "<div />" (Some "Card") "t1" None))).
Proof.
  apply (updated_component_is_found "a1" "<p />" "t2" "b2" None
           (snd (Database.createComponent "a1" "<div />" (Some "Card") "t1" None))
           (fst (Database.createComponent "a1" "<div />" (Some "Card") "t1" None))).
  reflexivity.
Defined.

(** X11. Deleting a stored component returns [true] and removes exactly one
    row; the rows under the other ids are found as before, and when no two
    rows share an id the deleted id is found no more. *)
Theorem deleted_component_is_gone :
  forall (ident other : string) (store : Database.Store)
         (row : Database.ComponentRow),
    Database.getComponent ident store = Some row ->
    exists rows',
      Database.deleteComponent ident store = (true, Some rows')
      /\ S (List.length rows') = List.length (Database.loadDb store)
      /\ (other <> ident ->
          Database.getComponent other (Some rows')
          = Database.getComponent other store)
      /\ (NoDup (map Database.id (Database.loadDb store)) ->
          Database.getComponent ident (Some rows') = None).
Proof.
  intros ident other store row Hfound.
  unfold Database.getComponent, Database.deleteComponent in *.
  destruct (DatabaseFacts.remove_first_some ident _ row Hfound)
    as (rows' & -> & Hlen & Hother & Hgone).
  exists rows'. repeat split; auto.
Qed.

Lemma deleted_component_is_gone_witness :
  exists rows',
    Database.deleteComponent "a1"
      (snd (Database.createComponent "a1" "<div />" None "t1" None))
    = (true, Some rows')
    /\ S (List.length rows') = 1
    /\ ("b2" <> "a1" ->
        Database.getComponent "b2" (Some rows')
        = Database.getComponent "b2"
            (snd (Database.createComponent "a1" "<div />" None "t1" None)))
    /\ (NoDup (map Database.id
                 (Database.loadDb
                    (snd (Database.createComponent "a1" "<div />" None "t1" None)))) ->
        Database.getComponent "a1" (Some rows') = None).
Proof.
  apply (deleted_component_is_gone "a1" "b2"
           (snd (Database.createComponent "a1" "<div />" None "t1" None))
           (fst (Database.createComponent "a1" "<div />" None "t1" None))).
  reflexivity.
Defined.

(** ** Debouncing *)

Module DebounceFacts.
Import Debounce.

Section Calls.

Context {A : Type}.

Lemma last_after_cons (l : list A) (a b : A) : last (b :: l) a = last l b.
Proof.
  revert a b. induction l as [|c l IH]; intros a b; [reflexivity|].
  change (last (b :: c :: l) a) with (last (c :: l) a).
  rewrite IH. symmetry. apply IH.
Qed.

Lemma burst_keeps_last (delay : nat) (rest : list (nat * A)) :
  Forall (fun c => fst c < delay) rest ->
  forall (a : A) (calls : list A),
    fold_left (step delay) (burst rest) (Some (a, delay), calls)
    = (Some (last (map snd rest) a, delay), calls).
Proof.
  induction 1 as [|[pause b] rest Hpause _ IH]; intros a calls; [reflexivity|].
  simpl in Hpause.
  change (burst ((pause, b) :: rest))
    with (Elapse pause :: Invoke b :: burst rest).
  cbn [fold_left].
  replace (step delay (Some (a, delay), calls) (Elapse pause))
    with (Some (a, delay - pause), calls)
    by (cbn; destruct (Nat.leb_spec delay pause); [lia|reflexivity]).
  cbn [step]. rewrite IH.
  cbn [map snd]. now rewrite last_after_cons.
Qed.

Lemma step_accounted (delay : nat) (state : Timer A * list A)
    (seen : list A) (event : Event A) :
  accounted state seen ->
  accounted (step delay state event) (seen ++ invoked [event])%list.
Proof.
  destruct state as [timer calls]. unfold accounted. simpl.
  intros (Hcount & Hcalls & Hpending).
  destruct event as [args|ms]; simpl.
  - rewrite length_app. simpl. split; [|split].
    + destruct timer; lia.
    + intros x Hx. apply in_or_app. left. now apply Hcalls.
    + intros x remaining Heq. inversion Heq; subst.
      apply in_or_app. right. now left.
  - rewrite app_nil_r. destruct timer as [[args remaining]|]; simpl.
    + destruct (Nat.leb remaining ms); simpl.
      * rewrite length_app. simpl. split; [lia|]. split; [|discriminate].
        intros x Hx. apply in_app_or in Hx. destruct Hx as [Hx|[<-|[]]].
        -- now apply Hcalls.
        -- now apply (Hpending args remaining).
      * split; [lia|]. split; [exact Hcalls|].
        intros x r Heq. inversion Heq; subst. now apply (Hpending x remaining).
    + split; [lia|]. split; [exact Hcalls|]. discriminate.
Qed.

Lemma run_accounted (delay : nat) (events : list (Event A)) :
  forall state seen,
    accounted state seen ->
    accounted (fold_left (step delay) events state) (seen ++ invoked events)%list.
Proof.
  induction events as [|event events IH]; intros state seen Hacc.
  - simpl. now rewrite app_nil_r.
  - apply (step_accounted delay state seen event) in Hacc.
    apply IH in Hacc. rewrite <- app_assoc in Hacc.
    replace (invoked (event :: events))
      with (invoked [event] ++ invoked events)%list
      by (unfold invoked; simpl; now rewrite app_nil_r).
    exact Hacc.
Qed.

End Calls.

End DebounceFacts.

(** X12. A debounced function that is called several times, each call less
    than the delay after the one before, and then left alone for the delay
    or longer, runs the function exactly once, with the arguments of the
    last call. *)
Theorem debounce_runs_the_last_call :
  forall (A : Type) (delay pause wait : nat) (first : A) (rest : list (nat * A)),
    Forall (fun c => fst c < delay) rest ->
    delay <= wait ->
    Debounce.emitted delay
      (Debounce.burst ((pause, first) :: rest) ++ [Debounce.Elapse wait])
    = [last (map snd rest) first].
Proof.
  intros A delay pause wait first rest Hrest Hwait.
  unfold Debounce.emitted, Debounce.run.
  rewrite fold_left_app.
  change (Debounce.burst ((pause, first) :: rest))
    with (Debounce.Elapse pause :: Debounce.Invoke first :: Debounce.burst rest).
  cbn [fold_left Debounce.step].
  rewrite (DebounceFacts.burst_keeps_last delay rest Hrest).
  cbn [fold_left Debounce.step].
  destruct (Nat.leb_spec delay wait) as [_|Hlt]; [reflexivity|lia].
Qed.

Lemma debounce_runs_the_last_call_witness :
  Debounce.emitted 2000
    (Debounce.burst [(0, "a"); (500, "b"); (1999, "c")] ++ [Debounce.Elapse 2000])
  = ["c"].
Proof.
  apply (debounce_runs_the_last_call string 2000 0 2000 "a"
           [(500, "b"); (1999, "c")]).
  - repeat constructor; simpl; lia.
  - lia.
Defined.

(** X13. Whatever the history of calls and pauses, the debounced function
    runs the function at most as often as it was called itself, and only
    with arguments it was called with. *)
Theorem debounce_never_invents_calls :
  forall (A : Type) (delay : nat) (events : list (Debounce.Event A)),
    List.length (Debounce.emitted delay events)
    <= List.length (Debounce.invoked events)
    /\ forall args,
         In args (Debounce.emitted delay events) ->
         In args (Debounce.invoked events).
Proof.
  intros A delay events.
  assert (Hstart : @Debounce.accounted A (None, []) []).
  { unfold Debounce.accounted. simpl. repeat split; try lia; try tauto.
    discriminate. }
  apply (DebounceFacts.run_accounted delay events) in Hstart.
  destruct Hstart as (Hcount & Hcalls & _). simpl in *.
  unfold Debounce.emitted, Debounce.run. split; [lia|exact Hcalls].
Qed.

(** ** Escaped strings *)

Module EscapeFacts.

Lemma append_assoc (a b c : string) : ((a ++ b) ++ c = a ++ (b ++ c))%string.
Proof. induction a as [|x a IH]; simpl; [reflexivity|]. now rewrite IH. Qed.

Lemma chars_app (a b : string) :
  JsString.chars (a ++ b) = (JsString.chars a ++ JsString.chars b)%list.
Proof.
  unfold JsString.chars. induction a as [|x a IH]; simpl; [reflexivity|].
  now rewrite IH.
Qed.

Lemma escapeString_cons (c : ascii) (s : string) :
  escapeString (String c s) = escape_unit c ++ escapeString s.
Proof.
  unfold escapeString, escape_unit. cbn [replace_all].
  destruct (Ascii.eqb c "\"%char); [reflexivity|].
  cbn [replace_all].
  destruct (Ascii.eqb c (ascii_of_nat 34)); [reflexivity|].
  cbn [replace_all].
  destruct (Ascii.eqb c (ascii_of_nat 10)); reflexivity.
Qed.

Lemma escape_unit_cases (c : ascii) :
  (c = "\"%char /\ escape_unit c = "\\")
  \/ (c = ascii_of_nat 34 /\ escape_unit c = "\" ++ DQ)
  \/ (c = ascii_of_nat 10 /\ escape_unit c = "\n")
  \/ (c <> "\"%char /\ c <> ascii_of_nat 34 /\ c <> ascii_of_nat 10
      /\ escape_unit c = String c EmptyString).
Proof.
  unfold escape_unit.
  destruct (Ascii.eqb_spec c "\"%char) as [->|H1]; [now left|].
  destruct (Ascii.eqb_spec c (ascii_of_nat 34)) as [->|H2]; [right; now left|].
  destruct (Ascii.eqb_spec c (ascii_of_nat 10)) as [->|H3];
    [right; right; now left|].
  right. right. right. now repeat split.
Qed.

End EscapeFacts.

(** X14. [escapeString] is injective: two attribute strings that differ are
    serialized as different texts. *)
Theorem escapeString_injective :
  forall a b : string, escapeString a = escapeString b -> a = b.
Proof.
  induction a as [|c a IH]; intros [|d b] H.
  - reflexivity.
  - rewrite EscapeFacts.escapeString_cons in H. exfalso.
    destruct (EscapeFacts.escape_unit_cases d)
      as [[_ E]|[[_ E]|[[_ E]|(_ & _ & _ & E)]]];
      rewrite E in H; discriminate H.
  - rewrite EscapeFacts.escapeString_cons in H. exfalso.
    destruct (EscapeFacts.escape_unit_cases c)
      as [[_ E]|[[_ E]|[[_ E]|(_ & _ & _ & E)]]];
      rewrite E in H; discriminate H.
  - rewrite !EscapeFacts.escapeString_cons in H.
    destruct (EscapeFacts.escape_unit_cases c)
      as [[Hc Ec]|[[Hc Ec]|[[Hc Ec]|(Hc & _ & _ & Ec)]]];
      destruct (EscapeFacts.escape_unit_cases d)
        as [[Hd Ed]|[[Hd Ed]|[[Hd Ed]|(Hd & _ & _ & Ed)]]];
      rewrite Ec, Ed in H; clear Ec Ed; simpl in H; inversion H; subst;
      try congruence; f_equal; now apply IH.
Qed.

Lemma escapeString_injective_witness :
  escapeString ("a\b" ++ DQ) = escapeString ("a\b" ++ DQ)
  /\ ("a\b" ++ DQ)%string = ("a\b" ++ DQ)%string.
Proof.
  split; [reflexivity|].
  apply (escapeString_injective ("a\b" ++ DQ) ("a\b" ++ DQ)). reflexivity.
Defined.

(** X15. The text [escapeString] returns has no line break in it, and a
    double quote stands in it only right after a backslash. *)
Theorem escapeString_is_one_line :
  forall s : string,
    ~ In (ascii_of_nat 10) (JsString.chars (escapeString s))
    /\ forall before after,
         JsString.chars (escapeString s)
         = (before ++ ascii_of_nat 34 :: after)%list ->
         exists before', before = (before' ++ ["\"%char])%list.
Proof.
  change (ascii_of_nat 10) with "010"%char.
  change (ascii_of_nat 34) with "034"%char.
  induction s as [|c s [IHline IHquote]].
  - split; [intros []|]. intros [|x before] after H; discriminate H.
  - rewrite EscapeFacts.escapeString_cons, EscapeFacts.chars_app.
    destruct (EscapeFacts.escape_unit_cases c)
      as [[-> E]|[[-> E]|[[-> E]|(H1 & H2 & H3 & E)]]]; rewrite E;
      change (ascii_of_nat 10) with "010"%char in *;
      change (ascii_of_nat 34) with "034"%char in *; simpl; split.
    + intros [H|[H|H]]; try discriminate H. exact (IHline H).
    + intros before after H. simpl in H.
      destruct before as [|x [|y before]]; try discriminate H.
      inversion H as [[Hx Hy Hrest]]. apply IHquote in Hrest.
      destruct Hrest as [before' ->]. now eexists (_ :: _ :: before').
    + intros [H|[H|H]]; try discriminate H. exact (IHline H).
    + intros before after H. simpl in H.
      destruct before as [|x [|y before]]; try discriminate H.
      * inversion H; subst. now exists [].
      * inversion H as [[Hx Hy Hrest]]. apply IHquote in Hrest.
        destruct Hrest as [before' ->]. now eexists (_ :: _ :: before').
    + intros [H|[H|H]]; try discriminate H. exact (IHline H).
    + intros before after H. simpl in H.
      destruct before as [|x [|y before]]; try discriminate H.
      inversion H as [[Hx Hy Hrest]]. apply IHquote in Hrest.
      destruct Hrest as [before' ->]. now eexists (_ :: _ :: before').
    + intros [H|H]; [congruence|exact (IHline H)].
    + intros before after H. simpl in H.
      destruct before as [|x before]; simpl in H.
      * inversion H. congruence.
      * inversion H as [[Hx Hrest]]. apply IHquote in Hrest.
        destruct Hrest as [before' ->]. now eexists (_ :: before').
Qed.

(** ** Rendering *)

Lemma valid_tags_are_lower_case :
  forallb (fun tag => String.eqb (getValidTagName tag) tag) validTags = true.
Proof. vm_compute. reflexivity. Qed.

Lemma getValidTagName_in (tag : string) : In (getValidTagName tag) validTags.
Proof.
  unfold getValidTagName.
  destruct (existsb (String.eqb (JsString.toLowerCase tag)) validTags) eqn:Hex.
  - apply existsb_exists in Hex. destruct Hex as (v & Hv & Heq).
    apply String.eqb_eq in Heq. now rewrite Heq.
  - simpl. tauto.
Qed.

(** X16. [getValidTagName] returns a supported tag as it is, a tag whose
    lower-case form is supported in that form, and [div] for every other
    tag: whatever the tag it is given, the tag it returns is in the list of
    supported tags, and it returns its own results unchanged. *)
Theorem getValidTagName_is_supported :
  forall tag : string,
    In (getValidTagName tag) validTags
    /\ (In tag validTags -> getValidTagName tag = tag)
    /\ (In (JsString.toLowerCase tag) validTags ->
        getValidTagName tag = JsString.toLowerCase tag)
    /\ (~ In (JsString.toLowerCase tag) validTags ->
        getValidTagName tag = "div")
    /\ getValidTagName (getValidTagName tag) = getValidTagName tag.
Proof.
  intros tag.
  pose proof (getValidTagName_in tag) as Hin.
  pose proof valid_tags_are_lower_case as Hall.
  rewrite forallb_forall in Hall.
  split; [exact Hin|].
  split; [intros Htag; apply String.eqb_eq; now apply Hall|].
  split; [|split].
  - intros Hlower. unfold getValidTagName.
    destruct (existsb (String.eqb (JsString.toLowerCase tag)) validTags) eqn:Hex;
      [reflexivity|].
    assert (Htrue : existsb (String.eqb (JsString.toLowerCase tag)) validTags
                    = true).
    { apply existsb_exists. exists (JsString.toLowerCase tag).
      split; [exact Hlower|apply String.eqb_refl]. }
    congruence.
  - intros Hnot. unfold getValidTagName.
    destruct (existsb (String.eqb (JsString.toLowerCase tag)) validTags) eqn:Hex;
      [|reflexivity].
    apply existsb_exists in Hex. destruct Hex as (v & Hv & Heq).
    apply String.eqb_eq in Heq. subst v. contradiction.
  - apply String.eqb_eq. now apply Hall.
Qed.

Lemma set_keys_incl (o : Obj) (k : string) (v : JsVal) (x : string) :
  In x (JsObject.keys (JsObject.set o k v)) -> x = k \/ In x (JsObject.keys o).
Proof.
  unfold JsObject.set. destruct (JsObject.has o k) eqn:Hhas.
  - rewrite ObjectFacts.keys_replace. tauto.
  - intros Hin.
    assert (Hx : In x (k :: JsObject.keys o)).
    { apply (Permutation_in _ (ObjectFacts.keys_set_new o k v Hhas)).
      unfold JsObject.set. now rewrite Hhas. }
    destruct Hx as [<-|Hx]; [now left|now right].
Qed.

Section StyleKeys.

Context {host : Host}.

Lemma set_listed (o : Obj) (k : string) (v : JsVal) :
  In k style_properties -> listed o -> listed (JsObject.set o k v).
Proof.
  intros Hk Ho x Hx. apply set_keys_incl in Hx.
  destruct Hx as [->|Hx]; [exact Hk|now apply Ho].
Qed.

Lemma set_when_listed (c : bool) (k v : string) (o : Obj) :
  In k style_properties -> listed o -> listed (set_when c k v o).
Proof.
  intros Hk Ho. unfold set_when. destruct c; [now apply set_listed|exact Ho].
Qed.

Lemma color_rule_listed (prefix target : string) (excluded : list string)
    (cls : string) (o : Obj) :
  In target style_properties -> listed o ->
  listed (color_rule prefix target excluded cls o).
Proof.
  intros Hk Ho. unfold color_rule.
  destruct (Regex.exec (Patterns.color prefix) cls) as [m|]; [|exact Ho].
  destruct (Regex.capture m 1) as [name|]; [|exact Ho].
  destruct (existsb (String.eqb name) excluded); [exact Ho|].
  match goal with |- context [truthy ?f] => destruct (truthy f) end;
    [now apply set_listed|exact Ho].
Qed.

Lemma spacing_rule_listed (prefix : string) (targets : list string)
    (cls : string) (o : Obj) :
  Forall (fun t => In t style_properties) targets -> listed o ->
  listed (spacing_rule prefix targets cls o).
Proof.
  intros Hk Ho. unfold spacing_rule.
  destruct (Regex.exec (Patterns.spacing prefix) cls) as [m|]; [|exact Ho].
  destruct (Regex.capture m 1) as [digits|]; [|exact Ho].
  revert o Ho. induction Hk as [|t targets Ht _ IH]; simpl; intros o Ho;
    [exact Ho|].
  apply IH. now apply set_listed.
Qed.

Lemma font_size_rule_listed (cls : string) (o : Obj) :
  listed o -> listed (font_size_rule cls o).
Proof.
  intros Ho. unfold font_size_rule.
  destruct (Regex.test Patterns.font_size cls); [|exact Ho].
  apply set_listed; [simpl; tauto|exact Ho].
Qed.

Lemma class_step_listed (o : Obj) (cls : string) :
  listed o -> listed (class_step o cls).
Proof.
  intros Ho. unfold class_step.
  repeat first
    [ apply set_when_listed; [simpl; tauto|]
    | apply color_rule_listed; [simpl; tauto|]
    | apply spacing_rule_listed; [repeat constructor; simpl; tauto|]
    | apply font_size_rule_listed ].
  exact Ho.
Qed.

End StyleKeys.

Lemma rendered_child (options : RenderOptions) (cs : list EditorNode) (v : View) :
  In v (flat_map view_elements (map (fun child => renderNode child options) cs)) ->
  exists c, In c cs /\ In v (view_elements (renderNode c options)).
Proof.
  intros Hin. apply in_flat_map in Hin. destruct Hin as (w & Hw & Hv).
  apply in_map_iff in Hw. destruct Hw as (c & <- & Hc). now exists c.
Qed.

Lemma nodes_of_child (root c n : EditorNode) :
  In c (children root) -> In n (nodes c) -> In n (nodes root).
Proof.
  intros Hc Hn. rewrite nodes_eq. right. apply in_flat_map. now exists c.
Qed.

Lemma rendered_attributes (base style : Obj) (ident : string)
    (className : JsVal) :
  let attributes :=
    JsObject.set
      (JsObject.set (JsObject.set base "key" (VStr ident))
         "data-editor-id" (VStr ident))
      "style" (VObj style) in
  JsObject.get
    match className with
    | VStr name => JsObject.set attributes "className" (VStr name)
    | _ => attributes
    end "data-editor-id"
  = Some (VStr ident).
Proof.
  cbv zeta. destruct className; rewrite !ObjectFacts.get_set; reflexivity.
Qed.

(** X18. Every element of the view [renderNode] builds, at any depth, comes
    from an element node of the tree: it carries the id of that node as its
    [data-editor-id], its click handler stops the propagation of the event
    and selects that id and no other, its double-click handler is the one
    of that node, and its tag is a supported tag. *)
Theorem rendered_elements_carry_their_node :
  forall (tree : EditorNode) (options : RenderOptions) (v : View),
    In v (view_elements (renderNode tree options)) ->
    exists node,
      In node (nodes tree)
      /\ type node = element
      /\ JsObject.get (view_attributes v) "data-editor-id" = Some (VStr (id node))
      /\ view_onClick v = [StopPropagation; OnSelect (id node)]
      /\ view_onDoubleClick v = onDoubleClick_of node options
      /\ In (view_tag v) validTags.
Proof.
  intros tree options.
  induction tree as [n IH] using EditorNode_children_ind.
  intros v Hin.
  assert (Hbelow :
            In v (flat_map view_elements
                    (map (fun child => renderNode child options) (children n))) ->
            exists node,
              In node (nodes n) /\ type node = element
              /\ JsObject.get (view_attributes v) "data-editor-id"
                 = Some (VStr (id node))
              /\ view_onClick v = [StopPropagation; OnSelect (id node)]
              /\ view_onDoubleClick v = onDoubleClick_of node options
              /\ In (view_tag v) validTags).
  { intros Hv. apply rendered_child in Hv. destruct Hv as (c & Hc & Hv).
    rewrite Forall_forall in IH.
    destruct (IH c Hc v Hv) as (node & Hnode & Hrest).
    exists node. split; [now apply (nodes_of_child n c)|exact Hrest]. }
  destruct n as [i ty tag p pp cs tc os]. simpl in Hbelow.
  destruct ty;
    cbn [renderNode type tagName id children textContent props
           props_prototype] in Hin.
  - destruct (option_string_is tag "Fragment").
    + now apply Hbelow.
    + cbn [view_elements] in Hin. destruct Hin as [<-|Hin].
      * eexists. split; [rewrite nodes_eq; now left|].
        split; [reflexivity|].
        cbn [view_attributes view_onClick view_onDoubleClick view_tag].
        split; [apply rendered_attributes|].
        split; [reflexivity|]. split; [reflexivity|].
        apply getValidTagName_in.
      * destruct cs as [|c cs]; [destruct Hin|]. now apply Hbelow.
  - destruct (option_string_is (editingId options) i && has_onTextEdit options);
      destruct Hin.
Qed.

Lemma rendered_elements_carry_their_node_witness :
  exists node,
    In node (nodes Sample.two_texts)
    /\ type node = element
    /\ JsObject.get
         (view_attributes
            (nth 1 (view_elements (renderNode Sample.two_texts Sample.options))
               (ViewString "")))
         "data-editor-id" = Some (VStr (id node))
    /\ view_onClick
         (nth 1 (view_elements (renderNode Sample.two_texts Sample.options))
            (ViewString ""))
       = [StopPropagation; OnSelect (id node)]
    /\ view_onDoubleClick
         (nth 1 (view_elements (renderNode Sample.two_texts Sample.options))
            (ViewString ""))
       = onDoubleClick_of node Sample.options
    /\ In (view_tag
             (nth 1 (view_elements (renderNode Sample.two_texts Sample.options))
                (ViewString "")))
         validTags.
Proof.
  apply (rendered_elements_carry_their_node Sample.two_texts Sample.options).
  right. left. reflexivity.
Defined.

(** X19. A text node that is being edited renders as the input of
    [EditableText], seeded with the text of the node.  In that input the
    Enter key and the loss of focus commit the text the input holds, through
    [onTextEdit] with the id of the node and then [onStopEditing]; the
    Escape key stops the editing without a commit; no other key calls
    back. *)
Theorem inline_editing_commits_or_cancels :
  forall (node : EditorNode) (options : RenderOptions) (held key : string),
    type node = text ->
    option_string_is (editingId options) (id node) = true ->
    has_onTextEdit options = true ->
    exists onSave onCancel,
      renderNode node options
      = ViewEditableText (id node) (or_default (textContent node) "")
          onSave onCancel
      /\ handleKeyDown onSave onCancel held "Enter"
         = PreventDefault :: OnTextEdit (id node) held
             :: (if has_onStopEditing options then [OnStopEditing] else [])
      /\ onBlur onSave held
         = OnTextEdit (id node) held
             :: (if has_onStopEditing options then [OnStopEditing] else [])
      /\ handleKeyDown onSave onCancel held "Escape"
         = (if has_onStopEditing options then [OnStopEditing] else [])
      /\ (In (OnTextEdit (id node) held) (handleKeyDown onSave onCancel held key)
          <-> key = "Enter").
Proof.
  intros node options held key Hty Hediting Hcallback.
  destruct node as [i ty tag p pp cs tc os]. simpl in *. subst ty.
  rewrite Hediting, Hcallback. simpl.
  eexists _, _. split; [reflexivity|].
  split; [reflexivity|]. split; [reflexivity|]. split; [reflexivity|].
  unfold handleKeyDown.
  destruct (String.eqb_spec key "Enter") as [->|Hne].
  - split; [reflexivity|]. intros _. right. now left.
  - split; [|congruence]. intros Hin. exfalso.
    destruct (String.eqb key "Escape"); [|destruct Hin].
    destruct (has_onStopEditing options); simpl in Hin;
      intuition discriminate.
Qed.

Lemma inline_editing_commits_or_cancels_witness :
  exists onSave onCancel,
    renderNode (Sample.plain "t1" "Hello")
      {| selectedId := None; editingId := Some "t1"; has_onTextEdit := true;
         has_onStartEditing := true; has_onStopEditing := true |}
    = ViewEditableText "t1" "Hello" onSave onCancel
    /\ handleKeyDown onSave onCancel "Hi" "Enter"
       = [PreventDefault; OnTextEdit "t1" "Hi"; OnStopEditing]
    /\ onBlur onSave "Hi" = [OnTextEdit "t1" "Hi"; OnStopEditing]
    /\ handleKeyDown onSave onCancel "Hi" "Escape" = [OnStopEditing]
    /\ (In (OnTextEdit "t1" "Hi") (handleKeyDown onSave onCancel "Hi" "Tab")
        <-> "Tab" = "Enter").
Proof.
  apply (inline_editing_commits_or_cancels (Sample.plain "t1" "Hello")
           {| selectedId := None; editingId := Some "t1"; has_onTextEdit := true;
              has_onStartEditing := true; has_onStopEditing := true |}
           "Hi" "Tab"); reflexivity.
Defined.

(** ** The trees the parser builds *)

Module ShapeFacts.
Import JsObject.

Lemma array_index_text (k : string) (i : N) :
  array_index k = Some i -> k = JsString.of_N i.
Proof.
  unfold array_index.
  destruct (String.eqb_spec (JsString.of_N (JsString.to_N k)) k) as [Heq|];
    [|discriminate].
  destruct (N.leb (JsString.to_N k) max_array_index); [|discriminate].
  simpl. intros H. inversion H; subst. now symmetry.
Qed.

Lemma key_before_trans (a b c : string) :
  key_before a b = true -> key_before b c = true -> key_before a c = true.
Proof.
  unfold key_before.
  destruct (array_index a) as [i|], (array_index b) as [j|],
    (array_index c) as [l|]; try reflexivity; try discriminate.
  rewrite !N.ltb_lt. lia.
Qed.

Lemma canonical_cons (k : string) (v : JsVal) (o : Obj) :
  canonical ((k, v) :: o) =
  forallb (fun kv => negb (String.eqb k (fst kv)) && key_before k (fst kv)) o
  && canonical o.
Proof. reflexivity. Qed.

Lemma canonical_keys (o o' : Obj) :
  keys o = keys o' -> canonical o = canonical o'.
Proof.
  revert o'. induction o as [|[k v] o IH]; intros [|[k' v'] o'] H;
    try discriminate; [reflexivity|].
  simpl in H. inversion H as [[Hk Hrest]]. subst k'.
  rewrite !canonical_cons, (IH o' Hrest). f_equal.
  clear -Hrest. revert o' Hrest.
  induction o as [|[a x] o IH]; intros [|[b y] o'] H; try discriminate;
    [reflexivity|].
  simpl in H. inversion H as [[Ha Hrest]]. subst b. simpl.
  now rewrite (IH o' Hrest).
Qed.

Lemma absent_from_all (o : Obj) (k : string) :
  has o k = false ->
  forall kv, In kv o -> String.eqb k (fst kv) = false.
Proof.
  intros Hhas kv Hin. apply ObjectFacts.has_false_iff in Hhas.
  apply String.eqb_neq. intros ->. apply Hhas. now apply in_map.
Qed.

Lemma canonical_snoc (o : Obj) (k : string) (v : JsVal) :
  canonical o = true -> has o k = false -> array_index k = None ->
  canonical (o ++ [(k, v)])%list = true.
Proof.
  intros Hcan Hhas Hidx.
  induction o as [|[k0 v0] o IH]; [reflexivity|].
  rewrite canonical_cons in Hcan. apply andb_prop in Hcan.
  destruct Hcan as [Hall Hcan].
  assert (Hne : String.eqb k0 k = false).
  { unfold has in Hhas. simpl in Hhas. destruct (String.eqb k0 k);
      [discriminate|reflexivity]. }
  assert (Hhas' : has o k = false).
  { unfold has in *. simpl in Hhas. now rewrite Hne in Hhas. }
  simpl app. rewrite canonical_cons, forallb_app, Hall, (IH Hcan Hhas').
  simpl. rewrite Hne. unfold key_before. rewrite Hidx.
  now destruct (array_index k0).
Qed.

Lemma forallb_insert_index (f : string * JsVal -> bool) (i : N) (k : string)
    (v : JsVal) (o : Obj) :
  forallb f (insert_index i k v o) = f (k, v) && forallb f o.
Proof.
  induction o as [|[k0 v0] o IH]; simpl; [reflexivity|].
  destruct (array_index k0) as [j|]; [destruct (N.ltb j i)|]; simpl;
    try reflexivity.
  rewrite IH. now destruct (f (k, v)), (f (k0, v0)).
Qed.

Lemma canonical_insert_index (o : Obj) (i : N) (k : string) (v : JsVal) :
  canonical o = true -> has o k = false -> array_index k = Some i ->
  canonical (insert_index i k v o) = true.
Proof.
  intros Hcan Hhas Hidx.
  induction o as [|[k0 v0] o IH]; [reflexivity|].
  pose proof Hcan as Hcan0.
  rewrite canonical_cons in Hcan. apply andb_prop in Hcan.
  destruct Hcan as [Hall Hcan].
  assert (Hne : String.eqb k0 k = false).
  { unfold has in Hhas. simpl in Hhas. destruct (String.eqb k0 k);
      [discriminate|reflexivity]. }
  assert (Hhas' : has o k = false).
  { unfold has in *. simpl in Hhas. now rewrite Hne in Hhas. }
  assert (Hfirst : forall rest,
             key_before k k0 = true ->
             rest = (k0, v0) :: o ->
             canonical ((k, v) :: rest) = true).
  { intros rest Hbefore ->. rewrite canonical_cons, Hcan0, andb_true_r.
    simpl. rewrite String.eqb_sym, Hne, Hbefore. simpl.
    apply forallb_forall. intros kv Hin.
    rewrite (absent_from_all o k Hhas' kv Hin). simpl.
    apply (key_before_trans k k0); [exact Hbefore|].
    rewrite forallb_forall in Hall. specialize (Hall kv Hin).
    apply andb_prop in Hall. tauto. }
  simpl. destruct (array_index k0) as [j|] eqn:Hj.
  - destruct (N.ltb j i) eqn:Hlt.
    + rewrite canonical_cons, forallb_insert_index, Hall, (IH Hcan Hhas').
      simpl. rewrite Hne. unfold key_before. now rewrite Hj, Hidx, Hlt.
    + apply Hfirst; [|reflexivity]. unfold key_before. rewrite Hidx, Hj.
      apply N.ltb_lt. apply N.ltb_ge in Hlt.
      assert (i <> j).
      { intros ->. apply array_index_text in Hidx, Hj.
        rewrite <- Hidx in Hj. subst k0. now rewrite String.eqb_refl in Hne. }
      lia.
  - apply Hfirst; [|reflexivity]. unfold key_before. now rewrite Hidx, Hj.
Qed.

(** An assignment keeps the keys of an object distinct and in order. *)
Lemma set_canonical (o : Obj) (k : string) (v : JsVal) :
  canonical o = true -> canonical (set o k v) = true.
Proof.
  intros Hcan. unfold set. destruct (has o k) eqn:Hhas.
  - now rewrite (canonical_keys _ o (ObjectFacts.keys_replace o k v)).
  - destruct (array_index k) as [i|] eqn:Hidx.
    + now apply canonical_insert_index.
    + now apply canonical_snoc.
Qed.

Lemma in_replace (o : Obj) (k : string) (v : JsVal) (kv : string * JsVal) :
  In kv (replace o k v) -> kv = (k, v) \/ In kv o.
Proof.
  induction o as [|[k0 v0] o IH]; simpl; [tauto|].
  destruct (String.eqb_spec k0 k) as [->|_]; simpl.
  - intros [<-|H]; tauto.
  - intros [<-|H]; [tauto|]. destruct (IH H); tauto.
Qed.

Lemma in_insert_index (o : Obj) (i : N) (k : string) (v : JsVal)
    (kv : string * JsVal) :
  In kv (insert_index i k v o) -> kv = (k, v) \/ In kv o.
Proof.
  induction o as [|[k0 v0] o IH]; simpl; [intuition|].
  destruct (array_index k0) as [j|]; [destruct (N.ltb j i)|]; simpl;
    intuition.
Qed.

Lemma in_set (o : Obj) (k : string) (v : JsVal) (kv : string * JsVal) :
  In kv (set o k v) -> kv = (k, v) \/ In kv o.
Proof.
  unfold set. destruct (has o k); [apply in_replace|].
  destruct (array_index k); [apply in_insert_index|].
  intros H. apply in_app_or in H. simpl in H. intuition.
Qed.

(** What an assignment keeps: canonical keys, and a property [good] of the
    values when the assigned value has it. *)
Lemma assign_member_keeps (good : JsVal -> bool) (o : Obj) (k : string)
    (v : JsVal) :
  good v = true ->
  canonical o = true /\ forallb (fun kv => good (snd kv)) o = true ->
  canonical (assign_member o k v) = true
  /\ forallb (fun kv => good (snd kv)) (assign_member o k v) = true.
Proof.
  intros Hv [Hcan Hall]. unfold assign_member.
  destruct (String.eqb k "__proto__"); [now split|].
  split; [now apply set_canonical|].
  apply forallb_forall. intros kv Hin. apply in_set in Hin.
  destruct Hin as [->|Hin]; [exact Hv|].
  rewrite forallb_forall in Hall. now apply Hall.
Qed.

(** The same for the object with its prototype: an object assigned to
    [__proto__] is the prototype afterwards. *)
Lemma assign_through_keeps (o : Obj * option Obj) (k : string) (v : JsVal) :
  is_attribute_value v = true ->
  canonical (fst o) = true
  /\ forallb (fun kv => is_attribute_value (snd kv)) (fst o) = true
  /\ match snd o with
     | Some inherited =>
         canonical inherited
         && forallb (fun kv => is_primitive (snd kv)) inherited
     | None => true
     end = true ->
  canonical (fst (assign_through o k v)) = true
  /\ forallb (fun kv => is_attribute_value (snd kv))
       (fst (assign_through o k v)) = true
  /\ match snd (assign_through o k v) with
     | Some inherited =>
         canonical inherited
         && forallb (fun kv => is_primitive (snd kv)) inherited
     | None => true
     end = true.
Proof.
  intros Hv (Hcan & Hall & Hproto). unfold assign_through.
  destruct (String.eqb k "__proto__").
  - destruct v; simpl; repeat split; assumption.
  - simpl. split; [now apply set_canonical|]. split; [|exact Hproto].
    apply forallb_forall. intros kv Hin. apply in_set in Hin.
    destruct Hin as [->|Hin]; [exact Hv|].
    rewrite forallb_forall in Hall. now apply Hall.
Qed.

End ShapeFacts.

Section ParsedShape.

Context {host : Host}.

Lemma extractObjectExpression_shape (members : list ObjectMember) :
  is_attribute_value (VObj (extractObjectExpression members)) = true.
Proof.
  unfold extractObjectExpression. simpl. apply andb_true_intro.
  assert (H : forall o,
             canonical o = true
             /\ forallb (fun kv => is_primitive (snd kv)) o = true ->
             let o' :=
               fold_left
                 (fun obj member =>
                    match member with
                    | ObjectProperty (KeyIdentifier key) value
                    | ObjectProperty (KeyStringLiteral key) value =>
                        match value with
                        | StringLiteral v => JsObject.assign_member obj key (VStr v)
                        | NumericLiteral v => JsObject.assign_member obj key (VNum v)
                        | BooleanLiteral v => JsObject.assign_member obj key (VBool v)
                        | _ => obj
                        end
                    | _ => obj
                    end) members o in
             canonical o' = true
             /\ forallb (fun kv => is_primitive (snd kv)) o' = true).
  { induction members as [|member members IH]; intros o Ho; [exact Ho|].
    simpl. apply IH.
    destruct member as [[key|key|] [v|v|v|ms|qs|]|]; try exact Ho;
      now apply ShapeFacts.assign_member_keeps. }
  now apply H.
Qed.

Lemma extractProps_shape (attributes : list JSXAttr) :
  canonical (fst (extractProps attributes)) = true
  /\ forallb (fun kv => is_attribute_value (snd kv))
       (fst (extractProps attributes)) = true
  /\ match snd (extractProps attributes) with
     | Some inherited =>
         canonical inherited
         && forallb (fun kv => is_primitive (snd kv)) inherited
     | None => true
     end = true.
Proof.
  unfold extractProps.
  match goal with
  | |- context [fold_left ?step attributes ([], None)] =>
      assert (H : forall o,
                 (canonical (fst o) = true
                  /\ forallb (fun kv => is_attribute_value (snd kv)) (fst o)
                     = true
                  /\ match snd o with
                     | Some inherited =>
                         canonical inherited
                         && forallb (fun kv => is_primitive (snd kv)) inherited
                     | None => true
                     end = true) ->
                 canonical (fst (fold_left step attributes o)) = true
                 /\ forallb (fun kv => is_attribute_value (snd kv))
                      (fst (fold_left step attributes o)) = true
                 /\ match snd (fold_left step attributes o) with
                    | Some inherited =>
                        canonical inherited
                        && forallb (fun kv => is_primitive (snd kv)) inherited
                    | None => true
                    end = true)
  end.
  { induction attributes as [|attr attributes IH]; intros o Ho; [exact Ho|].
    simpl. apply IH.
    destruct attr as [name [|v|[v|v|v|ms|qs|]|]|]; try exact Ho;
      apply ShapeFacts.assign_through_keeps; try exact Ho; try reflexivity.
    apply extractObjectExpression_shape. }
  apply H. now repeat split.
Qed.

Lemma convertChildren_shape (cs : list JSXNode) :
  Forall well_shaped cs ->
  forall k, forallb parsed_shape (fst (convertChildren cs k)) = true.
Proof.
  unfold convertChildren.
  induction 1 as [|child rest Hchild _ IH]; intros k; [reflexivity|].
  rewrite convertChildrenWith_cons. simpl. rewrite forallb_app.
  now rewrite Hchild, IH.
Qed.

Lemma convertChild_shape (child : JSXNode) : well_shaped child.
Proof.
  induction child as [name attributes cs IH|cs IH|value|expr|]
    using JSXNode_children_ind; intros k.
  - rewrite convertChild_element, convertJSXElement_eq. simpl.
    destruct (extractProps_shape attributes) as (-> & -> & ->).
    now rewrite (convertChildren_shape cs IH k).
  - rewrite convertChild_fragment, convertJSXFragment_eq. simpl.
    now rewrite (convertChildren_shape cs IH k).
  - simpl. now destruct (String.eqb (JsString.trim value) "").
  - destruct expr; try reflexivity.
    simpl. now destruct (String.eqb (JsString.trim (JsString.join "" quasis)) "").
  - reflexivity.
Qed.

Lemma run_visitors_shape (events : Trace) (k k' : nat) (tree : EditorNode) :
  run_visitors events k = (Ok (Some tree), k') ->
  parsed_shape tree = true /\ type tree = element.
Proof.
  induction events as [|message|node parent rest IH]; simpl; try discriminate.
  destruct (is_root_parent parent); [|exact IH].
  destruct node as [name attributes cs|cs|value|expr|]; try exact IH.
  - pose proof (convertChild_shape (JSXElement name attributes cs) k) as H.
    rewrite convertChild_element in H. simpl in H. rewrite andb_true_r in H.
    rewrite convertJSXElement_eq in *. intros Heq. inversion Heq; subst.
    now split.
  - pose proof (convertChild_shape (JSXFragment cs) k) as H.
    rewrite convertChild_fragment in H. simpl in H. rewrite andb_true_r in H.
    rewrite convertJSXFragment_eq in *. intros Heq. inversion Heq; subst.
    now split.
Qed.

(** X20. A tree [parseJSX] returns has an element at its root, and throughout
    it a text node has a text and neither children, properties nor a tag,
    an element has a tag and no text of its own, and an attribute value is a
    string, a number, a boolean or an object of such values under distinct
    keys. *)
Theorem parsed_trees_are_well_shaped :
  forall (code : string) (k k' : nat) (tree : EditorNode),
    parseJSX code k = (Ok (Some tree), k') ->
    parsed_shape tree = true /\ type tree = element.
Proof.
  intros code k k' tree Hparse.
  destruct (parseJSX_tree code k k' tree Hparse) as (file & _ & _ & Hrun).
  exact (run_visitors_shape _ _ _ _ Hrun).
Qed.

End ParsedShape.

Lemma parsed_trees_are_well_shaped_witness :
  parsed_shape
    (Sample.elem "node-2" "div" []
       [Sample.elem "node-1" "p" [] [Sample.plain "node-0" "Hi"]]) = true
  /\ type (Sample.elem "node-2" "div" []
             [Sample.elem "node-1" "p" [] [Sample.plain "node-0" "Hi"]])
     = element.
Proof.
  apply (@parsed_trees_are_well_shaped Sample.host Sample.nested_markup 0 3).
  vm_compute. reflexivity.
Defined.

(** ** The editor: visual edits and the parse effect *)

Section EditorSessions.

Context {host : Host}.

Import Handlers.

Lemma apply_installs (edit : VisualEdit) (s : Session) :
  apply edit s = s \/ exists updatedAst, apply edit s = install updatedAst s.
Proof.
  destruct edit as [ident newText|styleUpdates|content stamp]; simpl.
  - unfold handleInlineTextEdit. destruct (Editor.ast (state s)); eauto.
  - unfold handleUpdateStyle.
    destruct (Editor.ast (state s)); [|now left].
    destruct (selected_id (state s)); eauto.
  - unfold handleUpdateText.
    destruct (Editor.ast (state s)) as [tree|]; [|now left].
    destruct (selected_id (state s)) as [ident|]; [|now left].
    destruct (findNodeById tree ident) as [node|]; [|now left].
    destruct (type node); [|eauto].
    destruct (find _ (children node)); eauto.
Qed.

(** X21. A visual edit (an inline text edit, a style update or a text update
    from the panel) is not parsed back: after the render that follows it the
    tree is the updated tree with the ids it had, the selection and the
    parse error are as before, no id was drawn, and when the code changed
    the mark of the visual edit is cleared again. *)
Theorem visual_edits_are_not_parsed_back :
  forall (edit : VisualEdit) (s : Session),
    let s1 := apply edit s in
    let s2 := after_render (code s) s1 in
    Editor.ast (state s2) = Editor.ast (state s1)
    /\ Editor.selected (state s2) = Editor.selected (state s)
    /\ Editor.parseError (state s2) = Editor.parseError (state s)
    /\ Editor.ids_drawn (state s2) = Editor.ids_drawn (state s)
    /\ code s2 = code s1
    /\ (code s1 <> code s -> Editor.isVisualEdit (state s2) = false).
Proof.
  intros edit s. simpl.
  destruct (apply_installs edit s) as [->|[updatedAst ->]].
  - unfold after_render. rewrite String.eqb_refl. repeat split.
    intros H. now contradiction H.
  - unfold after_render.
    destruct (String.eqb (code s) (code (install updatedAst s))) eqn:Hcode.
    + repeat split. intros H. apply String.eqb_eq in Hcode.
      now contradiction H.
    + repeat split.
Qed.

(** X22. A change typed into the code area is parsed in the render that
    follows it, whatever visual edits came before: a tree that [parseJSX]
    returns replaces the tree and clears the selection and the error; when
    it returns no tree, or throws, the tree and the selection stay and an
    error is shown, unless the code is blank, which clears the tree. *)
Theorem typed_code_is_parsed :
  forall (newCode : string) (s : Session),
    newCode <> code s ->
    let s' := after_render (code s) (handleCodeChange newCode s) in
    code s' = newCode
    /\ Editor.isVisualEdit (state s') = false
    /\ Editor.ids_drawn (state s')
       = snd (parseJSX newCode (Editor.ids_drawn (state s)))
    /\ match fst (parseJSX newCode (Editor.ids_drawn (state s))) with
       | Ok (Some parsed) =>
           Editor.ast (state s') = Some parsed
           /\ Editor.selected (state s') = None
           /\ Editor.parseError (state s') = None
       | Ok None =>
           Editor.selected (state s') = Editor.selected (state s)
           /\ if String.eqb (JsString.trim newCode) ""
              then Editor.ast (state s') = None
                   /\ Editor.parseError (state s') = None
              else Editor.ast (state s') = Editor.ast (state s)
                   /\ Editor.parseError (state s')
                      = Some Editor.invalid_message
       | Throw message =>
           Editor.ast (state s') = Editor.ast (state s)
           /\ Editor.selected (state s') = Editor.selected (state s)
           /\ Editor.parseError (state s') = Some ("Parse error: " ++ message)
       end.
Proof.
  intros newCode s Hne. simpl. unfold after_render, handleCodeChange. simpl.
  destruct (String.eqb_spec (code s) newCode) as [Heq|_]; [congruence|].
  unfold Editor.parse_effect. simpl.
  destruct (parseJSX newCode (Editor.ids_drawn (state s))) as [[[parsed|]|message] k];
    simpl.
  - repeat split.
  - destruct (String.eqb (JsString.trim newCode) ""); simpl; repeat split.
  - repeat split.
Qed.

(** X23. A visual edit that leaves the code as it is (an inline edit that is
    committed with the text unchanged) runs no parse effect, so its mark
    stays set; an example that is loaded next is then shown in the code area
    but not parsed: the tree of the preview stays the tree of the old
    code. *)
Theorem unchanged_edit_blocks_next_example :
  forall (s : Session) (tree : EditorNode) (ident newText example : string),
    Editor.ast (state s) = Some tree ->
    code s = serializeToJSX tree 0 ->
    updateNodeText tree ident newText = tree ->
    example <> code s ->
    let s1 := after_render (code s) (handleInlineTextEdit ident newText s) in
    let s2 := after_render (code s1) (loadExample example s1) in
    Editor.isVisualEdit (state s1) = true
    /\ code s2 = example
    /\ Editor.ast (state s2) = Some tree
    /\ Editor.parseError (state s2) = Editor.parseError (state s)
    /\ Editor.ids_drawn (state s2) = Editor.ids_drawn (state s).
Proof.
  intros s tree ident newText example Hast Hcode Hsame Hne. simpl.
  unfold handleInlineTextEdit. rewrite Hast, Hsame.
  assert (Hstill : after_render (code s) (install tree s) = install tree s).
  { unfold after_render. simpl. now rewrite Hcode, String.eqb_refl. }
  rewrite Hstill. unfold after_render. simpl.
  destruct (String.eqb_spec (serializeToJSX tree 0) example) as [Heq|_];
    [congruence|].
  unfold Editor.parse_effect. simpl. repeat split.
Qed.

End EditorSessions.

Lemma typed_code_is_parsed_witness :
  Editor.ast
    (Handlers.state
       (@Handlers.after_render Sample.host ""
          (Handlers.handleCodeChange Sample.nested_markup
             {| Handlers.state := Sample.editor; Handlers.code := "" |})))
  = Some (Sample.elem "node-2" "div" []
            [Sample.elem "node-1" "p" [] [Sample.plain "node-0" "Hi"]]).
Proof.
  pose proof (@typed_code_is_parsed Sample.host Sample.nested_markup
                {| Handlers.state := Sample.editor; Handlers.code := "" |}) as H.
  assert (Hne : Sample.nested_markup <> "") by discriminate.
  specialize (H Hne). vm_compute in H.
  destruct H as (_ & _ & _ & H & _). vm_compute. exact H.
Defined.

Lemma unchanged_edit_blocks_next_example_witness :
  Handlers.code
    (@Handlers.after_render Sample.host
       (@serializeToJSX Sample.host Sample.two_texts 0)
       (Handlers.loadExample "<div />"
          (@Handlers.after_render Sample.host
             (@serializeToJSX Sample.host Sample.two_texts 0)
             (@Handlers.handleInlineTextEdit Sample.host "t1" "Hello"
                (@session_of Sample.host Sample.two_texts None)))))
  = "<div />"
  /\ Editor.ast
       (Handlers.state
          (@Handlers.after_render Sample.host
             (@serializeToJSX Sample.host Sample.two_texts 0)
             (Handlers.loadExample "<div />"
                (@Handlers.after_render Sample.host
                   (@serializeToJSX Sample.host Sample.two_texts 0)
                   (@Handlers.handleInlineTextEdit Sample.host "t1" "Hello"
                      (@session_of Sample.host Sample.two_texts None))))))
     = Some Sample.two_texts.
Proof.
  pose proof (@unchanged_edit_blocks_next_example Sample.host
                (@session_of Sample.host Sample.two_texts None)
                Sample.two_texts "t1" "Hello" "<div />") as H.
  assert (Hne : "<div />"
                <> Handlers.code (@session_of Sample.host Sample.two_texts None)).
  { vm_compute. discriminate. }
  specialize (H eq_refl eq_refl eq_refl Hne).
  destruct H as (_ & Hcode & Hast & _).
  split; [exact Hcode|exact Hast].
Defined.

(** ** The text field of the panel *)

Lemma updateNodeText_type (n : EditorNode) (ident content : string) :
  type (updateNodeText n ident content) = type n.
Proof. rewrite updateNodeText_eq. now destruct (String.eqb (id n) ident). Qed.

Lemma found_has_the_id (t : EditorNode) (ident : string) (node : EditorNode) :
  findNodeById t ident = Some node -> id node = ident /\ In node (nodes t).
Proof.
  rewrite findNodeById_is_find. intros H. apply find_some in H.
  destruct H as [Hin Heq]. now apply String.eqb_eq in Heq.
Qed.

Lemma NoDup_flat_map_in {A B : Type} (f : A -> list B) (l : list A) (a : A) :
  In a l -> NoDup (flat_map f l) -> NoDup (f a).
Proof.
  induction l as [|x l IH]; simpl; [tauto|].
  intros [->|Hin] Hnd.
  - now apply NoDup_app_remove_r in Hnd.
  - apply IH; [exact Hin|]. now apply NoDup_app_remove_l in Hnd.
Qed.

Lemma ids_of_a_node (t m : EditorNode) :
  In m (nodes t) ->
  incl (node_ids m) (node_ids t)
  /\ (NoDup (node_ids t) -> NoDup (node_ids m)).
Proof.
  induction t as [n IH] using EditorNode_children_ind.
  rewrite nodes_eq, (node_ids_eq n). intros [<-|Hin].
  - rewrite <- node_ids_eq. split; [apply incl_refl|tauto].
  - apply in_flat_map in Hin. destruct Hin as (c & Hc & Hm).
    rewrite Forall_forall in IH. destruct (IH c Hc Hm) as [Hincl Hnd].
    split.
    + intros x Hx. right. apply in_flat_map. exists c. split; [exact Hc|].
      now apply Hincl.
    + intros Hall. apply Hnd. apply NoDup_cons_iff in Hall.
      now apply (NoDup_flat_map_in node_ids (children n) c Hc).
Qed.

Lemma absent_after_text_update (t : EditorNode) (ident other content : string) :
  findNodeById t ident = None ->
  findNodeById (updateNodeText t other content) ident = None.
Proof.
  induction t as [n IH] using EditorNode_children_ind.
  rewrite (findNodeById_eq n), (findNodeById_eq (updateNodeText _ _ _)).
  rewrite updateNodeText_id.
  destruct (String.eqb (id n) ident); [discriminate|].
  rewrite updateNodeText_eq.
  destruct (String.eqb (id n) other); simpl; [tauto|].
  induction IH as [|c cs Hc _ IHcs]; simpl; [reflexivity|].
  destruct (findNodeById c ident); [discriminate|].
  now rewrite (Hc eq_refl).
Qed.

(** In a tree without a repeated id, a text update at an id inside the node
    found under [ident] reaches that node. *)
Lemma found_after_text_update_inside (t : EditorNode)
    (ident other content : string) :
  NoDup (node_ids t) ->
  forall node,
    findNodeById t ident = Some node ->
    In other (node_ids node) ->
    findNodeById (updateNodeText t other content) ident
    = Some (updateNodeText node other content).
Proof.
  induction t as [n IH] using EditorNode_children_ind.
  intros Hnd node Hfound Hin.
  pose proof (found_has_the_id _ _ _ Hfound) as [Hid Hnode].
  rewrite (findNodeById_eq n) in Hfound.
  rewrite (findNodeById_eq (updateNodeText _ _ _)), updateNodeText_id.
  destruct (String.eqb (id n) ident) eqn:Hroot.
  - now inversion Hfound.
  - rewrite nodes_eq in Hnode. destruct Hnode as [Heq|Hnode].
    { subst node. apply String.eqb_neq in Hroot. contradiction. }
    rewrite (node_ids_eq n) in Hnd. apply NoDup_cons_iff in Hnd.
    destruct Hnd as [Hfresh Hnd].
    assert (Hne : String.eqb (id n) other = false).
    { apply String.eqb_neq. intros Heq. apply Hfresh. rewrite Heq.
      apply in_flat_map in Hnode. destruct Hnode as (c & Hc & Hm).
      apply in_flat_map. exists c. split; [exact Hc|].
      now apply (proj1 (ids_of_a_node c node Hm)). }
    rewrite updateNodeText_eq, Hne. simpl.
    clear Hnode Hfresh Hne Hroot.
    induction IH as [|c cs Hc _ IHcs]; simpl in *; [discriminate|].
    destruct (findNodeById c ident) as [found|] eqn:Hfc.
    + inversion Hfound; subst found.
      rewrite (Hc (NoDup_app_remove_r _ _ Hnd) node eq_refl Hin).
      reflexivity.
    + rewrite (absent_after_text_update c ident other content Hfc).
      apply IHcs; [|exact Hfound]. now apply NoDup_app_remove_l in Hnd.
Qed.

Lemma first_text_child_after_update (cs : list EditorNode)
    (other content : string) :
  find (fun c => NodeType_eqb (type c) text)
    (map (fun c => updateNodeText c other content) cs)
  = option_map (fun c => updateNodeText c other content)
      (find (fun c => NodeType_eqb (type c) text) cs).
Proof.
  induction cs as [|c cs IH]; simpl; [reflexivity|].
  rewrite updateNodeText_type.
  now destruct (NodeType_eqb (type c) text).
Qed.

Lemma or_default_empty (s : string) : or_default (Some s) "" = s.
Proof.
  unfold or_default. now destruct (String.eqb_spec s "") as [->|].
Qed.

Section PanelText.

Context {host : Host}.

Import Handlers.

(** X24. The text typed into the panel reaches the selection: when the
    selected node is a text node, or an element with a text child, and no id
    occurs twice in the tree, [handleUpdateText] installs a tree with the
    same ids in which the node found under the selected id shows the typed
    text in the panel. *)
Theorem panel_text_reaches_the_selection :
  forall (s : Session) (tree node : EditorNode) (ident content stamp : string),
    Editor.ast (state s) = Some tree ->
    selected_id (state s) = Some ident ->
    NoDup (node_ids tree) ->
    findNodeById tree ident = Some node ->
    (type node = text
     \/ exists c,
          find (fun c => NodeType_eqb (type c) text) (children node) = Some c) ->
    exists tree' node',
      handleUpdateText content stamp s = install tree' s
      /\ node_ids tree' = node_ids tree
      /\ findNodeById tree' ident = Some node'
      /\ selected_text node' = content.
Proof.
  intros s tree node ident content stamp Hast Hsel Hnd Hfound Hcase.
  unfold handleUpdateText. rewrite Hast, Hsel, Hfound.
  assert (Hids : forall other,
             node_ids (updateNodeText tree other content) = node_ids tree).
  { intros other. rewrite !node_ids_of_nodes.
    clear. induction tree as [n IH] using EditorNode_children_ind.
    rewrite <- !node_ids_of_nodes.
    rewrite (node_ids_eq (updateNodeText _ _ _)), (node_ids_eq n).
    rewrite updateNodeText_id, updateNodeText_eq.
    destruct (String.eqb (id n) other); simpl; [reflexivity|]. f_equal.
    induction IH as [|c cs Hc _ IHcs]; simpl; [reflexivity|].
    rewrite <- !node_ids_of_nodes in Hc. now rewrite Hc, IHcs. }
  destruct (type node) eqn:Htype.
  - destruct Hcase as [Habs|[c Hc]]; [discriminate|]. rewrite Hc.
    pose proof (found_has_the_id _ _ _ Hfound) as [Hid Hnode].
    pose proof (find_some _ _ Hc) as [Hin Htext].
    assert (Hinside : In (id c) (node_ids node)).
    { rewrite (node_ids_eq node). right. apply in_flat_map. exists c.
      split; [exact Hin|]. rewrite node_ids_eq. now left. }
    assert (Hne : String.eqb (id node) (id c) = false).
    { apply String.eqb_neq. intros Heq.
      pose proof (proj2 (ids_of_a_node tree node Hnode) Hnd) as Hsub.
      rewrite (node_ids_eq node) in Hsub. apply NoDup_cons_iff in Hsub.
      apply (proj1 Hsub). rewrite Heq. apply in_flat_map. exists c.
      split; [exact Hin|]. rewrite node_ids_eq. now left. }
    exists (updateNodeText tree (id c) content),
      (updateNodeText node (id c) content).
    split; [reflexivity|]. split; [apply Hids|].
    split; [now apply found_after_text_update_inside|].
    unfold selected_text. rewrite updateNodeText_type, Htype.
    rewrite (updateNodeText_eq node), Hne. simpl.
    rewrite first_text_child_after_update, Hc. simpl.
    rewrite updateNodeText_eq, String.eqb_refl. simpl.
    apply or_default_empty.
  - exists (updateNodeText tree ident content), (with_textContent node content).
    split; [reflexivity|]. split; [apply Hids|].
    split; [now rewrite found_after_text_update, Hfound|].
    unfold selected_text. simpl. rewrite Htype. apply or_default_empty.
Qed.

(** X25. Text typed into the panel for an element that has no text child:
    when the element is the root of the tree, a new text node becomes its
    only child, in place of whatever children it had; when it is any other
    element, the installed tree is the tree as it was, so the typed text is
    not kept. *)
Theorem panel_text_without_text_child :
  forall (s : Session) (tree node : EditorNode) (ident content stamp : string),
    Editor.ast (state s) = Some tree ->
    selected_id (state s) = Some ident ->
    findNodeById tree ident = Some node ->
    type node = element ->
    find (fun c => NodeType_eqb (type c) text) (children node) = None ->
    exists tree',
      handleUpdateText content stamp s = install tree' s
      /\ if String.eqb (id tree) ident
         then node = tree
              /\ children tree' = [text_node ("text-" ++ stamp) content]
              /\ findNodeById tree' ident = Some tree'
              /\ selected_text tree' = content
         else tree' = tree.
Proof.
  intros s tree node ident content stamp Hast Hsel Hfound Htype Hnone.
  unfold handleUpdateText. rewrite Hast, Hsel, Hfound, Htype, Hnone.
  eexists. split; [reflexivity|].
  destruct (String.eqb (id tree) ident) eqn:Hroot.
  - rewrite findNodeById_eq, Hroot in Hfound. inversion Hfound; subst node.
    split; [reflexivity|]. split; [reflexivity|]. split.
    + rewrite findNodeById_eq. simpl. now rewrite Hroot.
    + unfold selected_text. simpl. rewrite Htype. simpl.
      apply or_default_empty.
  - apply with_children_same.
Qed.

End PanelText.

Lemma panel_text_reaches_the_selection_witness :
  exists tree' node',
    @Handlers.handleUpdateText Sample.host "Bye" "17"
      (@session_of Sample.host Sample.two_texts (Some "p1"))
    = @Handlers.install Sample.host tree'
        (@session_of Sample.host Sample.two_texts (Some "p1"))
    /\ node_ids tree' = node_ids Sample.two_texts
    /\ findNodeById tree' "p1" = Some node'
    /\ selected_text node' = "Bye".
Proof.
  apply (@panel_text_reaches_the_selection Sample.host
           (@session_of Sample.host Sample.two_texts (Some "p1"))
           Sample.two_texts Sample.two_texts "p1" "Bye" "17").
  - reflexivity.
  - reflexivity.
  - repeat constructor; simpl; intuition discriminate.
  - reflexivity.
  - right. eexists. reflexivity.
Defined.

Lemma panel_text_without_text_child_witness :
  exists tree',
    @Handlers.handleUpdateText Sample.host "Bye" "17"
      (@session_of Sample.host
         (Sample.elem "d1" "div" [] [Sample.elem "s1" "span" [] []]) (Some "s1"))
    = @Handlers.install Sample.host tree'
        (@session_of Sample.host
           (Sample.elem "d1" "div" [] [Sample.elem "s1" "span" [] []])
           (Some "s1"))
    /\ tree' = Sample.elem "d1" "div" [] [Sample.elem "s1" "span" [] []].
Proof.
  apply (@panel_text_without_text_child Sample.host
           (@session_of Sample.host
              (Sample.elem "d1" "div" [] [Sample.elem "s1" "span" [] []])
              (Some "s1"))
           (Sample.elem "d1" "div" [] [Sample.elem "s1" "span" [] []])
           (Sample.elem "s1" "span" [] []) "s1" "Bye" "17");
    reflexivity.
Defined.

(** ** The gradient of the panel *)

Module GreedyFacts.
Import Regex.

Lemma search_here (r : regex) (n : nat) (s : list ascii) (pos : nat)
    (m : Captures) :
  match_at r s pos = Some m -> search r n s pos = Some m.
Proof. intros H. destruct n; simpl; now rewrite H. Qed.

Lemma run_lit {A : Type} (p : string) (rest : list ascii) (pos : nat)
    (caps : Captures) (k : list ascii -> nat -> Captures -> option A) :
  run (Lit p) (JsString.chars p ++ rest)%list pos caps k
  = k rest (pos + String.length p) caps.
Proof.
  revert pos. induction p as [|c p IH]; intros pos; simpl.
  - now rewrite Nat.add_0_r.
  - rewrite Ascii.eqb_refl. unfold JsString.chars in IH. rewrite IH.
    f_equal. lia.
Qed.

(** A starred class takes the whole run of units of the class when the rest
    of the pattern matches after it. *)
Lemma star_class_greedy {A : Type} (member : ascii -> bool)
    (k : list ascii -> nat -> Captures -> option A) (a : A)
    (units rest : list ascii) (pos : nat) (caps : Captures) :
  forallb member units = true ->
  stops_at member rest = true ->
  k rest (pos + List.length units) caps = Some a ->
  run (Star (Class member)) (units ++ rest)%list pos caps k = Some a.
Proof.
  intros Hunits Hstop Hk. cbn [run].
  assert (Hfuel : List.length units < List.length (units ++ rest)%list + 1).
  { rewrite length_app. lia. }
  revert Hfuel. generalize (List.length (units ++ rest)%list + 1). intros n.
  revert n pos Hk. induction units as [|c units IH]; intros n pos Hk Hfuel.
  - destruct n as [|n]; [simpl in Hfuel; lia|].
    rewrite Nat.add_0_r in Hk. simpl.
    destruct rest as [|d rest]; [exact Hk|].
    simpl in Hstop. destruct (member d); [discriminate|exact Hk].
  - destruct n as [|n]; [simpl in Hfuel; lia|].
    simpl in Hunits. apply andb_prop in Hunits. destruct Hunits as [Hc Hunits].
    simpl app. cbn iota beta fix. cbn [run]. rewrite Hc.
    replace (Nat.ltb (List.length (units ++ rest)%list)
               (List.length (c :: units ++ rest)%list)) with true
      by (symmetry; apply Nat.ltb_lt; simpl; lia).
    rewrite (IH Hunits n (S pos)); [reflexivity| |simpl in Hfuel; lia].
    rewrite <- Hk. f_equal. simpl. lia.
Qed.

Lemma firstn_units (units rest : list ascii) (pos : nat) :
  firstn (pos + List.length units - pos) (units ++ rest)%list = units.
Proof.
  replace (pos + List.length units - pos) with (List.length units + 0) by lia.
  rewrite firstn_app_2. simpl. apply app_nil_r.
Qed.

(** A group of one or more units of a class captures the whole run. *)
Lemma group_plus_class {A : Type} (i : nat) (member : ascii -> bool)
    (k : list ascii -> nat -> Captures -> option A) (a : A)
    (units rest : list ascii) (pos : nat) (caps : Captures) :
  units <> [] ->
  forallb member units = true ->
  stops_at member rest = true ->
  k rest (pos + List.length units) ((i, JsString.of_chars units) :: caps)
  = Some a ->
  run (Group i (Plus (Class member))) (units ++ rest)%list pos caps k = Some a.
Proof.
  intros Hne Hunits Hstop Hk.
  destruct units as [|c units]; [congruence|].
  pose proof Hunits as Hall.
  simpl in Hunits. apply andb_prop in Hunits. destruct Hunits as [Hc Hunits].
  unfold Plus. cbn [run]. simpl app. cbn iota. rewrite Hc.
  change (run (Star (Class member)) (units ++ rest)%list (S pos) caps
            (fun s1 pos1 caps1 =>
               k s1 pos1
                 ((i, JsString.of_chars (firstn (pos1 - pos) (c :: units ++ rest)%list))
                  :: caps1)) = Some a).
  apply star_class_greedy; [exact Hunits|exact Hstop|].
  replace (S pos + List.length units) with (pos + List.length (c :: units))
    by (simpl; lia).
  change (c :: units ++ rest)%list with ((c :: units) ++ rest)%list.
  now rewrite firstn_units.
Qed.

Lemma run_seq {A : Type} (r1 r2 : regex) (s : list ascii) (pos : nat)
    (caps : Captures) (k : list ascii -> nat -> Captures -> option A) :
  run (Seq r1 r2) s pos caps k
  = run r1 s pos caps (fun s1 pos1 caps1 => run r2 s1 pos1 caps1 k).
Proof. reflexivity. Qed.

Lemma run_char {A : Type} (c : ascii) (rest : list ascii) (pos : nat)
    (caps : Captures) (k : list ascii -> nat -> Captures -> option A) :
  run (Char c) (c :: rest) pos caps k = k rest (S pos) caps.
Proof. simpl. now rewrite Ascii.eqb_refl. Qed.

(** The units of a direction or a color the gradient text carries as it
    is. *)
Lemma plain_units (stop : ascii) (s : string) :
  is_plain stop s = true ->
  exists c rest,
    JsString.chars s = c :: rest
    /\ JsString.is_space c = false
    /\ forallb (fun d => negb (Ascii.eqb d stop)) (c :: rest) = true.
Proof.
  unfold is_plain. destruct (JsString.chars s) as [|c rest]; [discriminate|].
  intros H. apply andb_prop in H. destruct H as [Hspace Hall].
  exists c, rest. repeat split; [|exact Hall].
  now destruct (JsString.is_space c).
Qed.

Lemma gradient_units (direction from to : string) :
  JsString.chars (gradient_text direction from to)
  = (JsString.chars "linear-gradient(" ++ JsString.chars direction
     ++ ","%char :: " "%char :: JsString.chars from
     ++ ","%char :: " "%char :: JsString.chars to ++ [")"%char])%list.
Proof.
  unfold gradient_text. now rewrite !EscapeFacts.chars_app.
Qed.

(** The pattern of the panel reads a gradient text of plain parts back into
    its parts. *)
Lemma gradient_is_read_back (direction from to : string) :
  is_plain "," direction = true ->
  is_plain "," from = true ->
  is_plain ")" to = true ->
  exec Patterns.gradient (gradient_text direction from to)
  = Some [(0, gradient_text direction from to); (3, to); (2, from);
          (1, direction)].
Proof.
  intros Hd Hf Ht.
  destruct (plain_units _ _ Hd) as (cd & D & HD & _ & HallD).
  destruct (plain_units _ _ Hf) as (cf & F & HF & HspaceF & HallF).
  destruct (plain_units _ _ Ht) as (ct & T & HT & HspaceT & HallT).
  unfold exec. apply search_here. unfold match_at.
  rewrite gradient_units. unfold Patterns.gradient.
  rewrite run_seq, run_lit. cbv beta.
  rewrite run_seq. rewrite HD.
  apply group_plus_class; [discriminate|exact HallD|reflexivity|]. cbv beta.
  rewrite run_seq, run_char. cbv beta.
  rewrite run_seq.
  change (" "%char :: JsString.chars from ++ ?rest)%list
    with ([" "%char] ++ (JsString.chars from ++ rest))%list.
  apply star_class_greedy; [reflexivity|rewrite HF; simpl; now rewrite HspaceF|].
  cbv beta. rewrite run_seq. rewrite HF.
  apply group_plus_class; [discriminate|exact HallF|reflexivity|]. cbv beta.
  rewrite run_seq, run_char. cbv beta.
  rewrite run_seq.
  change (" "%char :: JsString.chars to ++ ?rest)%list
    with ([" "%char] ++ (JsString.chars to ++ rest))%list.
  apply star_class_greedy; [reflexivity|rewrite HT; simpl; now rewrite HspaceT|].
  cbv beta. rewrite run_seq. rewrite HT.
  apply group_plus_class; [discriminate|exact HallT|reflexivity|]. cbv beta.
  rewrite run_char.
  rewrite <- HD, <- HF, <- HT, !RegexFacts.of_chars_chars.
  rewrite firstn_all2.
  - replace (JsString.of_chars _) with (gradient_text direction from to);
      [reflexivity|].
    rewrite <- (RegexFacts.of_chars_chars (gradient_text direction from to)).
    now rewrite gradient_units.
  - rewrite !length_app. simpl. rewrite !length_app. simpl.
    rewrite !length_app. simpl. lia.
Qed.

End GreedyFacts.

Section GradientRoundTrip.

Context {host : Host}.

Lemma gradient_text_is_truthy (direction from to : string) :
  truthy (VStr (gradient_text direction from to)) = true.
Proof. reflexivity. Qed.

Lemma gradient_effect (node : EditorNode) (st : PanelState)
    (direction from to : string) :
  is_plain "," direction = true ->
  is_plain "," from = true ->
  is_plain ")" to = true ->
  prop (extractStyleFromNode node) "backgroundImage"
  = VStr (gradient_text direction from to) ->
  exists st',
    selection_effect (Some node) st = Ok st'
    /\ backgroundType st' = gradient
    /\ gradientDirection st' = direction
    /\ gradientFrom st' = JsString.trim from
    /\ gradientTo st' = JsString.trim to
    /\ localStyle st' = mergedStyles node.
Proof.
  intros Hd Hf Ht Hbg.
  pose proof (GreedyFacts.gradient_is_read_back _ _ _ Hd Hf Ht) as Hexec.
  pose proof (RegexFacts.gradient_match_includes _ _ Hexec) as Hincludes.
  unfold selection_effect, detect_background. cbv zeta.
  rewrite Hbg. unfold js_or. rewrite gradient_text_is_truthy.
  rewrite Hincludes, Hexec. eexists. split; [reflexivity|].
  repeat split.
Qed.

Lemma style_after_update (node : EditorNode) (updates : Obj) (key : string) :
  NoDup (JsObject.keys updates) ->
  JsObject.get
    (extractStyleFromNode
       (with_props node
          (JsObject.set (JsObject.spread (VObj (props node))) "style"
             (VObj (JsObject.assign
                      (JsObject.spread (js_or (node_prop node "style") (VObj [])))
                      updates))))) key
  = match JsObject.get updates key with
    | Some v => Some v
    | None => JsObject.get (extractStyleFromNode node) key
    end.
Proof.
  intros Hnd. unfold extractStyleFromNode at 1.
  unfold node_prop at 1. unfold prop_through. simpl props.
  rewrite ObjectFacts.get_set. simpl.
  unfold JsObject.spread at 1. simpl JsObject.own_entries.
  rewrite ObjectFacts.get_assign.
  - rewrite ObjectFacts.get_assign by exact Hnd. simpl.
    unfold extractStyleFromNode.
    now destruct (JsObject.get updates key),
      (JsObject.get (JsObject.spread (js_or (node_prop node "style") (VObj []))) key).
  - apply ObjectFacts.assign_keeps_keys_distinct,
      ObjectFacts.spread_keys_distinct.
Qed.

(** X26. The gradient the panel applies is the gradient it reads back: after
    [applyGradient] with a direction and two color stops that are plain (not
    empty, no white space in front, no comma in the direction and in the
    first stop, no closing parenthesis in the second), the selection effect
    on the updated node sets the background type to gradient and recovers
    the direction as it is and the two stops trimmed; the background color
    of the node is [transparent]. *)
Theorem applied_gradient_is_read_back :
  forall (tree node : EditorNode) (ident : string) (st : PanelState)
         (direction from to : string),
    findNodeById tree ident = Some node ->
    is_plain "," direction = true ->
    is_plain "," from = true ->
    is_plain ")" to = true ->
    exists node' st',
      findNodeById
        (updateNodeStyle tree ident (snd (applyGradient direction from to st)))
        ident = Some node'
      /\ selection_effect (Some node') (fst (applyGradient direction from to st))
         = Ok st'
      /\ backgroundType st' = gradient
      /\ gradientDirection st' = direction
      /\ gradientFrom st' = JsString.trim from
      /\ gradientTo st' = JsString.trim to
      /\ prop (extractStyleFromNode node') "backgroundColor" = VStr "transparent".
Proof.
  intros tree node ident st direction from to Hfound Hd Hf Ht.
  rewrite found_after_style_update, Hfound. simpl option_map.
  eexists. 
  assert (Hnd : NoDup (JsObject.keys
                         [("backgroundImage", VStr (gradient_text direction from to));
                          ("backgroundColor", VStr "transparent")])).
  { repeat constructor; simpl; intuition discriminate. }
  destruct (gradient_effect
              (with_props node
                 (JsObject.set (JsObject.spread (VObj (props node))) "style"
                    (VObj (JsObject.assign
                             (JsObject.spread
                                (js_or (node_prop node "style") (VObj [])))
                             [("backgroundImage",
                               VStr (gradient_text direction from to));
                              ("backgroundColor", VStr "transparent")]))))
              (fst (applyGradient direction from to st))
              direction from to Hd Hf Ht)
    as (st' & Heffect & Hkind & Hdir & Hfrom & Hto & _).
  { unfold prop. now rewrite (style_after_update node _ _ Hnd). }
  exists st'. split; [reflexivity|]. split; [exact Heffect|].
  repeat split; try assumption.
  unfold prop. now rewrite (style_after_update node _ _ Hnd).
Qed.

Lemma js_or_truthy (a b : JsVal) : truthy b = true -> truthy (js_or a b) = true.
Proof. intros Hb. unfold js_or. now destruct (truthy a) eqn:Ha. Qed.

(** X27. Switching the background type to solid replaces the gradient: the
    updated node has the background image [none] and the background color
    of the panel, or [#ffffff] when the panel has none, and the selection
    effect on it sets the background type to solid and leaves the direction
    and the color stops as they were. *)
Theorem solid_background_is_read_back :
  forall (tree node : EditorNode) (ident : string) (st : PanelState),
    findNodeById tree ident = Some node ->
    exists node' st',
      findNodeById
        (updateNodeStyle tree ident (snd (handleBackgroundTypeChange solid st)))
        ident = Some node'
      /\ prop (extractStyleFromNode node') "backgroundImage" = VStr "none"
      /\ prop (extractStyleFromNode node') "backgroundColor"
         = js_or (prop (localStyle st) "backgroundColor") (VStr "#ffffff")
      /\ selection_effect (Some node') (fst (handleBackgroundTypeChange solid st))
         = Ok st'
      /\ backgroundType st' = solid
      /\ gradientDirection st' = gradientDirection st
      /\ gradientFrom st' = gradientFrom st
      /\ gradientTo st' = gradientTo st.
Proof.
  intros tree node ident st Hfound.
  rewrite found_after_style_update, Hfound. simpl option_map.
  set (color := js_or (prop (localStyle st) "backgroundColor") (VStr "#ffffff")).
  assert (Hnd : NoDup (JsObject.keys
                         [("backgroundImage", VStr "none");
                          ("backgroundColor", color)])).
  { repeat constructor; simpl; intuition discriminate. }
  set (node' :=
         with_props node
           (JsObject.set (JsObject.spread (VObj (props node))) "style"
              (VObj (JsObject.assign
                       (JsObject.spread
                          (js_or (node_prop node "style") (VObj [])))
                       [("backgroundImage", VStr "none");
                        ("backgroundColor", color)])))).
  assert (Himage : prop (extractStyleFromNode node') "backgroundImage"
                   = VStr "none").
  { unfold prop, node'. now rewrite (style_after_update node _ _ Hnd). }
  assert (Hcolor : prop (extractStyleFromNode node') "backgroundColor" = color).
  { unfold prop, node'. now rewrite (style_after_update node _ _ Hnd). }
  assert (Hmerged : prop (mergedStyles node') "backgroundColor" = color).
  { unfold prop in Hcolor |- *. unfold mergedStyles.
    rewrite ObjectFacts.get_assign
      by (unfold extractStyleFromNode; apply ObjectFacts.spread_keys_distinct).
    destruct (JsObject.get (extractStyleFromNode node') "backgroundColor")
      as [v|] eqn:Hget; [exact Hcolor|].
    exfalso. subst color.
    assert (Ht : truthy VUndefined = true).
    { rewrite Hcolor. now apply js_or_truthy. }
    discriminate Ht. }
  exists node'. eexists. split; [reflexivity|]. split; [exact Himage|].
  split; [exact Hcolor|].
  unfold selection_effect, detect_background. cbv zeta.
  rewrite Himage, Hmerged. simpl.
  replace (truthy color) with true
    by (symmetry; now apply js_or_truthy).
  split; [reflexivity|]. repeat split.
Qed.

End GradientRoundTrip.

Lemma applied_gradient_is_read_back_witness :
  exists node' st',
    findNodeById
      (updateNodeStyle Sample.styled_div "n1"
         (snd (applyGradient "to right" "#8b5cf6" "#3b82f6" Sample.panel)))
      "n1" = Some node'
    /\ @selection_effect Sample.host (Some node')
         (fst (applyGradient "to right" "#8b5cf6" "#3b82f6" Sample.panel))
       = Ok st'
    /\ backgroundType st' = gradient
    /\ gradientDirection st' = "to right"
    /\ gradientFrom st' = JsString.trim "#8b5cf6"
    /\ gradientTo st' = JsString.trim "#3b82f6"
    /\ prop (extractStyleFromNode node') "backgroundColor" = VStr "transparent".
Proof.
  apply (@applied_gradient_is_read_back Sample.host Sample.styled_div
           Sample.styled_div "n1" Sample.panel "to right" "#8b5cf6" "#3b82f6");
    reflexivity.
Defined.

Lemma solid_background_is_read_back_witness :
  exists node' st',
    findNodeById
      (updateNodeStyle Sample.styled_div "n1"
         (snd (handleBackgroundTypeChange solid Sample.panel)))
      "n1" = Some node'
    /\ prop (extractStyleFromNode node') "backgroundImage" = VStr "none"
    /\ prop (extractStyleFromNode node') "backgroundColor"
       = js_or (prop (localStyle Sample.panel) "backgroundColor") (VStr "#ffffff")
    /\ @selection_effect Sample.host (Some node')
         (fst (handleBackgroundTypeChange solid Sample.panel))
       = Ok st'
    /\ backgroundType st' = solid
    /\ gradientDirection st' = gradientDirection Sample.panel
    /\ gradientFrom st' = gradientFrom Sample.panel
    /\ gradientTo st' = gradientTo Sample.panel.
Proof.
  apply (@solid_background_is_read_back Sample.host Sample.styled_div
           Sample.styled_div "n1" Sample.panel).
  reflexivity.
Defined.

(** ** Utility classes, class by class *)

Module AnchoredFacts.
Import Regex.

Lemma chars_length (s : string) :
  List.length (JsString.chars s) = String.length s.
Proof. induction s as [|c s IH]; simpl; [reflexivity|now rewrite <- IH]. Qed.

Lemma search_after_begin (r : regex) (n : nat) :
  forall s pos, search (Seq Begin r) n s (S pos) = None.
Proof.
  induction n as [|n IH]; intros s pos; simpl; [reflexivity|].
  destruct s as [|c s]; [reflexivity|]. apply IH.
Qed.

(** A pattern that starts with [^] matches at the start or nowhere. *)
Lemma exec_anchored (r : regex) (str : string) :
  exec (Seq Begin r) str = match_at (Seq Begin r) (JsString.chars str) 0.
Proof.
  unfold exec. destruct (String.length str) as [|n]; simpl;
    destruct (match_at (Seq Begin r) (JsString.chars str) 0); try reflexivity.
  destruct (JsString.chars str); [reflexivity|]. apply search_after_begin.
Qed.

Lemma run_lit_char {A : Type} (p : string) (c : ascii) (r : regex) :
  forall (s : list ascii) (pos : nat) (caps : Captures)
         (k : list ascii -> nat -> Captures -> option A),
    run (Lit p) s pos caps (fun s1 pos1 caps1 => run (Seq (Char c) r) s1 pos1 caps1 k)
    = run (Lit (p ++ String c "")) s pos caps
        (fun s1 pos1 caps1 => run r s1 pos1 caps1 k).
Proof.
  induction p as [|a p IH]; intros s pos caps k.
  - reflexivity.
  - simpl. destruct s as [|d s]; [reflexivity|].
    destruct (Ascii.eqb d a); [apply IH|reflexivity].
Qed.

Lemma lit_mismatch {A : Type} (p : string) (s : list ascii) (pos : nat)
    (caps : Captures) (k : list ascii -> nat -> Captures -> option A) :
  String.prefix p (JsString.of_chars s) = false ->
  run (Lit p) s pos caps k = None.
Proof.
  intros Hprefix. destruct (run (Lit p) s pos caps k) as [a|] eqn:Hrun;
    [|reflexivity].
  apply RegexFacts.run_literal in Hrun. congruence.
Qed.

Lemma spacing_mismatch (q cls : string) :
  String.prefix (q ++ "-") cls = false ->
  exec (Patterns.spacing q) cls = None.
Proof.
  intros Hprefix. unfold Patterns.spacing. rewrite exec_anchored.
  unfold match_at.
  change (run (Seq Begin ?r) ?s 0 ?caps ?k) with (run r s 0 caps k).
  rewrite GreedyFacts.run_seq, (run_lit_char q "-"). apply lit_mismatch.
  now rewrite RegexFacts.of_chars_chars.
Qed.

Lemma color_mismatch (q cls : string) :
  String.prefix q cls = false -> exec (Patterns.color q) cls = None.
Proof.
  intros Hprefix. unfold Patterns.color. rewrite exec_anchored.
  unfold match_at.
  change (run (Seq Begin ?r) ?s 0 ?caps ?k) with (run r s 0 caps k).
  rewrite GreedyFacts.run_seq. apply lit_mismatch.
  now rewrite RegexFacts.of_chars_chars.
Qed.

Lemma font_size_mismatch (cls : string) :
  String.prefix "text-" cls = false -> test Patterns.font_size cls = false.
Proof.
  intros Hprefix. unfold test, Patterns.font_size. rewrite exec_anchored.
  unfold match_at.
  change (run (Seq Begin ?r) ?s 0 ?caps ?k) with (run r s 0 caps k).
  rewrite GreedyFacts.run_seq, lit_mismatch; [reflexivity|].
  now rewrite RegexFacts.of_chars_chars.
Qed.

Lemma spacing_match (q digits : string) :
  digits <> "" ->
  forallb JsString.is_digit (JsString.chars digits) = true ->
  exec (Patterns.spacing q) (q ++ "-" ++ digits)
  = Some [(0, q ++ "-" ++ digits); (1, digits)].
Proof.
  intros Hne Hdigits. unfold Patterns.spacing. rewrite exec_anchored.
  unfold match_at.
  change (run (Seq Begin ?r) ?s 0 ?caps ?k) with (run r s 0 caps k).
  rewrite !EscapeFacts.chars_app.
  rewrite GreedyFacts.run_seq, GreedyFacts.run_lit. cbv beta.
  change (JsString.chars "-") with ["-"%char]. simpl app at 1.
  rewrite GreedyFacts.run_seq, GreedyFacts.run_char. cbv beta.
  rewrite GreedyFacts.run_seq.
  rewrite <- (app_nil_r (JsString.chars digits)) at 1.
  apply GreedyFacts.group_plus_class;
    [destruct digits; [congruence|discriminate]|exact Hdigits|reflexivity|].
  cbv beta. cbn [run].
  rewrite RegexFacts.of_chars_chars. f_equal. f_equal. f_equal.
  rewrite firstn_all2.
  - rewrite <- (RegexFacts.of_chars_chars (q ++ "-" ++ digits)).
    now rewrite !EscapeFacts.chars_app.
  - rewrite !length_app, chars_length. simpl. lia.
Qed.
End AnchoredFacts.

Lemma digit_is_no_space (c : ascii) :
  JsString.is_digit c = true -> JsString.is_space c = false.
Proof.
  unfold JsString.is_digit, JsString.is_space. cbv zeta.
  generalize (JsString.code c). intros n H.
  apply andb_prop in H. destruct H as [Hlow Hhigh].
  apply Nat.leb_le in Hlow, Hhigh.
  replace (Nat.leb n 13) with false by (symmetry; apply Nat.leb_gt; lia).
  replace (Nat.eqb n 32) with false by (symmetry; apply Nat.eqb_neq; lia).
  replace (Nat.eqb n 160) with false by (symmetry; apply Nat.eqb_neq; lia).
  now rewrite andb_false_r.
Qed.

Lemma split_spaces_plain (l piece : list ascii) :
  forallb (fun c => negb (JsString.is_space c)) l = true ->
  split_spaces l piece false = [JsString.of_chars (rev piece ++ l)].
Proof.
  revert piece. induction l as [|c l IH]; intros piece H; simpl.
  - now rewrite app_nil_r.
  - simpl in H. apply andb_prop in H. destruct H as [Hc Hl].
    destruct (JsString.is_space c); [discriminate|].
    rewrite (IH _ Hl). simpl. now rewrite <- app_assoc.
Qed.

Section SpacingClasses.

Context {host : Host}.

Lemma set_when_skip (c : bool) (k v : string) (o : Obj) :
  c = false -> set_when c k v o = o.
Proof. now intros ->. Qed.

Lemma font_size_rule_skip (cls : string) (o : Obj) :
  String.prefix "text-" cls = false -> font_size_rule cls o = o.
Proof.
  intros H. unfold font_size_rule.
  now rewrite AnchoredFacts.font_size_mismatch.
Qed.

Lemma color_rule_skip (q target : string) (excluded : list string)
    (cls : string) (o : Obj) :
  String.prefix q cls = false -> color_rule q target excluded cls o = o.
Proof.
  intros H. unfold color_rule. now rewrite AnchoredFacts.color_mismatch.
Qed.

Lemma spacing_rule_skip (q : string) (targets : list string) (cls : string)
    (o : Obj) :
  String.prefix (q ++ "-") cls = false -> spacing_rule q targets cls o = o.
Proof.
  intros H. unfold spacing_rule. now rewrite AnchoredFacts.spacing_mismatch.
Qed.

Lemma spacing_rule_hit (q : string) (targets : list string) (digits : string)
    (o : Obj) :
  digits <> "" ->
  forallb JsString.is_digit (JsString.chars digits) = true ->
  (JsString.to_N digits * 4 < 9007199254740992)%N ->
  spacing_rule q targets (q ++ "-" ++ digits) o
  = fold_left
      (fun acc target =>
         JsObject.set acc target
           (VStr (JsString.of_N (JsString.to_N digits * 4) ++ "px")))
      targets o.
Proof.
  intros Hne Hdigits Hsmall. unfold spacing_rule.
  rewrite AnchoredFacts.spacing_match by assumption. simpl Regex.capture.
  unfold times. now rewrite (proj2 (N.ltb_lt _ _) Hsmall).
Qed.

(** X28. A spacing class on its own, [p-], [px-], [py-], [m-], [mx-] or
    [my-] followed by decimal digits, sets exactly the properties of its
    prefix, each to four times the number in pixels, as long as the product
    stays below 2^53; leading zeros do not matter. *)
Theorem spacing_classes_resolve :
  forall (prefix : string) (targets : list string) (digits : string),
    In (prefix, targets) spacing_classes ->
    digits <> "" ->
    forallb JsString.is_digit (JsString.chars digits) = true ->
    (JsString.to_N digits * 4 < 9007199254740992)%N ->
    getComputedStylesFromClassName (prefix ++ "-" ++ digits)
    = map (fun target =>
             (target, VStr (JsString.of_N (JsString.to_N digits * 4) ++ "px")))
        targets.
Proof.
  intros prefix targets digits Hin Hne Hdigits Hsmall.
  assert (Hplain : forallb (fun c => negb (JsString.is_space c))
                     (JsString.chars digits) = true).
  { apply forallb_forall. intros c Hc.
    rewrite forallb_forall in Hdigits.
    now rewrite (digit_is_no_space c (Hdigits c Hc)). }
  unfold getComputedStylesFromClassName, split_whitespace.
  rewrite split_spaces_plain.
  2:{ rewrite !EscapeFacts.chars_app, !forallb_app, Hplain.
      simpl in Hin.
      repeat (destruct Hin as [Hin|Hin];
              [inversion Hin; subst; reflexivity|]).
      contradiction. }
  simpl rev. simpl app. rewrite RegexFacts.of_chars_chars.
  cbn [fold_left]. unfold class_step. cbv zeta.
  set (value := VStr (JsString.of_N (JsString.to_N digits * 4) ++ "px")).
  simpl in Hin.
  repeat (destruct Hin as [Hin|Hin];
          [inversion Hin; subst prefix targets; clear Hin;
           rewrite font_size_rule_skip by reflexivity;
           rewrite !set_when_skip by reflexivity;
           rewrite !color_rule_skip by reflexivity;
           rewrite ?(spacing_rule_skip "p") by reflexivity;
           rewrite ?(spacing_rule_skip "px") by reflexivity;
           rewrite ?(spacing_rule_skip "py") by reflexivity;
           rewrite ?(spacing_rule_skip "m") by reflexivity;
           rewrite ?(spacing_rule_skip "mx") by reflexivity;
           rewrite ?(spacing_rule_skip "my") by reflexivity;
           etransitivity; [apply spacing_rule_hit; assumption|reflexivity]|]).
  contradiction.
Qed.

End SpacingClasses.

Lemma spacing_classes_resolve_witness :
  @getComputedStylesFromClassName Sample.host ("px" ++ "-" ++ "06")
  = map (fun target =>
           (target, VStr (JsString.of_N (JsString.to_N "06" * 4) ++ "px")))
      ["paddingLeft"; "paddingRight"].
Proof.
  apply (@spacing_classes_resolve Sample.host "px"
           ["paddingLeft"; "paddingRight"] "06").
  - simpl. tauto.
  - discriminate.
  - reflexivity.
  - reflexivity.
Defined.

Module ColorFacts.
Import Regex.

Lemma run_alt_left {A : Type} (r1 r2 : regex) (s : list ascii) (pos : nat)
    (caps : Captures) (k : list ascii -> nat -> Captures -> option A) (a : A) :
  run r1 s pos caps k = Some a -> run (Alt r1 r2) s pos caps k = Some a.
Proof. intros H. cbn [run]. now rewrite H. Qed.

(** A group of a unit and a run of a class after it captures both. *)
Lemma group_char_plus_class {A : Type} (i : nat) (c : ascii)
    (member : ascii -> bool)
    (k : list ascii -> nat -> Captures -> option A) (a : A)
    (units rest : list ascii) (pos : nat) (caps : Captures) :
  units <> [] ->
  forallb member units = true ->
  stops_at member rest = true ->
  k rest (S pos + List.length units) ((i, JsString.of_chars (c :: units)) :: caps)
  = Some a ->
  run (Group i (Seq (Char c) (Plus (Class member)))) (c :: units ++ rest)%list
    pos caps k = Some a.
Proof.
  intros Hne Hunits Hstop Hk.
  destruct units as [|d units]; [congruence|].
  pose proof Hunits as Hall.
  simpl in Hunits. apply andb_prop in Hunits. destruct Hunits as [Hd Hunits].
  unfold Plus. cbn [run]. rewrite Ascii.eqb_refl. simpl app. cbn iota.
  rewrite Hd.
  change (run (Star (Class member)) (units ++ rest)%list (S (S pos)) caps
            (fun s1 pos1 caps1 =>
               k s1 pos1
                 ((i, JsString.of_chars
                        (firstn (pos1 - pos) (c :: d :: units ++ rest)%list))
                  :: caps1)) = Some a).
  apply GreedyFacts.star_class_greedy; [exact Hunits|exact Hstop|].
  replace (S (S pos) + List.length units - pos)
    with (S (S (List.length units))) by lia.
  simpl firstn.
  replace (firstn (List.length units) (units ++ rest)%list) with units.
  - rewrite <- Hk. f_equal. simpl. lia.
  - rewrite <- (Nat.add_0_r (List.length units)).
    rewrite firstn_app_2. simpl. now rewrite app_nil_r.
Qed.

Lemma color_match (q name : string) (shade : option string) :
  is_name name = true ->
  is_shade shade = true ->
  exists m,
    exec (Patterns.color q) (q ++ "-" ++ name ++ shade_text shade) = Some m
    /\ capture m 1 = Some name
    /\ capture m 2
       = match shade with Some _ => Some (shade_text shade) | None => None end.
Proof.
  intros Hname Hshade. unfold is_name in Hname.
  apply andb_prop in Hname. destruct Hname as [Hne Hword].
  assert (Hunits : JsString.chars name <> []).
  { destruct name; [discriminate|discriminate]. }
  unfold Patterns.color. rewrite AnchoredFacts.exec_anchored.
  unfold match_at.
  change (run (Seq Begin ?r) ?s 0 ?caps ?k) with (run r s 0 caps k).
  rewrite !EscapeFacts.chars_app.
  rewrite GreedyFacts.run_seq, GreedyFacts.run_lit. cbv beta.
  change (JsString.chars "-") with ["-"%char]. simpl app at 1.
  rewrite GreedyFacts.run_seq, GreedyFacts.run_char. cbv beta.
  rewrite GreedyFacts.run_seq.
  destruct shade as [digits|]; simpl shade_text.
  - simpl in Hshade. apply andb_prop in Hshade.
    destruct Hshade as [Hdne Hdigits].
    assert (Hdunits : JsString.chars digits <> []).
    { destruct digits; [discriminate|discriminate]. }
    eexists. split.
    + apply GreedyFacts.group_plus_class;
        [exact Hunits|exact Hword|reflexivity|].
      cbv beta. rewrite GreedyFacts.run_seq. unfold Opt.
      apply run_alt_left.
      change (JsString.chars (String "-" digits))
        with ("-"%char :: JsString.chars digits).
      rewrite <- (app_nil_r (JsString.chars digits)) at 1.
      apply group_char_plus_class;
        [exact Hdunits|exact Hdigits|reflexivity|].
      cbv beta. cbn [run]. reflexivity.
    + simpl. rewrite !RegexFacts.of_chars_chars. split; reflexivity.
  - eexists. split.
    + change (JsString.chars "") with (@nil ascii).
      apply GreedyFacts.group_plus_class;
        [exact Hunits|exact Hword|reflexivity|].
      cbv beta. cbn [run]. reflexivity.
    + simpl. rewrite !RegexFacts.of_chars_chars. split; reflexivity.
Qed.

Lemma run_lit_inv {A : Type} (p : string) :
  forall (s : list ascii) (pos : nat) (caps : Captures)
         (k : list ascii -> nat -> Captures -> option A) (a : A),
    run (Lit p) s pos caps k = Some a ->
    exists rest,
      s = (JsString.chars p ++ rest)%list
      /\ k rest (pos + String.length p) caps = Some a.
Proof.
  induction p as [|c p IH]; intros s pos caps k a Hrun; simpl in Hrun.
  - exists s. split; [reflexivity|]. now rewrite Nat.add_0_r.
  - destruct s as [|d s]; [discriminate|].
    destruct (Ascii.eqb_spec d c) as [->|]; [|discriminate].
    apply IH in Hrun. destruct Hrun as (rest & -> & Hk).
    exists rest. split; [reflexivity|].
    rewrite <- Hk. f_equal. simpl. lia.
Qed.

Lemma alternatives_inv {A : Type} (keywords : list string) :
  forall (s : list ascii) (pos : nat) (caps : Captures)
         (k : list ascii -> nat -> Captures -> option A) (a : A),
    run (Patterns.alternatives keywords) s pos caps k = Some a ->
    exists keyword rest,
      In keyword keywords
      /\ s = (JsString.chars keyword ++ rest)%list
      /\ k rest (pos + String.length keyword) caps = Some a.
Proof.
  induction keywords as [|keyword keywords IH]; intros s pos caps k a Hrun.
  - simpl in Hrun. destruct s; discriminate.
  - destruct keywords as [|next keywords].
    + simpl Patterns.alternatives in Hrun. apply run_lit_inv in Hrun.
      destruct Hrun as (rest & Hs & Hk). exists keyword, rest.
      split; [now left|]. now split.
    + change (Patterns.alternatives (keyword :: next :: keywords))
        with (Alt (Lit keyword) (Patterns.alternatives (next :: keywords)))
        in Hrun.
      cbn [run] in Hrun.
      destruct (run (Lit keyword) s pos caps k) as [a'|] eqn:Hfirst.
      * inversion Hrun; subst a'. apply run_lit_inv in Hfirst.
        destruct Hfirst as (rest & Hs & Hk). exists keyword, rest.
        split; [now left|]. now split.
      * apply IH in Hrun. destruct Hrun as (found & rest & Hin & Hs & Hk).
        exists found, rest. split; [now right|]. now split.
Qed.

Lemma chars_injective (a b : string) :
  JsString.chars a = JsString.chars b -> a = b.
Proof.
  intros H. rewrite <- (RegexFacts.of_chars_chars a),
    <- (RegexFacts.of_chars_chars b). now rewrite H.
Qed.

(** The pattern of the font sizes matches the classes of the size keywords
    and no other. *)
Lemma font_size_inv (cls : string) :
  test Patterns.font_size cls = true ->
  exists keyword, In keyword size_keywords /\ cls = "text-" ++ keyword.
Proof.
  unfold test, Patterns.font_size. rewrite AnchoredFacts.exec_anchored.
  unfold match_at.
  change (run (Seq Begin ?r) ?s 0 ?caps ?k) with (run r s 0 caps k).
  destruct (run _ (JsString.chars cls) 0 [] _) as [m|] eqn:Hrun;
    [|discriminate].
  intros _. rewrite GreedyFacts.run_seq in Hrun.
  apply run_lit_inv in Hrun. destruct Hrun as (rest & Hcls & Hrun).
  rewrite GreedyFacts.run_seq in Hrun. cbn [run] in Hrun.
  apply alternatives_inv in Hrun.
  destruct Hrun as (keyword & rest' & Hin & Hrest & Hend).
  destruct rest' as [|c rest']; [|discriminate].
  exists keyword. split; [exact Hin|].
  apply chars_injective. rewrite Hcls, Hrest, app_nil_r.
  now rewrite EscapeFacts.chars_app.
Qed.

End ColorFacts.

Lemma append_empty (s : string) : s ++ "" = s.
Proof. induction s as [|c s IH]; simpl; [reflexivity|now rewrite IH]. Qed.

Lemma color_key_text (name : string) (shade : option string) :
  name ++ shade_text shade = color_key name shade.
Proof. destruct shade; simpl; [reflexivity|apply append_empty]. Qed.

Lemma word_is_no_space (c : ascii) :
  JsString.is_word c = true -> JsString.is_space c = false.
Proof.
  unfold JsString.is_word. cbv zeta. intros H.
  destruct (JsString.is_digit c) eqn:Hdigit;
    [now apply digit_is_no_space|].
  unfold JsString.is_space. cbv zeta. revert H.
  generalize (JsString.code c). intros n H.
  rewrite orb_false_r in H.
  assert (Hn : 65 <= n).
  { apply orb_prop in H. destruct H as [H|H].
    - apply orb_prop in H. destruct H as [H|H];
        apply andb_prop in H; destruct H as [H _]; apply Nat.leb_le in H; lia.
    - apply Nat.eqb_eq in H. lia. }
  replace (Nat.leb n 13) with false by (symmetry; apply Nat.leb_gt; lia).
  replace (Nat.eqb n 32) with false by (symmetry; apply Nat.eqb_neq; lia).
  rewrite andb_false_r. simpl.
  apply Nat.eqb_neq. intros ->.
  apply orb_prop in H. destruct H as [H|H]; [|discriminate].
  apply orb_prop in H. destruct H as [H|H]; discriminate.
Qed.

Section ColorClasses.

Context {host : Host}.

Lemma color_rule_hit (q target : string) (excluded : list string)
    (name : string) (shade : option string) (cls : string) (o : Obj) :
  cls = q ++ "-" ++ color_key name shade ->
  is_name name = true ->
  is_shade shade = true ->
  existsb (String.eqb name) excluded = false ->
  color_rule q target excluded cls o
  = (let found := literal_get colorMap (color_key name shade) in
     if truthy found then JsObject.set o target found else o).
Proof.
  intros -> Hname Hshade Hexcluded. unfold color_rule.
  destruct (ColorFacts.color_match q name shade Hname Hshade)
    as (m & Hexec & Hone & Htwo).
  rewrite color_key_text in Hexec. rewrite Hexec, Hone, Hexcluded, Htwo.
  now destruct shade.
Qed.

Lemma font_size_rule_skip_name (name : string) (shade : option string)
    (cls : string) (o : Obj) :
  cls = "text" ++ "-" ++ color_key name shade ->
  is_name name = true ->
  existsb (String.eqb name) size_keywords = false ->
  font_size_rule cls o = o.
Proof.
  intros -> Hname Hexcluded. unfold font_size_rule.
  destruct (Regex.test Patterns.font_size ("text" ++ "-" ++ color_key name shade))
    eqn:Htest; [|reflexivity].
  exfalso. apply ColorFacts.font_size_inv in Htest.
  destruct Htest as (keyword & Hin & Heq).
  simpl in Heq. inversion Heq as [Hkey]. clear Heq.
  destruct shade as [digits|]; simpl in Hkey.
  - assert (Hhyphen : In "-"%char (JsString.chars keyword)).
    { rewrite <- Hkey, EscapeFacts.chars_app. apply in_or_app. right.
      now left. }
    simpl in Hin.
    repeat (destruct Hin as [<-|Hin];
            [simpl in Hhyphen; intuition discriminate|]).
    contradiction.
  - subst keyword.
    assert (Htrue : existsb (String.eqb name) size_keywords = true).
    { apply existsb_exists. exists name. split; [exact Hin|].
      apply String.eqb_refl. }
    congruence.
Qed.

(** X29. A color class on its own, [text-] or [bg-] followed by a name of
    word characters and, optionally, a hyphen and a shade of digits, looks
    the name with its shade up in the color table and sets [color] or
    [backgroundColor] to what it finds, and sets nothing when it finds
    nothing; for [text-] the name is not a size keyword. *)
Theorem color_classes_resolve :
  forall (prefix target name : string) (shade : option string),
    In (prefix, target) color_classes ->
    is_name name = true ->
    is_shade shade = true ->
    (prefix = "text" -> existsb (String.eqb name) size_keywords = false) ->
    getComputedStylesFromClassName (prefix ++ "-" ++ color_key name shade)
    = (let found := literal_get colorMap (color_key name shade) in
       if truthy found then [(target, found)] else []).
Proof.
  intros prefix target name shade Hin Hname Hshade Hexcluded.
  assert (Hplain : forallb (fun c => negb (JsString.is_space c))
                     (JsString.chars (color_key name shade)) = true).
  { pose proof Hname as Hword. unfold is_name in Hword.
    apply andb_prop in Hword. destruct Hword as [_ Hword].
    assert (Hn : forallb (fun c => negb (JsString.is_space c))
                   (JsString.chars name) = true).
    { apply forallb_forall. intros c Hc. rewrite forallb_forall in Hword.
      now rewrite (word_is_no_space c (Hword c Hc)). }
    destruct shade as [digits|]; simpl color_key; [|exact Hn].
    rewrite !EscapeFacts.chars_app, !forallb_app, Hn. simpl.
    simpl in Hshade. apply andb_prop in Hshade. destruct Hshade as [_ Hdigits].
    apply forallb_forall. intros c Hc. rewrite forallb_forall in Hdigits.
    now rewrite (digit_is_no_space c (Hdigits c Hc)). }
  unfold getComputedStylesFromClassName, split_whitespace.
  rewrite split_spaces_plain.
  2:{ rewrite !EscapeFacts.chars_app, !forallb_app, Hplain.
      simpl in Hin.
      repeat (destruct Hin as [Hin|Hin];
              [inversion Hin; subst; reflexivity|]).
      contradiction. }
  simpl rev. simpl app. rewrite RegexFacts.of_chars_chars.
  cbn [fold_left]. unfold class_step. cbv zeta.
  simpl in Hin. destruct Hin as [Hin|[Hin|[]]];
    inversion Hin; subst prefix target; clear Hin.
  - specialize (Hexcluded eq_refl).
    rewrite (font_size_rule_skip_name name shade)
      by first [reflexivity|assumption].
    rewrite !set_when_skip by reflexivity.
    rewrite !spacing_rule_skip by reflexivity.
    rewrite (color_rule_skip "bg") by reflexivity.
    rewrite (color_rule_hit "text" "color" size_keywords name shade)
      by first [reflexivity|assumption].
    cbv zeta. now destruct (truthy _).
  - rewrite font_size_rule_skip by reflexivity.
    rewrite !set_when_skip by reflexivity.
    rewrite !spacing_rule_skip by reflexivity.
    rewrite (color_rule_skip "text") by reflexivity.
    rewrite (color_rule_hit "bg" "backgroundColor" [] name shade)
      by first [reflexivity|assumption].
    cbv zeta. now destruct (truthy _).
Qed.

End ColorClasses.

Lemma color_classes_resolve_witness :
  @getComputedStylesFromClassName Sample.host
    ("bg" ++ "-" ++ color_key "blue" (Some "500"))
  = (let found := literal_get colorMap (color_key "blue" (Some "500")) in
     if truthy found then [("backgroundColor", found)] else []).
Proof.
  apply (@color_classes_resolve Sample.host "bg" "backgroundColor" "blue"
           (Some "500")).
  - simpl. tauto.
  - reflexivity.
  - reflexivity.
  - discriminate.
Defined.

(** ** The routes of the backend *)

Lemma put_of_stored (throws : Routes.DbCall -> bool) (body : Routes.Body)
    (ident now code_ : string) (store : Database.Store)
    (existing : Database.ComponentRow) :
  Routes.valid_code (Routes.body_code body) = Some code_ ->
  Database.getComponent ident store = Some existing ->
  throws Routes.CallGet = false ->
  throws Routes.CallUpdate = false ->
  exists rows',
    Routes.put throws ident body now store
    = (Routes.Json 200
         (Database.updated_row existing code_ (Routes.body_name body) now),
       Some rows')
    /\ Database.getComponent ident (Some rows')
       = Some (Database.updated_row existing code_ (Routes.body_name body) now).
Proof.
  intros Hvalid Hfound Hget Hupdate. unfold Routes.put, Routes.attempt.
  rewrite Hvalid, Hget, Hfound, Hupdate. unfold Database.updateComponent.
  unfold Database.getComponent in Hfound |- *.
  destruct (DatabaseFacts.update_first_some ident code_
              (Routes.body_name body) now _ existing Hfound)
    as (rows' & -> & _ & Hother).
  exists rows'. split; [reflexivity|]. simpl.
  now rewrite Hother, String.eqb_refl.
Qed.

(** X30. The routes answer from the store, and with 500 when a call into
    the database throws.  A body whose code is not a non-empty string is
    refused with 400 by POST and PUT before the database is called.  With a
    valid code and no exception, POST under a fresh id answers 201 with the
    row that GET returns afterwards, and PUT answers 404 for an id that is
    not stored and otherwise 200 with the updated row that GET returns
    afterwards.  PUT answers 500 exactly when one of its calls into the
    database throws: its branch for an update that finds no row is never
    taken.  POST, GET and DELETE answer 500 exactly when their call throws;
    without an exception GET and DELETE answer 404 for an id that is not
    stored, and otherwise the stored row and 204.  A reply of 400, 404 or
    500 leaves the store as it was. *)
Theorem routes_answer_from_the_store :
  forall (throws : Routes.DbCall -> bool) (body : Routes.Body)
         (ident now : string) (store : Database.Store),
    (Routes.valid_code (Routes.body_code body) = None ->
     Routes.post throws body ident now store
     = (Routes.Error 400 Routes.code_required, store)
     /\ Routes.put throws ident body now store
        = (Routes.Error 400 Routes.code_required, store))
    /\ (forall code_,
           Routes.valid_code (Routes.body_code body) = Some code_ ->
           Routes.body_code body = VStr code_
           /\ code_ <> ""
           /\ (throws Routes.CallCreate = false ->
               Database.getComponent ident store = None ->
               exists row,
                 Routes.post throws body ident now store
                 = (Routes.Json 201 row,
                    snd (Routes.post throws body ident now store))
                 /\ Database.id row = ident
                 /\ Database.code row = code_
                 /\ (throws Routes.CallGet = false ->
                     Routes.get throws ident
                       (snd (Routes.post throws body ident now store))
                     = Routes.Json 200 row))
           /\ (throws Routes.CallGet = false ->
               match Database.getComponent ident store with
               | None =>
                   Routes.put throws ident body now store
                   = (Routes.Error 404 Routes.not_found, store)
               | Some existing =>
                   throws Routes.CallUpdate = false ->
                   exists row,
                     Routes.put throws ident body now store
                     = (Routes.Json 200 row,
                        snd (Routes.put throws ident body now store))
                     /\ Database.id row = Database.id existing
                     /\ Database.code row = code_
                     /\ Database.created_at row = Database.created_at existing
                     /\ Routes.get throws ident
                          (snd (Routes.put throws ident body now store))
                        = Routes.Json 200 row
               end))
    /\ ((exists message,
            fst (Routes.put throws ident body now store)
            = Routes.Error 500 message)
        <-> Routes.valid_code (Routes.body_code body) <> None
            /\ (throws Routes.CallGet = true
                \/ (Database.getComponent ident store <> None
                    /\ throws Routes.CallUpdate = true)))
    /\ ((exists message,
            fst (Routes.post throws body ident now store)
            = Routes.Error 500 message)
        <-> Routes.valid_code (Routes.body_code body) <> None
            /\ throws Routes.CallCreate = true)
    /\ (if throws Routes.CallGet
        then Routes.get throws ident store = Routes.Error 500 Routes.get_failed
        else match Database.getComponent ident store with
             | None =>
                 Routes.get throws ident store
                 = Routes.Error 404 Routes.not_found
             | Some row => Routes.get throws ident store = Routes.Json 200 row
             end)
    /\ (if throws Routes.CallDelete
        then Routes.delete throws ident store
             = (Routes.Error 500 Routes.delete_failed, store)
        else match Database.getComponent ident store with
             | None =>
                 Routes.delete throws ident store
                 = (Routes.Error 404 Routes.not_found, store)
             | Some row =>
                 fst (Routes.delete throws ident store) = Routes.NoContent
             end)
    /\ (forall status message,
           (fst (Routes.post throws body ident now store)
            = Routes.Error status message ->
            snd (Routes.post throws body ident now store) = store)
           /\ (fst (Routes.put throws ident body now store)
               = Routes.Error status message ->
               snd (Routes.put throws ident body now store) = store)
           /\ (fst (Routes.delete throws ident store)
               = Routes.Error status message ->
               snd (Routes.delete throws ident store) = store)).
Proof.
  intros throws body ident now store.
  assert (Hupdated : forall code_ existing,
             Database.getComponent ident store = Some existing ->
             exists rows',
               Database.updateComponent ident code_ (Routes.body_name body)
                 now store
               = (Some (Database.updated_row existing code_
                          (Routes.body_name body) now), Some rows')).
  { intros code_ existing Hfound. unfold Database.updateComponent.
    unfold Database.getComponent in Hfound.
    destruct (DatabaseFacts.update_first_some ident code_
                (Routes.body_name body) now _ existing Hfound)
      as (rows' & -> & _).
    now exists rows'. }
  split; [|split; [|split; [|split; [|split; [|split]]]]].
  - intros Hvalid. unfold Routes.post, Routes.put. now rewrite Hvalid.
  - intros code_ Hvalid.
    assert (Hcode : Routes.body_code body = VStr code_ /\ code_ <> "").
    { unfold Routes.valid_code in Hvalid.
      destruct (Routes.body_code body) as [| | | |s| |]; try discriminate.
      simpl in Hvalid. destruct (String.eqb_spec s "") as [|Hne];
        [discriminate|].
      inversion Hvalid; subst. now split. }
    split; [exact (proj1 Hcode)|]. split; [exact (proj2 Hcode)|]. split.
    + intros Hcreate Hfresh. unfold Routes.post, Routes.attempt.
      rewrite Hvalid, Hcreate. simpl.
      eexists. split; [reflexivity|]. repeat split.
      intros Hget. unfold Routes.get, Routes.attempt. rewrite Hget.
      unfold Database.getComponent. simpl.
      unfold Database.getComponent in Hfresh.
      rewrite find_app, Hfresh. simpl. now rewrite String.eqb_refl.
    + intros Hget.
      destruct (Database.getComponent ident store) as [existing|] eqn:Hfound.
      * intros Hupdate.
        destruct (put_of_stored throws body ident now code_ store existing
                    Hvalid Hfound Hget Hupdate) as (rows' & Hreply & Hafter).
        eexists. rewrite Hreply. split; [reflexivity|]. simpl.
        repeat split. unfold Routes.get, Routes.attempt.
        now rewrite Hget, Hafter.
      * unfold Routes.put, Routes.attempt. now rewrite Hvalid, Hget, Hfound.
  - unfold Routes.put, Routes.attempt.
    destruct (Routes.valid_code (Routes.body_code body)) as [code_|];
      [|split; [intros [m H]; discriminate|intros [H _]; now contradiction H]].
    destruct (throws Routes.CallGet).
    { split; [intros _; split; [discriminate|now left]|].
      intros _. now eexists. }
    destruct (Database.getComponent ident store) as [existing|] eqn:Hfound.
    + destruct (throws Routes.CallUpdate).
      * split; [intros _; split; [discriminate|right; now split]|].
        intros _. now eexists.
      * destruct (Hupdated code_ existing eq_refl) as (rows' & ->).
        split; [intros [m H]; discriminate|].
        intros [_ [H|[_ H]]]; discriminate.
    + split; [intros [m H]; discriminate|].
      intros [_ [H|[H _]]]; [discriminate|now contradiction H].
  - unfold Routes.post, Routes.attempt.
    destruct (Routes.valid_code (Routes.body_code body)) as [code_|];
      [|split; [intros [m H]; discriminate|intros [H _]; now contradiction H]].
    destruct (throws Routes.CallCreate); simpl.
    + split; [intros _; split; [discriminate|reflexivity]|].
      intros _. now eexists.
    + split; [intros [m H]; discriminate|intros [_ H]; discriminate].
  - unfold Routes.get, Routes.attempt.
    destruct (throws Routes.CallGet); [reflexivity|].
    now destruct (Database.getComponent ident store).
  - unfold Routes.delete, Routes.attempt, Database.deleteComponent.
    destruct (throws Routes.CallDelete); [reflexivity|].
    destruct (Database.getComponent ident store) as [row|] eqn:Hfound;
      unfold Database.getComponent in Hfound.
    + destruct (DatabaseFacts.remove_first_some ident _ row Hfound)
        as (rows' & -> & _).
      reflexivity.
    + now rewrite (DatabaseFacts.remove_first_none ident _ Hfound).
  - intros status message. split; [|split].
    + unfold Routes.post, Routes.attempt.
      destruct (Routes.valid_code (Routes.body_code body)); [|reflexivity].
      destruct (throws Routes.CallCreate); [reflexivity|]. discriminate.
    + unfold Routes.put, Routes.attempt.
      destruct (Routes.valid_code (Routes.body_code body)) as [code_|];
        [|reflexivity].
      destruct (throws Routes.CallGet); [reflexivity|].
      destruct (Database.getComponent ident store) as [existing|] eqn:Hfound;
        [|reflexivity].
      destruct (throws Routes.CallUpdate); [reflexivity|].
      destruct (Hupdated code_ existing eq_refl) as (rows' & ->).
      discriminate.
    + unfold Routes.delete, Routes.attempt, Database.deleteComponent.
      destruct (throws Routes.CallDelete); [reflexivity|].
      destruct (Database.remove_first ident (Database.loadDb store));
        [discriminate|reflexivity].
Qed.

(** ** Class lists, token by token *)

Lemma color_mismatch_hyphen (q cls : string) :
  String.prefix (q ++ "-") cls = false ->
  Regex.exec (Patterns.color q) cls = None.
Proof.
  intros Hprefix. unfold Patterns.color. rewrite AnchoredFacts.exec_anchored.
  unfold Regex.match_at.
  change (Regex.run (Regex.Seq Regex.Begin ?r) ?s 0 ?caps ?k)
    with (Regex.run r s 0 caps k).
  rewrite GreedyFacts.run_seq, (AnchoredFacts.run_lit_char q "-").
  apply AnchoredFacts.lit_mismatch.
  now rewrite RegexFacts.of_chars_chars.
Qed.

Section Tokens.

Context {host : Host}.

Lemma color_rule_skip_hyphen (q target : string) (excluded : list string)
    (cls : string) (o : Obj) :
  String.prefix (q ++ "-") cls = false ->
  color_rule q target excluded cls o = o.
Proof.
  intros H. unfold color_rule. now rewrite color_mismatch_hyphen.
Qed.

(** A token no rule can match leaves the styles as they are. *)
Lemma class_step_skip (styles : Obj) (cls : string) :
  recognised cls = false -> class_step styles cls = styles.
Proof.
  unfold recognised. intros H.
  apply orb_false_elim in H. destruct H as [Hprefixes Hkeywords].
  simpl in Hprefixes, Hkeywords.
  repeat (apply orb_false_elim in Hprefixes;
          destruct Hprefixes as [? Hprefixes]).
  repeat (apply orb_false_elim in Hkeywords;
          destruct Hkeywords as [? Hkeywords]).
  unfold class_step. cbv zeta.
  rewrite font_size_rule_skip by assumption.
  rewrite !set_when_skip by assumption.
  rewrite !color_rule_skip_hyphen by assumption.
  rewrite !spacing_rule_skip by assumption.
  reflexivity.
Qed.

Lemma fold_skips (tokens : list string) (styles : Obj) :
  fold_left class_step tokens styles
  = fold_left class_step (filter recognised tokens) styles.
Proof.
  revert styles. induction tokens as [|cls tokens IH]; intros styles;
    [reflexivity|].
  cbn [fold_left filter]. destruct (recognised cls) eqn:Hcls.
  - cbn [fold_left]. apply IH.
  - rewrite (class_step_skip styles cls Hcls). apply IH.
Qed.

(** X17. Whatever the class list, [getComputedStylesFromClassName] sets none
    but the twenty style properties of its rules, and each at most once.
    Tokens it does not know add nothing: a token that starts with none of
    the eight prefixes of the rules and is none of their fourteen keyword
    classes leaves the styles as they are, so the styles of a class list
    are those of its other tokens. *)
Theorem class_styles_stay_in_the_table :
  forall className : string,
    (forall key,
        In key (JsObject.keys (getComputedStylesFromClassName className)) ->
        In key style_properties)
    /\ NoDup (JsObject.keys (getComputedStylesFromClassName className))
    /\ (forall styles cls,
           recognised cls = false -> class_step styles cls = styles)
    /\ getComputedStylesFromClassName className
       = fold_left class_step
           (filter recognised (split_whitespace className)) [].
Proof.
  intros className.
  split; [|split; [apply class_styles_keys_distinct|split]].
  - unfold getComputedStylesFromClassName.
    assert (H : forall tokens o,
               listed o -> listed (fold_left class_step tokens o)).
    { induction tokens as [|t tokens IH]; simpl; intros o Ho; [exact Ho|].
      apply IH. now apply class_step_listed. }
    apply H. intros x [].
  - apply class_step_skip.
  - unfold getComputedStylesFromClassName. apply fold_skips.
Qed.

End Tokens.

(** * The round trip of printable trees *)

(** ** The markup of a printable tree *)

Module SourceFacts.
Import Jsx.

Lemma glue_app (a b : list string) : glue (a ++ b)%list = glue a ++ glue b.
Proof.
  induction a as [|x a IH]; simpl; [reflexivity|].
  now rewrite IH, EscapeFacts.append_assoc.
Qed.









End SourceFacts.

Section MarkupParts.

Context {host : Host}.








End MarkupParts.

Section MarkupText.

Context {host : Host}.




End MarkupText.

Section MarkupGrammar.

Context {host : Host}.











End MarkupGrammar.

Module TrimFacts.









End TrimFacts.

Section ReadBack.

Context {host : Host}.



End ReadBack.

Section Conversion.

Context {host : Host}.

Import TrimFacts.








End Conversion.

Section PrintableRoundTrip.

Context {host : Host}.



End PrintableRoundTrip.


(** Two text children side by side are not printable: their lines are one
    text of the expression, and the parser makes one text node of them. *)
Example adjacent_texts_are_read_as_one :
  printable Sample.adjacent_texts = false
  /\ @Jsx.source Sample.host (@markup_ast Sample.host Sample.adjacent_texts 0)
     = @serializeToJSX Sample.host Sample.adjacent_texts 0
  /\ option_map children
       (fst (@root_tree Sample.host
               (@markup_ast Sample.host Sample.adjacent_texts 0) 0))
     = Some [Sample.plain "node-0" ("a" ++ LF ++ "  b")].
Proof. repeat split; vm_compute; reflexivity. Qed.
